(** * Update reconciliation and realtime channel of the notebook telemetry extension

    A shallow embedding of [src/utils/notebookSync.ts] (pending-update store,
    merge algorithm, pending-updates sidebar), of
    [src/websocket/WebsocketManager.ts] (socket life cycle, inbound message
    normalisation, outbound events) and of
    [src/utils/teammateLocationTracker.ts] (locations of the teammates and
    outline of the notebook), with the properties of the specification
    proved or refuted against it and further properties of the code.

    Stateful code is written in a small state-and-exception monad over the
    notebook panel, the interaction log and the clock. What the code does to
    the DOM (notifications, re-rendering of the sidebars) and to the console
    is not represented. *)

From Stdlib Require Import NArith ZArith Lia String Ascii Sorting.Sorted Permutation.
From stdpp Require Import base decidable option numbers list gmap.

Set Default Proof Using "Type".
Open Scope N_scope.
Open Scope nat_scope.

(** ** JavaScript values used by the code *)

Module Js.

(** A JavaScript string is a sequence of UTF-16 code units. *)
Definition jsstring : Type := list N.

(** An ASCII literal of the source text. *)
Definition lit (s : string) : jsstring :=
  List.map N_of_ascii (list_ascii_of_string s).

(** Line feed, written [\n] in the source. *)
Definition LF : N := 10%N.

(** Truthiness of a value of type [string | null | undefined]: only a
    non-empty string is truthy. *)
Definition truthy (v : option jsstring) : bool :=
  match v with
  | Some (_ :: _) => true
  | _ => false
  end.

(** [a || b] on such values. *)
Definition or_else (a b : option jsstring) : option jsstring :=
  if truthy a then a else b.

(** [a || s] where [s] is a string. *)
Definition or_default (a : option jsstring) (s : jsstring) : jsstring :=
  match a with
  | Some (c :: r) => c :: r
  | _ => s
  end.

(** White space and line terminators of ECMAScript: the class [\s] of regular
    expressions and the characters removed by [String.prototype.trim]. *)
Definition isSpace (c : N) : bool :=
  ((9 <=? c) && (c <=? 13) || (c =? 32) || (c =? 160) || (c =? 5760)
   || (8192 <=? c) && (c <=? 8202) || (c =? 8232) || (c =? 8233)
   || (c =? 8239) || (c =? 8287) || (c =? 12288) || (c =? 65279))%N.

Fixpoint trimStart (s : jsstring) : jsstring :=
  match s with
  | c :: r => if isSpace c then trimStart r else s
  | [] => []
  end.

Definition trimEnd (s : jsstring) : jsstring := rev (trimStart (rev s)).

Definition trim (s : jsstring) : jsstring := trimEnd (trimStart s).

(** [Array.prototype.lastIndexOf] with strict equality; [None] stands for -1. *)
Fixpoint lastIndexOf {A} `{EqDecision A} (l : list A) (x : A) : option nat :=
  match l with
  | [] => None
  | y :: r =>
      match lastIndexOf r x with
      | Some i => Some (S i)
      | None => if decide (y = x) then Some 0 else None
      end
  end.

(** [Array.prototype.indexOf]. *)
Fixpoint indexOf {A} `{EqDecision A} (l : list A) (x : A) : option nat :=
  match l with
  | [] => None
  | y :: r => if decide (y = x) then Some 0 else S <$> indexOf r x
  end.

(** [Array.prototype.includes]. *)
Definition includes {A} `{EqDecision A} (l : list A) (x : A) : bool :=
  bool_decide (x ∈ l).

End Js.

Import Js.

(** Who sent an update: the union type ['teacher' | 'teammate']. *)
Inductive SenderType : Type := teacher | teammate.

#[global] Instance SenderType_eq_dec : EqDecision SenderType.
Proof. solve_decision. Defined.

(** The persistent user identifier exported by the extension's entry module
    ([import { PERSISTENT_USER_ID } from '..']); [None] when it is not set. *)
Class Identity : Type := { PERSISTENT_USER_ID : option jsstring }.

(** ** WebsocketManager.ts *)

Module WebsocketManager.

(** A socket made by [io(url, ...)]: the query parameters of its URL and
    whether [close()] has been called on it. *)
Record Socket : Type := mkSocket {
  nbId : jsstring;
  userId : jsstring;
  closed : bool
}.

#[global] Instance Socket_eq_dec : EqDecision Socket.
Proof. solve_decision. Defined.

(** What the payload of a 'chat' or 'group_chat' event can be: the legacy
    string, or the object [{ message, sender, sender_type? }]. *)
Inductive ChatData : Type :=
  | DataString (data : jsstring)
  | DataObject (message sender : jsstring) (sender_type : option jsstring).

Section Manager.

(** The type of the functions registered as message callbacks. *)
Context {Callback : Type}.
Context {who : Identity}.

(** The manager's private fields, together with every socket the process has
    created so far (in creation order); [_socket] designates one of them by
    its position, [None] is [null]. *)
Record State : Type := mkState {
  sockets : list Socket;
  _socket : option nat;
  _messageCallback : option Callback
}.

(** [constructor()] *)
Definition new : State :=
  {| sockets := []; _socket := None; _messageCallback := None |}.

Definition close (s : Socket) : Socket :=
  {| nbId := nbId s; userId := userId s; closed := true |}.

(** [closeSocketConnection()] *)
Definition closeSocketConnection (st : State) : State :=
  {| sockets :=
       match _socket st with
       | Some h => alter close h (sockets st)
       | None => sockets st
       end;
     _socket := None;
     _messageCallback := _messageCallback st |}.

(** [_createSocket(notebookId, userId)]: the new socket is stored in
    [_socket]; its event handlers are [on_chat] and [on_group_chat] below. *)
Definition _createSocket (notebookId user : jsstring) (st : State) : State :=
  {| sockets := sockets st ++ [mkSocket notebookId user false];
     _socket := Some (length (sockets st));
     _messageCallback := _messageCallback st |}.

(** [establishSocketConnection(notebookId, onMessage)] *)
Definition establishSocketConnection
    (notebookId : option jsstring) (onMessage : Callback) (st : State) : State :=
  let st := closeSocketConnection st in
  let st :=
    {| sockets := sockets st; _socket := _socket st;
       _messageCallback := Some onMessage |} in
  match notebookId, PERSISTENT_USER_ID with
  | Some (c :: n), Some (d :: u) => _createSocket (c :: n) (d :: u) st
  | _, _ => st
  end.

(** The sockets that have been created and not closed. *)
Definition live (st : State) : list Socket :=
  filter (λ s, closed s = false) (sockets st).

(** *** The regular expression [/^From\s+([^:]+):/]

    A backtracking matcher: [reLit] consumes a literal, [rePlus] is the greedy
    quantifier [+] over a character class, which takes as many characters as
    it can and gives them back one at a time while the rest of the pattern
    fails. *)

Fixpoint reLit (p s : jsstring) : option jsstring :=
  match p, s with
  | [], _ => Some s
  | a :: p', b :: s' => if decide (a = b) then reLit p' s' else None
  | _ :: _, [] => None
  end.

Fixpoint rePlus {A} (cls : N → bool) (s acc : jsstring)
    (k : jsstring → jsstring → option A) : option A :=
  match s with
  | c :: s' =>
      if cls c then
        match rePlus cls s' (acc ++ [c]) k with
        | Some r => Some r
        | None => k (acc ++ [c]) s'
        end
      else None
  | [] => None
  end.

Definition notColon (c : N) : bool := negb (c =? 58)%N.

(** The end of the pattern: the captured group must be followed by [:]. *)
Definition reColon (group rest : jsstring) : option jsstring :=
  match rest with
  | c :: _ => if (c =? 58)%N then Some group else None
  | [] => None
  end.

(** [data.match(/^From\s+([^:]+):/)]: the capture group 1 of the match. *)
Definition matchFrom (data : jsstring) : option jsstring :=
  match reLit (lit "From") data with
  | Some rest =>
      rePlus isSpace rest [] (λ _ rest, rePlus notColon rest [] reColon)
  | None => None
  end.

(** The sender of a legacy string payload. *)
Definition legacySender (default data : jsstring) : jsstring :=
  match matchFrom data with
  | Some (c :: g) => trim (c :: g)
  | _ => default
  end.

(** [data.sender_type === 'teacher' ? 'teacher' : 'teammate'] *)
Definition objectSenderType (sender_type : option jsstring) : SenderType :=
  if decide (sender_type = Some (lit "teacher")) then teacher else teammate.

(** A call [callback(message, sender, senderType)]. *)
Record Invocation : Type := mkInvocation {
  callback : Callback;
  message : jsstring;
  sender : jsstring;
  senderType : SenderType
}.

(** The handler of the 'chat' event: the call it makes, if any. *)
Definition on_chat (st : State) (data : ChatData) : option Invocation :=
  match _messageCallback st with
  | Some cb =>
      match data with
      | DataString data =>
          Some (mkInvocation cb data (legacySender (lit "teacher") data) teacher)
      | DataObject message sender sender_type =>
          Some (mkInvocation cb message sender (objectSenderType sender_type))
      end
  | None => None
  end.

(** The handler of the 'group_chat' event. *)
Definition on_group_chat (st : State) (data : ChatData) : option Invocation :=
  match _messageCallback st with
  | Some cb =>
      match data with
      | DataString data =>
          Some (mkInvocation cb data (legacySender (lit "teammate") data) teammate)
      | DataObject message sender sender_type =>
          Some (mkInvocation cb message sender (objectSenderType sender_type))
      end
  | None => None
  end.

End Manager.

Arguments State : clear implicits.
Arguments Invocation : clear implicits.

End WebsocketManager.

(** ** notebookSync.ts *)

Module NotebookSync.

(** The [action] of an interaction record. *)
Inductive Action : Type :=
  | UPDATE_NOW | UPDATE_LATER | UPDATE_ALL | DELETE_ALL | APPLY_SINGLE
  | REMOVE_SINGLE.

#[global] Instance Action_eq_dec : EqDecision Action.
Proof. solve_decision. Defined.

(** One entry of the [cells] array of an update payload. *)
Module ICellUpdate.
Record t : Type := mk {
  id : option jsstring;
  cell_id : option jsstring;
  cell_type : option jsstring;
  source : jsstring
}.
End ICellUpdate.

#[global] Instance ICellUpdate_eq_dec : EqDecision ICellUpdate.t.
Proof. solve_decision. Defined.

(** An update payload ([newContent], [pending.message]) as an object, after
    [JSON.parse] when it travels as text. [cells] is [None] when the object
    has no [cells] array to iterate over (or the text does not parse): reading
    it in a [for ... of] throws. An entry of the array that is [undefined] or
    [null] is [None]: reading a property of it throws. *)
Module Content.
Record t : Type := mk {
  update_id : option jsstring;
  id : option jsstring;
  cell_id : option jsstring;
  cells : option (list (option ICellUpdate.t))
}.
End Content.

#[global] Instance Content_eq_dec : EqDecision Content.t.
Proof. solve_decision. Defined.

(** [type IPendingUpdate] *)
Module IPendingUpdate.
Record t : Type := mk {
  id : jsstring;
  message : Content.t;
  timeReceived : jsstring;
  sender : jsstring;
  senderType : SenderType;
  updateId : option jsstring;
  cellId : option jsstring
}.
End IPendingUpdate.

#[global] Instance IPendingUpdate_eq_dec : EqDecision IPendingUpdate.t.
Proof. solve_decision. Defined.

(** The object given to [postPendingUpdateInteraction]. *)
Module Interaction.
Record t : Type := mk {
  notebook_id : jsstring;
  cell_id : option jsstring;
  update_id : option jsstring;
  action : Action;
  sender : option jsstring;
  sender_type : option SenderType;
  time : jsstring
}.
End Interaction.

(** A cell of the notebook, as far as the merge reads and writes it. *)
Module Cell.
Record t : Type := mk {
  cell_type : jsstring;
  source : jsstring
}.
End Cell.

#[global] Instance Cell_eq_dec : EqDecision Cell.t.
Proof. solve_decision. Defined.

(** The notebook panel: the cells of [panel.content.widgets] in document
    order, the active cell, and the three metadata entries the code reads and
    writes through [CompatibilityManager]. A disposed panel has no notebook
    model any more ([notebook.model] is null). *)
Record NotebookPanel : Type := mkPanel {
  isDisposed : bool;
  widgets : list Cell.t;
  activeCellIndex : nat;
  notebookId : option jsstring;
  pendingUpdates : list IPendingUpdate.t;
  updatedCells : list jsstring
}.

Definition set_widgets (f : list Cell.t → list Cell.t) (p : NotebookPanel) :=
  {| isDisposed := isDisposed p; widgets := f (widgets p);
     activeCellIndex := activeCellIndex p; notebookId := notebookId p;
     pendingUpdates := pendingUpdates p; updatedCells := updatedCells p |}.

Definition set_activeCellIndex (i : nat) (p : NotebookPanel) :=
  {| isDisposed := isDisposed p; widgets := widgets p;
     activeCellIndex := i; notebookId := notebookId p;
     pendingUpdates := pendingUpdates p; updatedCells := updatedCells p |}.

(** Modelled from the spec: [CompatibilityManager.setMetadataComp] of
    [utils/compatibility.ts], which is not among the sources at hand, for the
    key [Selectors.pendingUpdates]. The metadata of the document is a
    key/value store whose writes always succeed; a write replaces the value
    of its key. ([getMetadataComp] reads the field; a stored value that is
    not an array, which the code reads as an empty list, is not
    represented.) *)
Definition setMetadataComp_pendingUpdates (updates : list IPendingUpdate.t)
    (p : NotebookPanel) :=
  {| isDisposed := isDisposed p; widgets := widgets p;
     activeCellIndex := activeCellIndex p; notebookId := notebookId p;
     pendingUpdates := updates; updatedCells := updatedCells p |}.

(** Modelled from the spec: [CompatibilityManager.setMetadataComp] of
    [utils/compatibility.ts], which is not among the sources at hand, for the
    key [Selectors.updatedCells]: the write succeeds and replaces the list. *)
Definition setUpdatedCells (l : list jsstring) (p : NotebookPanel) :=
  {| isDisposed := isDisposed p; widgets := widgets p;
     activeCellIndex := activeCellIndex p; notebookId := notebookId p;
     pendingUpdates := pendingUpdates p; updatedCells := l |}.

(** [setPendingUpdates(panel, updates)] *)
Definition setPendingUpdates (updates : list IPendingUpdate.t)
    (p : NotebookPanel) : NotebookPanel :=
  setMetadataComp_pendingUpdates updates p.

(** What the module takes from elsewhere: [getOrigCellMapping] of
    [utils/utils.ts], which is not among the sources at hand and whose result
    the code uses as the array of the cells' original ids in document order,
    and the two renderings of the current time, [toLocaleString()] and
    [toISOString()], as functions of the clock. *)
Class Host : Type := {
  getOrigCellMapping : NotebookPanel → list jsstring;
  toLocaleString : N → jsstring;
  toISOString : N → jsstring
}.

(** Everything the code acts on: the panel, the interaction records posted so
    far, and the clock read by [new Date()]. *)
Record World : Type := mkWorld {
  panel : NotebookPanel;
  log : list Interaction.t;
  now : N
}.

(** *** Computations that change the world and may throw

    [None] as a result is a thrown exception; the changes made before it
    remain. *)
Definition M (A : Type) : Type := World → World * option A.

Definition ret {A} (a : A) : M A := λ w, (w, Some a).

Definition bind {A B} (c : M A) (k : A → M B) : M B :=
  λ w, match c w with
       | (w', Some a) => k a w'
       | (w', None) => (w', None)
       end.

(** [try { c } catch (e) { console.error(...) }] *)
Definition try_catch (c : M unit) : M unit :=
  λ w, match c w with
       | (w', Some _) => (w', Some tt)
       | (w', None) => (w', Some tt)
       end.

Notation "'do' x <- c ; k" := (bind c (λ x, k))
  (at level 10, x name, c at level 100, k at level 200).
Notation "'run' c ; k" := (bind c (λ _, k))
  (at level 10, c at level 100, k at level 200).

Definition gets {A} (f : World → A) : M A := λ w, (w, Some (f w)).

Definition onPanel (f : NotebookPanel → NotebookPanel) : M unit :=
  λ w, ({| panel := f (panel w); log := log w; now := now w |}, Some tt).

(** A value that is [undefined] where the code goes on to read a property of
    it: the read throws. *)
Definition defined {A} (v : option A) : M A := λ w, (w, v).

(** [for (const x of l) { body }] *)
Fixpoint forOf {A} (l : list A) (body : A → M unit) : M unit :=
  match l with
  | [] => ret tt
  | x :: r => run body x ; forOf r body
  end.

(** The world after a computation. *)
Definition exec {A} (c : M A) (w : World) : World := fst (c w).

Section Sync.

Context {who : Identity} {env : Host}.

(** [getPendingUpdates(panel)] *)
Definition getPendingUpdates (p : NotebookPanel) : list IPendingUpdate.t :=
  if isDisposed p then [] else pendingUpdates p.

(** [getUpdatedCells(panel)] *)
Definition getUpdatedCells (p : NotebookPanel) : list jsstring :=
  if isDisposed p then [] else updatedCells p.

(** [markCellAsUpdated(panel, cellId)] *)
Definition markCellAsUpdated (cellId : jsstring) (p : NotebookPanel) : NotebookPanel :=
  let updatedCells := getUpdatedCells p in
  if includes updatedCells cellId then p
  else setUpdatedCells (updatedCells ++ [cellId]) p.

(** [logPendingUpdateInteraction(panel, action, cellId, sender, senderType,
    updateId)] *)
Definition logPendingUpdateInteraction (action : Action)
    (cellId sender : option jsstring) (senderType : option SenderType)
    (updateId : option jsstring) : M unit :=
  λ w,
    if truthy PERSISTENT_USER_ID then
      match notebookId (panel w) with
      | Some (c :: n) =>
          ({| panel := panel w;
              log := log w ++
                [Interaction.mk (c :: n) cellId updateId action sender
                   senderType (toISOString (now w))];
              now := now w |}, Some tt)
      | _ => (w, Some tt)
      end
    else (w, Some tt).

(** [removePendingUpdate(panel, cellId, logInteraction, sender, senderType,
    updateId)] *)
Definition removePendingUpdate (cellId : jsstring) (logInteraction : bool)
    (sender : option jsstring) (senderType : option SenderType)
    (updateId : option jsstring) : M unit :=
  do p <- gets panel ;
  if isDisposed p then ret tt
  else
    let updates := getPendingUpdates p in
    let updateToRemove :=
      List.find (λ u, bool_decide (IPendingUpdate.id u = cellId)) updates in
    run match logInteraction, updateToRemove with
        | true, Some u =>
            logPendingUpdateInteraction REMOVE_SINGLE (Some cellId)
              (Some (or_default sender (IPendingUpdate.sender u)))
              (Some (default (IPendingUpdate.senderType u) senderType))
              (or_else updateId (IPendingUpdate.updateId u))
        | _, _ => ret tt
        end ;
    let filteredUpdates := filter (λ u, IPendingUpdate.id u ≠ cellId) updates in
    onPanel (setPendingUpdates filteredUpdates).

(** *** The notebook operations of the host editor *)

(** [notebook.widgets[i]], about to be dereferenced. *)
Definition widgetAt (i : nat) : M Cell.t :=
  do p <- gets panel ; defined (widgets p !! i).

(** [notebook.activeCellIndex = i]. On a disposed notebook the assignment
    throws: the setter of the host editor hands the active cell over to the
    layout of the notebook, and a disposed notebook has none. On a live
    notebook the code assigns the index of a cell it has just read or
    inserted, so that the setter, which keeps the index within the cells of
    the notebook, stores it as it is. *)
Definition setActiveCellIndex (i : nat) : M unit :=
  do p <- gets panel ;
  if isDisposed p then defined None else onPanel (set_activeCellIndex i).

(** [notebook.widgets[i].model.sharedModel.getSource()] *)
Definition getSource (i : nat) : M jsstring :=
  do c <- widgetAt i ; ret (Cell.source c).

(** [notebook.widgets[i].model.sharedModel.setSource(s)] *)
Definition setSource (i : nat) (s : jsstring) : M unit :=
  do c <- widgetAt i ;
  onPanel (set_widgets (λ ws, <[i := Cell.mk (Cell.cell_type c) s]> ws)).

(** [NotebookActions.insertAbove(notebook)]: a new empty cell of the default
    type takes the place of the active cell, which moves down with all the
    cells after it; the new cell is the active one. Nothing happens when the
    notebook has no model. *)
Definition insertAbove : M unit :=
  onPanel (λ p,
    if isDisposed p then p
    else set_widgets (λ ws,
           take (activeCellIndex p) ws ++ Cell.mk (lit "code") [] ::
           drop (activeCellIndex p) ws) p).

(** [NotebookActions.changeCellType(notebook, cellType)], on the active
    cell. *)
Definition changeCellType (cellType : jsstring) : M unit :=
  onPanel (λ p,
    if isDisposed p then p
    else set_widgets
           (alter (λ c, Cell.mk cellType (Cell.source c)) (activeCellIndex p)) p).

(** The type of the cell the host editor makes of an object given to
    [addCell]: a markdown cell or a code cell when the [cell_type] of the
    object says so, a raw cell for any other [cell_type] and for none. *)
Definition addedCellType (cell_type : option jsstring) : jsstring :=
  match cell_type with
  | Some t =>
      if decide (t = lit "markdown") then lit "markdown"
      else if decide (t = lit "code") then lit "code"
      else lit "raw"
  | None => lit "raw"
  end.

(** [notebook.model?.sharedModel.addCell(cell)], where [cell] is the object
    of a cell update: a cell of the type above, with the [source] of the
    object, is added at the end of the document. Nothing happens when the
    notebook has no model. *)
Definition addCell (cell : ICellUpdate.t) : M unit :=
  onPanel (λ p,
    if isDisposed p then p
    else set_widgets (λ ws,
           ws ++ [Cell.mk (addedCellType (ICellUpdate.cell_type cell))
                    (ICellUpdate.source cell)]) p).

(** The content an update puts in a cell: a line saying when it was
    received, an empty line, and the source of the update. *)
Definition cellUpdateSource (cellType timeReceived source : jsstring) : jsstring :=
  if decide (cellType = lit "markdown") then
    lit "CELL RECEIVED AT " ++ timeReceived ++ [LF; LF] ++ source
  else
    lit "# CELL RECEIVED AT " ++ timeReceived ++ [LF; LF] ++ source.

(** [yourCodePrefix]: the same text for both cell types. *)
Definition yourCodePrefix (cellType : jsstring) : jsstring :=
  if decide (cellType = lit "markdown") then lit "# YOUR CODE" ++ [LF; LF]
  else lit "# YOUR CODE" ++ [LF; LF].

(** [origCellMapping.lastIndexOf(cellUpdate.id)]: an [id] that is
    [undefined] is found nowhere. *)
Definition findCell (origCellMapping : list jsstring)
    (cellUpdate : ICellUpdate.t) : option (jsstring * nat) :=
  match ICellUpdate.id cellUpdate with
  | Some id =>
      match lastIndexOf origCellMapping id with
      | Some cellIndex => Some (id, cellIndex)
      | None => None
      end
  | None => None
  end.

(** The body of the loop of [updateNotebookContent] over the cell updates.
    [origCellMapping], [timeReceived] and [updatedCells] are read once,
    before the loop, and are values: what the loop does to the notebook does
    not change them. The command mode and the scrolling that end a round act
    on the view only and are left out. *)
Definition applyCellUpdate (origCellMapping : list jsstring)
    (timeReceived : jsstring) (updatedCells : list jsstring)
    (cellUpdate : ICellUpdate.t) : M unit :=
  let cellType := or_default (ICellUpdate.cell_type cellUpdate) (lit "code") in
  let cellUpdateSource :=
    cellUpdateSource cellType timeReceived (ICellUpdate.source cellUpdate) in
  match findCell origCellMapping cellUpdate with
  | None =>
      (* not found: [cellUpdate.source = cellUpdateSource], and the object
         itself, with its own [cell_type], is given to [addCell]; nothing
         reads the [source] of the object again *)
      addCell (ICellUpdate.mk (ICellUpdate.id cellUpdate)
                 (ICellUpdate.cell_id cellUpdate)
                 (ICellUpdate.cell_type cellUpdate) cellUpdateSource)
  | Some (id, cellIndex) =>
      let isFirstUpdate := negb (includes updatedCells id) in
      if isFirstUpdate then
        do existingSource <- getSource cellIndex ;
        run setActiveCellIndex cellIndex ;
        run insertAbove ;
        run (if decide (cellType = lit "markdown")
             then changeCellType cellType else ret tt) ;
        run setSource cellIndex (yourCodePrefix cellType ++ existingSource) ;
        run setSource (cellIndex + 1) cellUpdateSource ;
        run onPanel (markCellAsUpdated id) ;
        setActiveCellIndex (cellIndex + 1)
      else
        run setSource cellIndex cellUpdateSource ;
        setActiveCellIndex cellIndex
  end.

(** The [try] block of [updateNotebookContent]. *)
Definition updateNotebookContent_try (newContent : Content.t)
    (updateId cellId sender : option jsstring)
    (senderType : option SenderType) (skipLogging : bool) : M unit :=
  do cellUpdates <- defined (Content.cells newContent) ;
  do origCellMapping <- gets (λ w, getOrigCellMapping (panel w)) ;
  do timeReceived <- gets (λ w, toLocaleString (now w)) ;
  do updatedCells <- gets (λ w, getUpdatedCells (panel w)) ;
  run forOf cellUpdates (λ cellUpdate,
        do cellUpdate <- defined cellUpdate ;
        applyCellUpdate origCellMapping timeReceived updatedCells cellUpdate) ;
  do notebookId <- gets (λ w, notebookId (panel w)) ;
  if negb skipLogging && truthy updateId && truthy PERSISTENT_USER_ID
     && truthy notebookId
  then
    forOf cellUpdates (λ cellUpdate,
      do cellUpdate <- defined cellUpdate ;
      let cellUpdateId :=
        or_else (ICellUpdate.id cellUpdate) (ICellUpdate.cell_id cellUpdate) in
      logPendingUpdateInteraction APPLY_SINGLE (or_else cellId cellUpdateId)
        sender senderType updateId)
  else ret tt.

(** [updateNotebookContent(notebookPanel, newContent, updateId, cellId,
    sender, senderType, skipLogging)]: whatever the block throws is caught
    and reported on the console. *)
Definition updateNotebookContent (newContent : Content.t)
    (updateId cellId sender : option jsstring)
    (senderType : option SenderType) (skipLogging : bool) : M unit :=
  try_catch (updateNotebookContent_try newContent updateId cellId sender
               senderType skipLogging).

(** The [updateId] and [cellId] that [applyPendingUpdate] passes on: those of
    the pending update, completed from its message. When the first entry of
    [cells] is undefined, reading its id throws; the exception is caught and
    the [cellId] stays the one of the pending update. *)
Definition pendingUpdateId (pending : IPendingUpdate.t) : option jsstring :=
  or_else (IPendingUpdate.updateId pending)
    (or_else (Content.update_id (IPendingUpdate.message pending)) None).

Definition pendingCellId (pending : IPendingUpdate.t) : option jsstring :=
  let parsed := IPendingUpdate.message pending in
  if truthy (IPendingUpdate.cellId pending) then IPendingUpdate.cellId pending
  else if truthy (Content.id parsed) then Content.id parsed
  else if truthy (Content.cell_id parsed) then Content.cell_id parsed
  else match Content.cells parsed with
       | Some (Some c :: _) =>
           or_else (ICellUpdate.id c) (ICellUpdate.cell_id c)
       | _ => IPendingUpdate.cellId pending
       end.

(** [applyPendingUpdate(panel, pending, skipLogging)] *)
Definition applyPendingUpdate (pending : IPendingUpdate.t)
    (skipLogging : bool) : M unit :=
  try_catch (
    run updateNotebookContent (IPendingUpdate.message pending)
          (pendingUpdateId pending) (pendingCellId pending)
          (Some (IPendingUpdate.sender pending))
          (Some (IPendingUpdate.senderType pending)) skipLogging ;
    (* remove it afterwards *)
    removePendingUpdate (IPendingUpdate.id pending) false None None None).

(** *** [showUpdateNotification]: the handler of the "Update Later" button

    [cellId] and [finalUpdateId] are the variables of the enclosing function
    that the handler closes over. *)
Definition newUpdate (now : N) (newContent : Content.t) (sender : jsstring)
    (senderType : SenderType) (cellId : option jsstring)
    (finalUpdateId : jsstring) : IPendingUpdate.t :=
  {| IPendingUpdate.id := or_default cellId finalUpdateId;
     IPendingUpdate.message := newContent;
     IPendingUpdate.timeReceived := toISOString now;
     IPendingUpdate.sender := sender;
     IPendingUpdate.senderType := senderType;
     IPendingUpdate.updateId := Some finalUpdateId;
     IPendingUpdate.cellId := cellId |}.

Definition laterButton_click (newContent : Content.t) (sender : jsstring)
    (senderType : SenderType) (cellId : option jsstring)
    (finalUpdateId : jsstring) : M unit :=
  do updates <- gets (λ w, getPendingUpdates (panel w)) ;
  do newUpdate <-
    gets (λ w, newUpdate (now w) newContent sender senderType cellId
                 finalUpdateId) ;
  (* filter out an existing update with the same id, then add the new one *)
  let filteredUpdates :=
    filter (λ u, IPendingUpdate.id u ≠ IPendingUpdate.id newUpdate) updates in
  run onPanel (setPendingUpdates (filteredUpdates ++ [newUpdate])) ;
  logPendingUpdateInteraction UPDATE_LATER cellId (Some sender)
    (Some senderType) (Some finalUpdateId).

(** *** [PendingUpdatesSidebar] *)

(** The filter modes ['all' | 'teacher' | 'teammates' | 'selected'];
    ['teacher'] is [teacher_only] here. *)
Inductive FilterMode : Type := all | teacher_only | teammates | selected.

(** The fields of the sidebar that its handlers read. [_currentPanel] is
    [true] when the sidebar is bound to the panel, [false] when it is
    [null]. *)
Record Sidebar : Type := mkSidebar {
  _currentPanel : bool;
  _filterMode : FilterMode;
  _selectedTeammateFilters : gset jsstring
}.

(** [getFilteredUpdates()] *)
Definition getFilteredUpdates (sb : Sidebar) (p : NotebookPanel) :
    list IPendingUpdate.t :=
  if negb (_currentPanel sb) || isDisposed p then []
  else
    let updates := getPendingUpdates p in
    match _filterMode sb with
    | teacher_only =>
        filter (λ u, IPendingUpdate.senderType u = teacher) updates
    | teammates =>
        filter (λ u, IPendingUpdate.senderType u = teammate) updates
    | selected =>
        filter (λ u, IPendingUpdate.senderType u = teammate
                     ∧ IPendingUpdate.sender u ∈ _selectedTeammateFilters sb)
          updates
    | all => updates
    end.

(** [applyAllBtn.onclick] *)
Definition applyAllBtn_onclick (sb : Sidebar) : M unit :=
  do p <- gets panel ;
  if negb (_currentPanel sb) || isDisposed p then ret tt
  else
    match getFilteredUpdates sb p with
    | [] => ret tt
    | first :: rest =>
        let updates := first :: rest in
        (* log only the UPDATE_ALL action, with the first update's id *)
        run (if truthy (IPendingUpdate.updateId first) then
               logPendingUpdateInteraction UPDATE_ALL None
                 (Some (IPendingUpdate.sender first))
                 (Some (IPendingUpdate.senderType first))
                 (IPendingUpdate.updateId first)
             else ret tt) ;
        (* apply each update without logging APPLY_SINGLE *)
        forOf updates (λ u, applyPendingUpdate u true)
    end.

(** The numbers the comparator of the 'cell' sort computes with. *)
Inductive Num : Type := Finite (z : Z) | Infinity | NegInfinity | NaN.

(** [aPos === -1 ? Number.POSITIVE_INFINITY : aPos] *)
Definition cellRank (origMapping : list jsstring) (u : IPendingUpdate.t) : Num :=
  match lastIndexOf origMapping (IPendingUpdate.id u) with
  | Some pos => Finite (Z.of_nat pos)
  | None => Infinity
  end.

(** [a - b] on these numbers. *)
Definition sub (a b : Num) : Num :=
  match a, b with
  | NaN, _ | _, NaN => NaN
  | Finite x, Finite y => Finite (x - y)
  | Finite _, Infinity => NegInfinity
  | Finite _, NegInfinity => Infinity
  | Infinity, Infinity => NaN
  | Infinity, _ => Infinity
  | NegInfinity, NegInfinity => NaN
  | NegInfinity, _ => NegInfinity
  end.

(** The comparator given to [sort] for the key 'cell'. *)
Definition compareByCell (origMapping : list jsstring)
    (a b : IPendingUpdate.t) : Num :=
  sub (cellRank origMapping a) (cellRank origMapping b).

(** [Array.prototype.sort(comparefn)] as ECMAScript defines it: the sort is
    stable, [a] comes after [b] only when [comparefn(a, b) > 0], and a
    comparator result of [NaN] counts as [+0]. *)
Definition positive (v : Num) : bool :=
  match v with
  | Finite z => (0 <? z)%Z
  | Infinity => true
  | NegInfinity | NaN => false
  end.

Fixpoint insertSorted {A} (comparefn : A → A → Num) (a : A) (l : list A) : list A :=
  match l with
  | [] => [a]
  | b :: r =>
      if positive (comparefn a b) then b :: insertSorted comparefn a r
      else a :: b :: r
  end.

Definition sort {A} (comparefn : A → A → Num) (l : list A) : list A :=
  foldr (insertSorted comparefn) [] l.

(** The order in which [render] shows the updates when the sort key is
    'cell'. *)
Definition sortByCell (origMapping : list jsstring)
    (updates : list IPendingUpdate.t) : list IPendingUpdate.t :=
  sort (compareByCell origMapping) updates.

(** [_boundCellsChanged], for a 'remove' change at [oldIndex]: the id of the
    cell that was below the removed one leaves the updated cells. *)
Definition cellsRemoved (sb : Sidebar) (oldIndex : nat)
    (p : NotebookPanel) : NotebookPanel :=
  if negb (_currentPanel sb) || isDisposed p then p
  else
    match getOrigCellMapping p !! oldIndex with
    | Some (c :: b) =>
        let belowId := c :: b in
        let updated := getUpdatedCells p in
        if includes updated belowId then
          setUpdatedCells (filter (λ id, id ≠ belowId) updated) p
        else p
    | _ => p
    end.

End Sync.

End NotebookSync.

(** ** Calls on the manager, for statements about sequences of calls *)

Module Channel.
Import WebsocketManager.

Section Calls.

Context {Callback : Type} {who : Identity}.

(** A call the owner of the manager can make on it. *)
Inductive Call : Type :=
  | Establish (notebookId : option jsstring) (onMessage : Callback)
  | Close.

Definition perform (st : State Callback) (c : Call) : State Callback :=
  match c with
  | Establish notebookId onMessage =>
      establishSocketConnection notebookId onMessage st
  | Close => closeSocketConnection st
  end.

(** The manager after a sequence of calls, from its construction. *)
Definition after (calls : list Call) : State Callback :=
  foldl perform new calls.

(** Every socket that is not closed is the one held in [_socket]. *)
Definition held_only (st : State Callback) : Prop :=
  ∀ h s, sockets st !! h = Some s → closed s = false → _socket st = Some h.

End Calls.

Arguments Call : clear implicits.

End Channel.

(** ** Notions used to state properties of notebookSync.ts *)

Module SyncSpec.
Import NotebookSync.

Section Spec.

Context {who : Identity} {env : Host}.

(** The records a call of [logPendingUpdateInteraction] posts in a world:
    one, or none when the user id or the notebook id is missing. *)
Definition posted (action : Action) (cellId sender : option jsstring)
    (senderType : option SenderType) (updateId : option jsstring)
    (w : World) : list Interaction.t :=
  if truthy PERSISTENT_USER_ID && truthy (notebookId (panel w)) then
    [Interaction.mk (default [] (notebookId (panel w))) cellId updateId
       action sender senderType (toISOString (now w))]
  else [].

(** The ids of the pending updates of a store. *)
Definition ids (updates : list IPendingUpdate.t) : list jsstring :=
  IPendingUpdate.id <$> updates.

(** A click on "Update Later": the values its handler closes over. *)
Record Deferral : Type := mkDeferral {
  deferredContent : Content.t;
  deferredSender : jsstring;
  deferredSenderType : SenderType;
  deferredCellId : option jsstring;
  deferredUpdateId : jsstring
}.

(** The world after the click. *)
Definition defer (w : World) (d : Deferral) : World :=
  exec (laterButton_click (deferredContent d) (deferredSender d)
          (deferredSenderType d) (deferredCellId d) (deferredUpdateId d)) w.

(** The records of a log with a given action. *)
Definition withAction (a : Action) (l : list Interaction.t) : list Interaction.t :=
  filter (λ r, Interaction.action r = a) l.

(** The position of the cell an update is for: the last position of its id
    in the mapping, if any. *)
Definition position (origMapping : list jsstring) (u : IPendingUpdate.t) :
    option nat :=
  lastIndexOf origMapping (IPendingUpdate.id u).

(** Ascending positions, with no position after every position. *)
Definition byPosition (origMapping : list jsstring)
    (a b : IPendingUpdate.t) : Prop :=
  match position origMapping a, position origMapping b with
  | Some i, Some j => i ≤ j
  | _, None => True
  | None, Some _ => False
  end.

(** The update is for the cell at position [k] ([None]: for no cell). *)
Definition atPosition (origMapping : list jsstring) (k : option nat)
    (u : IPendingUpdate.t) : Prop :=
  position origMapping u = k.

#[global] Instance atPosition_dec origMapping k u :
  Decision (atPosition origMapping k u).
Proof. unfold atPosition. apply _. Defined.

(** The id of the update is in the mapping. *)
Definition mapped (origMapping : list jsstring) (u : IPendingUpdate.t) : Prop :=
  IPendingUpdate.id u ∈ origMapping.

#[global] Instance mapped_dec origMapping u : Decision (mapped origMapping u).
Proof. unfold mapped. apply _. Defined.

(** The loop of [updateNotebookContent] over the cell updates of a
    payload, started in the world [w]: the mapping, the time and the updated
    cells are the ones read in [w], before the first round. *)
Definition loop (w : World) (cellUpdates : list (option ICellUpdate.t)) :
    M unit :=
  forOf cellUpdates (λ cellUpdate,
    do cellUpdate <- defined cellUpdate ;
    applyCellUpdate (getOrigCellMapping (panel w)) (toLocaleString (now w))
      (getUpdatedCells (panel w)) cellUpdate).

(** The loop started in [w] has done the rounds of the cell updates
    [before], none of which has thrown, and the world is now [w1]: the turn
    of the next cell update of the payload has come. With no cell update
    before, [w1] is [w]. *)
Definition turn (w : World) (before : list (option ICellUpdate.t))
    (w1 : World) : Prop :=
  loop w before w = (w1, Some tt).

(** The text an update is to leave in a cell: the line of the reception,
    [CELL RECEIVED AT] and the time, written as a comment unless the update
    is for a markdown cell; an empty line; the source of the update. *)
Definition stamped (timeReceived : jsstring) (cu : ICellUpdate.t) : jsstring :=
  (if decide (ICellUpdate.cell_type cu = Some (lit "markdown"))
   then lit "CELL RECEIVED AT " else lit "# CELL RECEIVED AT ")
  ++ timeReceived ++ [LF; LF] ++ ICellUpdate.source cu.

(** The cell to be found at the end of the notebook for a cell update that
    has no cell there: a markdown cell or a code cell when the update says
    so, a raw cell otherwise, with the text above. *)
Definition appended (timeReceived : jsstring) (cu : ICellUpdate.t) : Cell.t :=
  Cell.mk
    (if decide (ICellUpdate.cell_type cu = Some (lit "markdown"))
     then lit "markdown"
     else if decide (ICellUpdate.cell_type cu = Some (lit "code"))
     then lit "code" else lit "raw")
    (stamped timeReceived cu).

(** The cell to be found above the target of a first update: a markdown
    cell when the update is for one, a code cell otherwise, with the content
    the target had under the line [# YOUR CODE] and an empty line. *)
Definition kept (cu : ICellUpdate.t) (old : Cell.t) : Cell.t :=
  Cell.mk
    (if decide (ICellUpdate.cell_type cu = Some (lit "markdown"))
     then lit "markdown" else lit "code")
    (lit "# YOUR CODE" ++ [LF; LF] ++ Cell.source old).

(** The target after an update: its type is the one it had, its content
    the text of the update. *)
Definition overwritten (timeReceived : jsstring) (cu : ICellUpdate.t)
    (old : Cell.t) : Cell.t :=
  Cell.mk (Cell.cell_type old) (stamped timeReceived cu).


(** What the merge has no business changing: whether the panel is disposed,
    the notebook id and the pending updates. *)
Definition around (w : World) : bool * option jsstring * list IPendingUpdate.t :=
  (isDisposed (panel w), notebookId (panel w), pendingUpdates (panel w)).

(** A computation that leaves a component of the world as it is. *)
Definition keeps {A B} (f : World → B) (c : M A) : Prop :=
  ∀ w, f (exec c w) = f w.

End Spec.

End SyncSpec.

(** ** Concrete notebooks and messages *)

Module Examples.
Import WebsocketManager NotebookSync.

(** A user whose persistent id is set. *)
Definition user : Identity := {| PERSISTENT_USER_ID := Some (lit "u-42") |}.

(** A host whose mapping utility returns [mapping] for the panel at hand. *)
Definition host (mapping : list jsstring) : Host :=
  {| getOrigCellMapping := λ _, mapping;
     toLocaleString := λ _, lit "11/2/2026, 10:00:00 AM";
     toISOString := λ _, lit "2026-11-02T10:00:00.000Z" |}.

Definition o1 : jsstring := lit "o1".

Definition code (source : string) : Cell.t := Cell.mk (lit "code") (lit source).

(** The push [{action: "update_cell", content: {id: "o1", cell_type: "code",
    source: "print(2)"}}], as [handleSyncMessage] hands it on. *)
Definition push : ICellUpdate.t :=
  {| ICellUpdate.id := Some o1; ICellUpdate.cell_id := None;
     ICellUpdate.cell_type := Some (lit "code");
     ICellUpdate.source := lit "print(2)" |}.

Definition payload : Content.t :=
  {| Content.update_id := None; Content.id := None; Content.cell_id := None;
     Content.cells := Some [Some push] |}.

(** An "update_notebook" push with an update for [o1] and one for [o2]. *)
Definition o2 : jsstring := lit "o2".

Definition forFirst : ICellUpdate.t :=
  ICellUpdate.mk (Some o1) None (Some (lit "code")) (lit "a = 10").

Definition forSecond : ICellUpdate.t :=
  ICellUpdate.mk (Some o2) None (Some (lit "code")) (lit "b = 20").

Definition wholeNotebook : Content.t :=
  {| Content.update_id := None; Content.id := None; Content.cell_id := None;
     Content.cells := Some [Some forFirst; Some forSecond] |}.

(** A host whose mapping follows the cells of a notebook that ends with the
    cell of original id [o2], under cells of original id [o1]: the first
    cell of the notebook of two cells below, and the cells that the merge
    puts above it. *)
Definition following : Host :=
  {| getOrigCellMapping :=
       λ p, replicate (length (widgets p) - 1) o1 ++ [o2];
     toLocaleString := λ _, lit "11/2/2026, 10:00:00 AM";
     toISOString := λ _, lit "2026-11-02T10:00:00.000Z" |}.

(** A payload without a [cells] array: the content [{}] of an
    "update_notebook" push. *)
Definition emptyPayload : Content.t :=
  {| Content.update_id := None; Content.id := None; Content.cell_id := None;
     Content.cells := None |}.

Definition pendingFor (id : string) (message : Content.t)
    (updateId : option jsstring) : IPendingUpdate.t :=
  {| IPendingUpdate.id := lit id; IPendingUpdate.message := message;
     IPendingUpdate.timeReceived := lit "2026-11-02T09:00:00.000Z";
     IPendingUpdate.sender := lit "teacher";
     IPendingUpdate.senderType := teacher;
     IPendingUpdate.updateId := updateId;
     IPendingUpdate.cellId := None |}.

(** A live notebook with the given cells, notebook id and store, and no cell
    updated yet. *)
Definition notebook (cells : list Cell.t) (notebookId : option jsstring)
    (store : list IPendingUpdate.t) : World :=
  {| panel :=
       {| isDisposed := false; widgets := cells; activeCellIndex := 0;
          notebookId := notebookId; pendingUpdates := store;
          updatedCells := [] |};
     log := []; now := 0%N |}.

(** The same notebook once it is disposed. *)
Definition disposed (w : World) : World :=
  {| panel :=
       {| isDisposed := true; widgets := widgets (panel w);
          activeCellIndex := activeCellIndex (panel w);
          notebookId := notebookId (panel w);
          pendingUpdates := pendingUpdates (panel w);
          updatedCells := updatedCells (panel w) |};
     log := log w; now := now w |}.

(** The same notebook after [o1] has received an update. *)
Definition updated (w : World) : World :=
  {| panel := setUpdatedCells [o1] (panel w); log := log w; now := now w |}.

(** One code cell, and two code cells. *)
Definition oneCell : World :=
  notebook [code "print(1)"] (Some (lit "nb-1")) [].

Definition twoCells : World :=
  notebook [code "a = 1"; code "b = 2"] (Some (lit "nb-1")) [].

(** The content of a code cell kept above an update, and of a code cell
    that has received an update. *)
Definition yours (source : string) : Cell.t :=
  Cell.mk (lit "code") (lit "# YOUR CODE" ++ [LF; LF] ++ lit source).

Definition received (source : string) : Cell.t :=
  Cell.mk (lit "code")
    (lit "# CELL RECEIVED AT 11/2/2026, 10:00:00 AM" ++ [LF; LF] ++ lit source).

Definition allUpdates : Sidebar :=
  {| _currentPanel := true; _filterMode := all;
     _selectedTeammateFilters := ∅ |}.

(** A manager with the callback [0] registered and no socket. *)
Definition listening : State nat :=
  {| sockets := []; _socket := None; _messageCallback := Some 0 |}.

End Examples.

(** ** Numbers in template strings *)

Module JsNumber.

(** The decimal digits of a natural number, as [`${n}`] prints it. *)
Definition digit (d : nat) : N := (48 + N.of_nat d)%N.

Fixpoint decimalDigits (fuel n : nat) (acc : jsstring) : jsstring :=
  match fuel with
  | 0 => acc
  | S fuel' =>
      let acc' := digit (n mod 10) :: acc in
      if n / 10 =? 0 then acc' else decimalDigits fuel' (n / 10) acc'
  end.

Definition decimal (n : nat) : jsstring := decimalDigits (S n) n [].

End JsNumber.

(** ** WebsocketManager.ts: what the manager sends *)

Module WebsocketSend.
Import WebsocketManager.

(** An event given to [emit] on a socket. *)
Inductive Emission : Type :=
  | group_message (userId message : jsstring)
  | update_location (cellId : jsstring) (cellIndex : option nat).

Section Send.

Context {Callback : Type}.

(** [sendMessageToTeammates(userId, message)]: the socket that emits, by its
    position among the sockets created, and the event; nothing without a
    socket. *)
Definition sendMessageToTeammates (userId message : jsstring)
    (st : State Callback) : option (nat * Emission) :=
  match _socket st with
  | Some h => Some (h, group_message userId message)
  | None => None
  end.

(** [sendLocationUpdate(cellId, cellIndex)] *)
Definition sendLocationUpdate (cellId : jsstring) (cellIndex : option nat)
    (st : State Callback) : option (nat * Emission) :=
  match _socket st with
  | Some h => Some (h, update_location cellId cellIndex)
  | None => None
  end.

(** The socket in [_socket] exists and has not been closed. *)
Definition holds_open (st : State Callback) : Prop :=
  ∀ h, _socket st = Some h →
       ∃ s, sockets st !! h = Some s ∧ closed s = false.

End Send.

End WebsocketSend.

(** ** The [Map] of JavaScript, with keys compared by value *)

Module JsMap.

Section Map.

Context {K V : Type} `{EqDecision K}.

(** The entries in insertion order. *)
Definition t : Type := list (K * V).

(** [m.set(k, v)]: a key already there keeps its place and takes the new
    value, a new key goes to the end. *)
Fixpoint set (k : K) (v : V) (m : list (K * V)) : list (K * V) :=
  match m with
  | [] => [(k, v)]
  | (k', v') :: r =>
      if decide (k' = k) then (k, v) :: r else (k', v') :: set k v r
  end.

(** [m.delete(k)] *)
Fixpoint delete (k : K) (m : list (K * V)) : list (K * V) :=
  match m with
  | [] => []
  | (k', v') :: r => if decide (k' = k) then r else (k', v') :: delete k r
  end.

(** [m.get(k)] *)
Fixpoint get (k : K) (m : list (K * V)) : option V :=
  match m with
  | [] => None
  | (k', v') :: r => if decide (k' = k) then Some v' else get k r
  end.

(** The keys in the order of [m.forEach] and [m.entries()]. *)
Definition keys (m : list (K * V)) : list K := fst <$> m.

End Map.

End JsMap.

(** ** teammateLocationTracker.ts *)

Module LocationTracker.
Import JsNumber.

(** [interface ITeammateLocation] *)
Module ITeammateLocation.
Record t : Type := mk {
  userId : jsstring;
  cellId : jsstring;
  cellIndex : option nat
}.
End ITeammateLocation.

(** The [type] of a heading. *)
Inductive HeadingType : Type := header | markdown | code.

(** [interface IHeading] *)
Module IHeading.
Record t : Type := mk {
  text : jsstring;
  level : nat;
  cellId : jsstring;
  origCellId : jsstring;
  cellIndex : nat;
  type : HeadingType
}.
End IHeading.

(** A cell of [notebook.widgets] as [_generateHeadings] reads it: the id, the
    type and the source of its model. *)
Module CellModel.
Record t : Type := mk {
  id : jsstring;
  type : jsstring;
  source : jsstring
}.
End CellModel.

(** The fields of [TeammateLocationSidebar] that its methods read and write;
    [_notebookPanel] is [true] when a panel is set. *)
Record Tracker : Type := mkTracker {
  _notebookPanel : bool;
  _teammateLocations : list (jsstring * ITeammateLocation.t);
  _connectedTeammates : list jsstring;
  _headings : list IHeading.t
}.

(** [updateTeammateLocation(location)] *)
Definition updateTeammateLocation (location : ITeammateLocation.t)
    (tr : Tracker) : Tracker :=
  {| _notebookPanel := _notebookPanel tr;
     _teammateLocations :=
       JsMap.set (ITeammateLocation.userId location) location
         (_teammateLocations tr);
     _connectedTeammates :=
       if includes (_connectedTeammates tr) (ITeammateLocation.userId location)
       then _connectedTeammates tr
       else _connectedTeammates tr ++ [ITeammateLocation.userId location];
     _headings := _headings tr |}.

(** [removeTeammateLocation(userId)] *)
Definition removeTeammateLocation (userId : jsstring) (tr : Tracker) : Tracker :=
  {| _notebookPanel := _notebookPanel tr;
     _teammateLocations := JsMap.delete userId (_teammateLocations tr);
     _connectedTeammates := filter (λ id, id ≠ userId) (_connectedTeammates tr);
     _headings := _headings tr |}.

(** What [_fetchInitialLocations] does with the array the fetch returned:
    the map is cleared and filled again. *)
Definition storeLocations (locations : list ITeammateLocation.t)
    (tr : Tracker) : Tracker :=
  {| _notebookPanel := _notebookPanel tr;
     _teammateLocations :=
       foldl (λ m loc, JsMap.set (ITeammateLocation.userId loc) loc m) []
         locations;
     _connectedTeammates := _connectedTeammates tr;
     _headings := _headings tr |}.

(** [_getTeammatesAtCell(heading)]; [None] when the heading has no heading of
    the same original id in [_headings], so that [lastHeading] is undefined
    and reading its [cellId] throws. *)
Definition _getTeammatesAtCell (tr : Tracker) (heading : IHeading.t) :
    option (list jsstring) :=
  let headingsWithSameOrigId :=
    filter (λ h, IHeading.origCellId h = IHeading.origCellId heading)
      (_headings tr) in
  match last headingsWithSameOrigId with
  | None => None
  | Some lastHeading =>
      if decide (IHeading.cellId heading ≠ IHeading.cellId lastHeading)
      then Some []
      else
        Some (fst <$>
                filter (λ e, ITeammateLocation.cellId e.2
                             = IHeading.origCellId heading)
                  (_teammateLocations tr))
  end.

(** A number as [ToInt32] reads it. *)
Definition toInt32 (z : Z) : Z := ((z + 2 ^ 31) mod 2 ^ 32 - 2 ^ 31)%Z.

(** [hash << 5] *)
Definition shl5 (hash : Z) : Z := toInt32 (toInt32 hash * 32).

(** The loop of [_getUserColor]: [hash = userId.charCodeAt(i) + ((hash << 5)
    - hash)] for each code unit in turn. *)
Definition hashStep (hash : Z) (c : N) : Z := (Z.of_N c + (shl5 hash - hash))%Z.

Definition userHash (userId : jsstring) : Z := foldl hashStep 0%Z userId.

(** [Math.abs(hash) % 360] *)
Definition userHue (userId : jsstring) : Z := (Z.abs (userHash userId) mod 360)%Z.

(** [_getUserColor(userId)] *)
Definition _getUserColor (userId : jsstring) : jsstring :=
  lit "hsl(" ++ decimal (Z.to_nat (userHue userId)) ++ lit ", 70%, 50%)".

(** *** The outline of the notebook *)

Definition isHash (c : N) : bool := (c =? 35)%N.

(** The characters [.] matches: all but the line terminators. *)
Definition isDot (c : N) : bool :=
  negb ((c =? 10) || (c =? 13) || (c =? 8232) || (c =? 8233))%N.

(** The greedy quantifier [{0,n}] over a character class, with
    backtracking. *)
Fixpoint reAtMost {A} (n : nat) (cls : N → bool) (s acc : jsstring)
    (k : jsstring → jsstring → option A) : option A :=
  match n, s with
  | S n', c :: s' =>
      if cls c then
        match reAtMost n' cls s' (acc ++ [c]) k with
        | Some r => Some r
        | None => k acc s
        end
      else k acc s
  | _, _ => k acc s
  end.

(** [line.match(/^(#{1,6})\s+(.+)/)]: the groups 1 and 2 of the match. *)
Definition matchHeader (line : jsstring) : option (jsstring * jsstring) :=
  match line with
  | c :: s =>
      if isHash c then
        reAtMost 5 isHash s [c] (λ hashes rest,
          WebsocketManager.rePlus isSpace rest [] (λ _ rest,
            WebsocketManager.rePlus isDot rest [] (λ text _,
              Some (hashes, text))))
      else None
  | [] => None
  end.

(** [source.split('\n')] *)
Fixpoint splitLines (s cur : jsstring) : list jsstring :=
  match s with
  | [] => [cur]
  | c :: r =>
      if (c =? 10)%N then cur :: splitLines r [] else splitLines r (cur ++ [c])
  end.

Definition split (source : jsstring) : list jsstring := splitLines source [].

(** The loop over the lines of a markdown cell: the level and the text of
    the first line that is a header. *)
Fixpoint firstHeader (lines : list jsstring) : option (nat * jsstring) :=
  match lines with
  | [] => None
  | line :: r =>
      match matchHeader line with
      | Some (hashes, text) => Some (length hashes, trim text)
      | None => firstHeader r
      end
  end.

(** [source.split('\n')[0]] *)
Definition firstLine (source : jsstring) : jsstring :=
  match split source with
  | line :: _ => line
  | [] => []
  end.

(** One round of the loop of [_generateHeadings], for the cell at index
    [i]. *)
Definition headingsOfCell (origCellMapping : list jsstring)
    (headings : list IHeading.t) (i : nat) (cell : CellModel.t) :
    list IHeading.t :=
  let cellId := CellModel.id cell in
  let origCellId :=
    match origCellMapping !! i with
    | Some (c :: r) => c :: r
    | _ => cellId
    end in
  let source := CellModel.source cell in
  if decide (CellModel.type cell = lit "markdown") then
    let headings :=
      match firstHeader (split source) with
      | Some (level, text) =>
          headings ++ [IHeading.mk text level cellId origCellId i header]
      | None => headings
      end in
    if negb (existsb (λ h, bool_decide (IHeading.cellId h = cellId)) headings)
       && (0 <? length (trim source))
    then
      headings ++
      [IHeading.mk
         (take 50 (firstLine source) ++
          (if 50 <? length source then lit "..." else []))
         7 cellId origCellId i markdown]
    else headings
  else if decide (CellModel.type cell = lit "code") then
    if 0 <? length (trim source) then
      headings ++
      [IHeading.mk
         (lit "[" ++ decimal (i + 1) ++ lit "] " ++ take 40 (firstLine source)
          ++ (if 40 <? length source then lit "..." else []))
         7 cellId origCellId i code]
    else headings
  else headings.

(** The loop over the cells, from index [i] on. *)
Fixpoint headingsFrom (origCellMapping : list jsstring) (i : nat)
    (cells : list CellModel.t) (headings : list IHeading.t) :
    list IHeading.t :=
  match cells with
  | [] => headings
  | cell :: r =>
      headingsFrom origCellMapping (S i) r
        (headingsOfCell origCellMapping headings i cell)
  end.

(** [_generateHeadings()], with the mapping [getOrigCellMapping] returns for
    the panel and the cells of [notebook.widgets]. *)
Definition _generateHeadings (origCellMapping : list jsstring)
    (cells : list CellModel.t) (tr : Tracker) : Tracker :=
  {| _notebookPanel := _notebookPanel tr;
     _teammateLocations := _teammateLocations tr;
     _connectedTeammates := _connectedTeammates tr;
     _headings :=
       if _notebookPanel tr then headingsFrom origCellMapping 0 cells []
       else [] |}.

End LocationTracker.

(** ** notebookSync.ts: the other handlers *)

Module SyncMore.
Import NotebookSync JsNumber.

(** [new Date(s).getTime()], the one thing the sort by time takes from the
    host: [None] is [NaN], the time of a string that is not a date. *)
Class Dates : Type := { getTime : jsstring → option Z }.

(** [JSON.parse] on the text of a sync message, as far as
    [handleSyncMessage] reads the result; [None] when it throws. The
    [content] of the message is an object or is missing ([undefined] or
    [null]); a content that is not an object is not represented. [cells] is
    [None] when the content has no [cells] array. *)
Module PushContent.
Record t : Type := mk {
  id : option jsstring;
  cell_id : option jsstring;
  update_id : option jsstring;
  cell_type : option jsstring;
  source : option jsstring;
  cells : option (list (option ICellUpdate.t))
}.
End PushContent.

Module Parsed.
Record t : Type := mk {
  action : option jsstring;
  content : option PushContent.t;
  update_id : option jsstring
}.
End Parsed.

Class Json : Type := { JSON_parse : jsstring → option Parsed.t }.

(** The arguments [handleSyncMessage] gives to [showUpdateNotification]. *)
Module Shown.
Record t : Type := mk {
  newContent : Content.t;
  action : jsstring;
  updateId : option jsstring;
  explicitCellId : option jsstring
}.
End Shown.

Section More.

Context {who : Identity} {env : Host} {dates : Dates} {json : Json}.

(** *** [handleSyncMessage] and [showUpdateNotification] *)

(** [message.slice(message.indexOf('{'))]; [None] when there is no brace. *)
Fixpoint fromBrace (message : jsstring) : option jsstring :=
  match message with
  | [] => None
  | c :: r => if (c =? 123)%N then Some message else fromBrace r
  end.

(** The cell id [handleSyncMessage] takes from the content, [Some None] when
    it finds none; [None] when the first entry of the [cells] of the content
    is undefined and reading its id throws. *)
Definition contentCellId (content : option PushContent.t) :
    option (option jsstring) :=
  match content with
  | Some content =>
      if truthy (PushContent.id content) then Some (PushContent.id content)
      else if truthy (PushContent.cell_id content)
      then Some (PushContent.cell_id content)
      else match PushContent.cells content with
           | Some (Some c :: _) =>
               Some (or_else (ICellUpdate.id c) (ICellUpdate.cell_id c))
           | Some (None :: _) => None
           | _ => Some None
           end
  | None => Some None
  end.

(** The content of an "update_cell" message as a cell update. A source that
    is undefined prints as [undefined] in the template of the merge. *)
Definition pushedCell (content : PushContent.t) : ICellUpdate.t :=
  ICellUpdate.mk (PushContent.id content) (PushContent.cell_id content)
    (PushContent.cell_type content)
    (default (lit "undefined") (PushContent.source content)).

(** [{ cells: [jsonParsed.content] }]: always an array of one entry, which
    is undefined when the message has no content. *)
Definition cellContent (content : option PushContent.t) : Content.t :=
  {| Content.update_id := None; Content.id := None; Content.cell_id := None;
     Content.cells := Some [pushedCell <$> content] |}.

(** [jsonParsed.content] as the payload of a whole notebook. Without content
    the payload is undefined and every read of a member of it throws, as the
    read of the [cells] of the object without members does that stands for
    it here. *)
Definition notebookContent (content : option PushContent.t) : Content.t :=
  match content with
  | Some content =>
      {| Content.update_id := PushContent.update_id content;
         Content.id := PushContent.id content;
         Content.cell_id := PushContent.cell_id content;
         Content.cells := PushContent.cells content |}
  | None =>
      {| Content.update_id := None; Content.id := None;
         Content.cell_id := None; Content.cells := None |}
  end.

(** [handleSyncMessage(notebookPanel, message, sender, senderType)]: the
    notification it asks for, if any. *)
Definition handleSyncMessage (message : jsstring) : option Shown.t :=
  match fromBrace message with
  | None => None
  | Some jsonStr =>
      match JSON_parse jsonStr with
      | None => None
      | Some jsonParsed =>
          let updateId := Parsed.update_id jsonParsed in
          match contentCellId (Parsed.content jsonParsed) with
          | None => None
          | Some cellId =>
              if decide (Parsed.action jsonParsed = Some (lit "update_cell"))
              then
                Some (Shown.mk (cellContent (Parsed.content jsonParsed))
                        (lit "update_cell") updateId cellId)
              else if decide (Parsed.action jsonParsed
                              = Some (lit "update_notebook")) then
                Some (Shown.mk (notebookContent (Parsed.content jsonParsed))
                        (lit "update_notebook") updateId cellId)
              else None
          end
      end
  end.

(** The [cellId] of [showUpdateNotification]: the explicit one, or else the
    id of the first cell of the content (which has no [content] member of
    its own). When that first cell is undefined, reading its id throws; the
    exception is caught and the [cellId] stays the explicit one. *)
Definition shownCellId (shown : Shown.t) : option jsstring :=
  if truthy (Shown.explicitCellId shown) then Shown.explicitCellId shown
  else match Content.cells (Shown.newContent shown) with
       | Some (Some c :: _) =>
           or_else (ICellUpdate.id c) (ICellUpdate.cell_id c)
       | _ => Shown.explicitCellId shown
       end.

(** [updateId || cellId || Math.random().toString(36).substring(2, 15)] *)
Definition shownUpdateId (random : jsstring) (shown : Shown.t) : jsstring :=
  or_default (Shown.updateId shown) (or_default (shownCellId shown) random).

(** A click on "Update Later" in the notification. *)
Definition later (random : jsstring) (sender : jsstring)
    (senderType : SenderType) (shown : Shown.t) : M unit :=
  laterButton_click (Shown.newContent shown) sender senderType
    (shownCellId shown) (shownUpdateId random shown).

(** The entries of an array, when none of them is undefined. *)
Fixpoint entries {A} (l : list (option A)) : option (list A) :=
  match l with
  | [] => Some []
  | Some x :: r => cons x <$> entries r
  | None :: _ => None
  end.

(** The ids the handler of "Update Now" collects from the applied content,
    for the removal of their pending updates; [None] when an entry of
    [cells] is undefined: reading its id throws, before any removal. *)
Definition collectCellIds (parsed : Content.t) : option (list jsstring) :=
  match Content.cells parsed with
  | Some (c :: r) =>
      match entries (c :: r) with
      | Some cells =>
          Some (omap (λ c, match or_else (ICellUpdate.id c)
                                   (ICellUpdate.cell_id c) with
                           | Some (x :: y) => Some (x :: y)
                           | _ => None
                           end) cells)
      | None => None
      end
  | _ =>
      Some match Content.id parsed with
           | Some (x :: y) => [x :: y]
           | _ => []
           end
  end.

(** The ids of the cells of an applied content whose pending updates are
    removed: the ids collected, none when collecting them throws. *)
Definition appliedCellIds (parsed : Content.t) : list jsstring :=
  default [] (collectCellIds parsed).

(** The handler of the "Update Now" button. *)
Definition updateButton_click (newContent : Content.t) (sender : jsstring)
    (senderType : SenderType) (cellId : option jsstring)
    (finalUpdateId : jsstring) : M unit :=
  run logPendingUpdateInteraction UPDATE_NOW cellId (Some sender)
        (Some senderType) (Some finalUpdateId) ;
  run updateNotebookContent newContent (Some finalUpdateId) cellId
        (Some sender) (Some senderType) false ;
  (* remove any pending update of the cells just applied *)
  try_catch (
    do cellIds <- defined (collectCellIds newContent) ;
    do p <- gets panel ;
    if (0 <? length cellIds) && negb (isDisposed p) then
      forOf cellIds (λ id,
        try_catch (removePendingUpdate id false None None None))
    else ret tt).

(** *** [PendingUpdatesSidebar] *)

(** [deleteAllBtn.onclick] *)
Definition deleteAllBtn_onclick (sb : Sidebar) : M unit :=
  do p <- gets panel ;
  if negb (_currentPanel sb) || isDisposed p then ret tt
  else
    match getFilteredUpdates sb p with
    | [] => ret tt
    | first :: rest =>
        let filteredUpdates := first :: rest in
        run (if truthy (IPendingUpdate.updateId first) then
               logPendingUpdateInteraction DELETE_ALL None
                 (Some (IPendingUpdate.sender first))
                 (Some (IPendingUpdate.senderType first))
                 (IPendingUpdate.updateId first)
             else ret tt) ;
        do allUpdates <- gets (λ w, getPendingUpdates (panel w)) ;
        let filteredIds : gset jsstring :=
          list_to_set (IPendingUpdate.id <$> filteredUpdates) in
        let remainingUpdates :=
          filter (λ u, IPendingUpdate.id u ∉ filteredIds) allUpdates in
        onPanel (setPendingUpdates remainingUpdates)
    end.

(** [getUniqueSenders()]: the entries of the map from sender to type. *)
Definition getUniqueSenders (sb : Sidebar) (p : NotebookPanel) :
    list (jsstring * SenderType) :=
  if negb (_currentPanel sb) || isDisposed p then []
  else
    foldl (λ senderMap u,
             match IPendingUpdate.sender u with
             | c :: s =>
                 JsMap.set (c :: s) (IPendingUpdate.senderType u) senderMap
             | [] => senderMap
             end)
      [] (getPendingUpdates p).

(** The teammates [renderTeammateFilterList] makes a checkbox for: none
    unless the filter mode is ['selected']. *)
Definition filterCheckboxes (sb : Sidebar) (p : NotebookPanel) : list jsstring :=
  match _filterMode sb with
  | selected => fst <$> filter (λ s, s.2 = teammate) (getUniqueSenders sb p)
  | _ => []
  end.

(** The label of a pending update in [render]. *)
Definition cellLabel (origMapping : list jsstring) (u : IPendingUpdate.t) :
    jsstring :=
  match IPendingUpdate.id u with
  | c :: s =>
      match indexOf origMapping (c :: s) with
      | Some pos => lit "Cell " ++ decimal (pos + 1)
      | None => lit "Cell: unknown"
      end
  | [] => lit "Cell: unknown"
  end.

(** The comparator of the sort by time:
    [new Date(b.timeReceived).getTime() - new Date(a.timeReceived).getTime()]. *)
Definition timeOf (u : IPendingUpdate.t) : Num :=
  match getTime (IPendingUpdate.timeReceived u) with
  | Some t => Finite t
  | None => NaN
  end.

Definition compareByTime (a b : IPendingUpdate.t) : Num :=
  sub (timeOf b) (timeOf a).

Definition sortByTime (updates : list IPendingUpdate.t) :
    list IPendingUpdate.t :=
  sort compareByTime updates.

(** [removeBtn.onclick] of the row [render] makes for the pending update
    [u]. *)
Definition removeBtn_onclick (sb : Sidebar) (u : IPendingUpdate.t) : M unit :=
  if _currentPanel sb then
    removePendingUpdate (IPendingUpdate.id u) true
      (Some (IPendingUpdate.sender u)) (Some (IPendingUpdate.senderType u))
      (IPendingUpdate.updateId u)
  else ret tt.

End More.

End SyncMore.

(** ** The location tracker under the events of the channel *)

Module TrackerSpec.
Import LocationTracker.

(** The two events of the channel that reach the tracker:
    'teammate_location_update' calls [updateTeammateLocation] and
    'teammate_location_cleared' calls [removeTeammateLocation]. *)
Inductive LocationEvent : Type :=
  | teammate_location_update (location : ITeammateLocation.t)
  | teammate_location_cleared (userId : jsstring).

Definition handle (tr : Tracker) (e : LocationEvent) : Tracker :=
  match e with
  | teammate_location_update location => updateTeammateLocation location tr
  | teammate_location_cleared userId => removeTeammateLocation userId tr
  end.

(** The fields as the class initialises them, and as
    [setNotebookPanel(null)] leaves them. *)
Definition unbound : Tracker :=
  {| _notebookPanel := false; _teammateLocations := [];
     _connectedTeammates := []; _headings := [] |}.

(** The users the tracker has a location for. *)
Definition located (tr : Tracker) : list jsstring :=
  JsMap.keys (_teammateLocations tr).

(** Every entry of the map is under the user id of its location. *)
Definition keyed (m : list (jsstring * ITeammateLocation.t)) : Prop :=
  Forall (λ e, ITeammateLocation.userId e.2 = e.1) m.

(** One location per user, under the id of that user, and every user with a
    location is among the connected teammates, each of which is listed
    once. *)
Definition consistent (tr : Tracker) : Prop :=
  NoDup (located tr) ∧ keyed (_teammateLocations tr)
  ∧ NoDup (_connectedTeammates tr)
  ∧ located tr ⊆ _connectedTeammates tr.

(** The headings for the same original cell as [heading]. *)
Definition sameOrigin (tr : Tracker) (heading : IHeading.t) : list IHeading.t :=
  filter (λ h, IHeading.origCellId h = IHeading.origCellId heading)
    (_headings tr).

(** The heading is the one the dots of its original cell go to: it has the
    cell id of the last heading for that original cell. *)
Definition marked (tr : Tracker) (heading : IHeading.t) : Prop :=
  ∃ lastHeading, last (sameOrigin tr heading) = Some lastHeading
                 ∧ IHeading.cellId heading = IHeading.cellId lastHeading.

(** The largest absolute value the hash of [_getUserColor] can have after
    [n] characters: each round adds at most a code unit and a 32-bit
    integer. *)
Definition hashBound (n : nat) : Z := (Z.of_nat n * (2 ^ 31 + 2 ^ 16))%Z.

(** Integers below this bound in absolute value are numbers of JavaScript
    without rounding. *)
Definition MAX_SAFE : Z := (2 ^ 53)%Z.

(** A decimal digit. *)
Definition isDigit (c : N) : bool := ((48 <=? c) && (c <=? 57))%N.

(** A text of one to three decimal digits. *)
Definition degrees (digits : jsstring) : bool :=
  (1 <=? length digits) && (length digits <=? 3) && forallb isDigit digits.

(** The original id [_generateHeadings] gives to the heading of the cell at
    index [i]: [origCellMapping[i] || cellId]. *)
Definition origCellIdAt (origCellMapping : list jsstring) (i : nat)
    (cell : CellModel.t) : jsstring :=
  match origCellMapping !! i with
  | Some (c :: r) => c :: r
  | _ => CellModel.id cell
  end.

(** The heading stands for a cell of the notebook: it has the index and the
    ids of that cell, and its type and level fit the type and the content of
    the cell. *)
Definition headingOf (origCellMapping : list jsstring)
    (cells : list CellModel.t) (h : IHeading.t) : Prop :=
  ∃ cell,
    cells !! IHeading.cellIndex h = Some cell
    ∧ IHeading.cellId h = CellModel.id cell
    ∧ IHeading.origCellId h
      = origCellIdAt origCellMapping (IHeading.cellIndex h) cell
    ∧ match IHeading.type h with
      | header =>
          CellModel.type cell = lit "markdown"
          ∧ 1 ≤ IHeading.level h ≤ 6
      | markdown =>
          CellModel.type cell = lit "markdown"
          ∧ IHeading.level h = 7
          ∧ trim (CellModel.source cell) ≠ []
          ∧ firstHeader (split (CellModel.source cell)) = None
      | code =>
          CellModel.type cell = lit "code"
          ∧ IHeading.level h = 7
          ∧ trim (CellModel.source cell) ≠ []
      end.

(** A cell with something to show in the outline: a markdown or code cell
    whose source is not blank. *)
Definition shown (cell : CellModel.t) : Prop :=
  (CellModel.type cell = lit "markdown" ∨ CellModel.type cell = lit "code")
  ∧ trim (CellModel.source cell) ≠ [].

End TrackerSpec.

(** ** The pending updates and the document, for the statements *)

Module MoreSpec.
Import NotebookSync SyncSpec SyncMore.

Section Spec.

Context {who : Identity} {env : Host} {dates : Dates}.

(** What the sidebar shows of a panel in a given filter mode. *)
Definition view (sb : Sidebar) (mode : FilterMode) (p : NotebookPanel) :
    list IPendingUpdate.t :=
  getFilteredUpdates
    {| _currentPanel := _currentPanel sb; _filterMode := mode;
       _selectedTeammateFilters := _selectedTeammateFilters sb |} p.

(** The panel without its pending updates: the cells, the active cell, the
    notebook id and the updated cells. *)
Definition document (p : NotebookPanel) : NotebookPanel :=
  setPendingUpdates [] p.

(** Two worlds with the same document and the same clock; the pending
    updates and the records posted may differ. *)
Definition sameDocument (w1 w2 : World) : Prop :=
  document (panel w1) = document (panel w2) ∧ now w1 = now w2.

(** Two computations that do the same to the document: from worlds with the
    same document they lead to worlds with the same document, and both throw
    or both return the same value. *)
Definition alike {A} (c1 c2 : M A) : Prop :=
  ∀ w1 w2, sameDocument w1 w2 →
           sameDocument (exec c1 w1) (exec c2 w2) ∧ snd (c1 w1) = snd (c2 w2).

(** The time of an update as the sort by time reads it. *)
Definition received (u : IPendingUpdate.t) : option Z :=
  getTime (IPendingUpdate.timeReceived u).

(** Most recent first, for updates whose time is a date. *)
Definition newestFirst (a b : IPendingUpdate.t) : Prop :=
  match received a, received b with
  | Some x, Some y => (y ≤ x)%Z
  | _, _ => False
  end.

Definition receivedAt (t : Z) (u : IPendingUpdate.t) : Prop :=
  received u = Some t.

#[global] Instance receivedAt_dec t u : Decision (receivedAt t u).
Proof. unfold receivedAt. apply _. Defined.

(** The update is from the sender [s]. *)
Definition sentBy (s : jsstring) (u : IPendingUpdate.t) : Prop :=
  IPendingUpdate.sender u = s.

#[global] Instance sentBy_dec s u : Decision (sentBy s u).
Proof. unfold sentBy. apply _. Defined.

(** The APPLY_SINGLE record of a cell update. *)
Definition applied (w : World) (updateId cellId sender : option jsstring)
    (senderType : option SenderType) (cu : ICellUpdate.t) :
    list Interaction.t :=
  posted APPLY_SINGLE
    (or_else cellId (or_else (ICellUpdate.id cu) (ICellUpdate.cell_id cu)))
    sender senderType updateId w.

(** The record is an APPLY_SINGLE record of the pending update. *)
Definition appliedFrom (pending : IPendingUpdate.t) (r : Interaction.t) : Prop :=
  Interaction.action r = APPLY_SINGLE
  ∧ Interaction.update_id r = pendingUpdateId pending
  ∧ Interaction.sender r = Some (IPendingUpdate.sender pending)
  ∧ Interaction.sender_type r = Some (IPendingUpdate.senderType pending).

End Spec.

End MoreSpec.

(** ** More examples *)

Module MoreExamples.
Import WebsocketManager NotebookSync SyncMore LocationTracker TrackerSpec.
Import Examples.

(** A host for which the time of an update is a decimal number of
    milliseconds; any other text is not a date. *)
Fixpoint digitsValue (s : jsstring) (acc : Z) : option Z :=
  match s with
  | [] => Some acc
  | c :: r =>
      if ((48 <=? c) && (c <=? 57))%N
      then digitsValue r (acc * 10 + Z.of_N (c - 48))%Z
      else None
  end.

Definition millis : Dates :=
  {| getTime := λ s, match s with [] => None | _ => digitsValue s 0%Z end |}.

(** A pending update for [o1] received at the given time. *)
Definition pendingAt (time : string) : IPendingUpdate.t :=
  {| IPendingUpdate.id := o1; IPendingUpdate.message := payload;
     IPendingUpdate.timeReceived := lit time;
     IPendingUpdate.sender := lit "teacher";
     IPendingUpdate.senderType := teacher;
     IPendingUpdate.updateId := None;
     IPendingUpdate.cellId := None |}.

(** The text of the push of the example. *)
Definition quoted (s : string) : jsstring := 34%N :: lit s ++ [34%N].

Definition pushText : jsstring :=
  lit "{" ++ quoted "action" ++ lit ":" ++ quoted "update_cell" ++ lit ","
  ++ quoted "content" ++ lit ":{" ++ quoted "id" ++ lit ":" ++ quoted "o1"
  ++ lit "," ++ quoted "cell_type" ++ lit ":" ++ quoted "code" ++ lit ","
  ++ quoted "source" ++ lit ":" ++ quoted "print(2)" ++ lit "}}".

Definition pushParsed : Parsed.t :=
  {| Parsed.action := Some (lit "update_cell");
     Parsed.content :=
       Some {| PushContent.id := Some o1; PushContent.cell_id := None;
               PushContent.update_id := None;
               PushContent.cell_type := Some (lit "code");
               PushContent.source := Some (lit "print(2)");
               PushContent.cells := None |};
     Parsed.update_id := None |}.

(** A host whose [JSON.parse] knows that one text. *)
Definition parser : Json :=
  {| JSON_parse := λ s, if decide (s = pushText) then Some pushParsed else None |}.

(** A teammate at a cell. *)
Definition teammateAt (userId cellId : string) : ITeammateLocation.t :=
  {| ITeammateLocation.userId := lit userId;
     ITeammateLocation.cellId := lit cellId;
     ITeammateLocation.cellIndex := None |}.

(** A notebook of a markdown cell and a code cell, and its outline when
    both cells have the original id [o1]: the code cell is the one the
    user's code was moved to. *)
Definition intro : CellModel.t :=
  CellModel.mk (lit "c1") (lit "markdown") (lit "# Intro").

Definition assignment : CellModel.t :=
  CellModel.mk (lit "c2") (lit "code") (lit "x = 1").

Definition introHeading : IHeading.t :=
  IHeading.mk (lit "Intro") 1 (lit "c1") o1 0 header.

Definition assignmentHeading : IHeading.t :=
  IHeading.mk (lit "[2] x = 1") 7 (lit "c2") o1 1 LocationTracker.code.

Definition outline (locations : list ITeammateLocation.t) : Tracker :=
  {| _notebookPanel := true;
     _teammateLocations :=
       (λ l, (ITeammateLocation.userId l, l)) <$> locations;
     _connectedTeammates := ITeammateLocation.userId <$> locations;
     _headings := [introHeading; assignmentHeading] |}.


(** A pending update from a teammate. *)
Definition fromTeammate (id sender : string) : IPendingUpdate.t :=
  {| IPendingUpdate.id := lit id; IPendingUpdate.message := emptyPayload;
     IPendingUpdate.timeReceived := lit "2026-11-02T09:30:00.000Z";
     IPendingUpdate.sender := lit sender;
     IPendingUpdate.senderType := teammate;
     IPendingUpdate.updateId := None;
     IPendingUpdate.cellId := None |}.

(** The sidebar with the filter on the teammates selected, none yet. *)
Definition selectedTeammates : Sidebar :=
  {| _currentPanel := true; _filterMode := selected;
     _selectedTeammateFilters := ∅ |}.

(** A notebook with one cell and an update pending for [o1]. *)
Definition withPending : World :=
  notebook [Examples.code "print(1)"] (Some (lit "nb-1"))
    [pendingFor "o1" emptyPayload (Some (lit "u0"))].

End MoreExamples.

(** * Properties *)

(** ** Facts about the JavaScript primitives *)

Section JsFacts.

Context {A : Type} `{EqDecision A}.

Lemma lastIndexOf_None (l : list A) (x : A) :
  lastIndexOf l x = None ↔ x ∉ l.
Proof.
  induction l as [|y r IH]; simpl.
  - split; [intros _; apply not_elem_of_nil | done].
  - rewrite not_elem_of_cons. destruct (lastIndexOf r x) as [i|].
    + split; [done|]. intros [_ Hr]. apply IH in Hr. done.
    + destruct (decide (y = x)) as [->|Hne].
      * split; [done|]. intros [Hx _]. done.
      * split; [|done]. intros _. split; [congruence|]. by apply IH.
Qed.

Lemma lastIndexOf_Some (l : list A) (x : A) (i : nat) :
  lastIndexOf l x = Some i ↔
  l !! i = Some x ∧ ∀ j, i < j → l !! j ≠ Some x.
Proof.
  revert i. induction l as [|y r IH]; intros i; simpl.
  - split; [done|]. intros [Hl _]. done.
  - destruct (lastIndexOf r x) as [k|] eqn:Hk.
    + split.
      * intros [= <-]. simpl. destruct (IH k) as [IH1 _].
        destruct (IH1 eq_refl) as [Hl Hlast]. split; [done|].
        intros [|j] Hj; [lia|]. simpl. apply Hlast. lia.
      * intros [Hl Hlast]. destruct i as [|i].
        -- exfalso. destruct (IH k) as [IH1 _].
           destruct (IH1 eq_refl) as [Hk' _].
           apply (Hlast (S k)); [lia|done].
        -- f_equal. simpl in Hl.
           assert (Some k = Some i) as Hi.
           { apply IH. split; [done|]. intros j Hj.
             apply (Hlast (S j)). lia. }
           congruence.
    + apply lastIndexOf_None in Hk.
      destruct (decide (y = x)) as [->|Hne].
      * split.
        -- intros [= <-]. split; [done|]. intros [|j] Hj; [lia|]. simpl.
           intros Hj'. apply Hk. by eapply list_elem_of_lookup_2.
        -- intros [Hl _]. destruct i as [|i]; [done|]. simpl in Hl.
           exfalso. apply Hk. by eapply list_elem_of_lookup_2.
      * split; [done|]. intros [Hl _]. destruct i as [|i]; simpl in Hl.
        -- congruence.
        -- exfalso. apply Hk. by eapply list_elem_of_lookup_2.
Qed.

Lemma lastIndexOf_elem_of (l : list A) (x : A) :
  x ∈ l → ∃ i, lastIndexOf l x = Some i.
Proof.
  intros Hx. destruct (lastIndexOf l x) as [i|] eqn:Hi; [by exists i|].
  apply lastIndexOf_None in Hi. done.
Qed.

Lemma lastIndexOf_lt (l : list A) (x : A) (i : nat) :
  lastIndexOf l x = Some i → i < length l.
Proof.
  intros Hi. apply lastIndexOf_Some in Hi as [Hl _].
  by eapply lookup_lt_Some.
Qed.

Lemma includes_true (l : list A) (x : A) : includes l x = true ↔ x ∈ l.
Proof. unfold includes. apply bool_decide_eq_true. Qed.

Lemma includes_false (l : list A) (x : A) : includes l x = false ↔ x ∉ l.
Proof. unfold includes. apply bool_decide_eq_false. Qed.

End JsFacts.

Lemma trimStart_spaces (ws s : jsstring) :
  Forall (λ c, isSpace c = true) ws → trimStart (ws ++ s) = trimStart s.
Proof.
  induction 1 as [|c ws Hc _ IH]; simpl; [done|]. by rewrite Hc.
Qed.

Lemma trim_spaces (ws s : jsstring) :
  Forall (λ c, isSpace c = true) ws → trim (ws ++ s) = trim s.
Proof. intros Hws. unfold trim. by rewrite trimStart_spaces. Qed.

(** ** The realtime channel *)

Module ChannelProps.
Import WebsocketManager Channel.

Section Proofs.

Context {Callback : Type} {who : Identity}.
Implicit Types st : State Callback.

Lemma filter_open_closed (l : list Socket) :
  Forall (λ s, closed s = true) l → filter (λ s, closed s = false) l = [].
Proof.
  induction 1 as [|s l Hs _ IH]; [done|].
  rewrite filter_cons_False; [done|]. congruence.
Qed.

Lemma closeSocketConnection_closed st :
  held_only st →
  Forall (λ s, closed s = true) (sockets (closeSocketConnection st)).
Proof.
  intros Hheld. apply Forall_lookup. intros j s. simpl.
  destruct (_socket st) as [h|] eqn:Hh.
  - destruct (decide (h = j)) as [->|Hne].
    + rewrite list_lookup_alter_eq. destruct (sockets st !! j); [|done].
      by intros [= <-].
    + rewrite list_lookup_alter_ne by done. intros Hj.
      destruct (closed s) eqn:Hs; [done|].
      specialize (Hheld j s Hj Hs). congruence.
  - intros Hj. destruct (closed s) eqn:Hs; [done|].
    specialize (Hheld j s Hj Hs). congruence.
Qed.

Lemma closeSocketConnection_live st :
  held_only st → live (closeSocketConnection st) = [].
Proof.
  intros Hheld. unfold live.
  by apply filter_open_closed, closeSocketConnection_closed.
Qed.

Lemma closed_held st :
  Forall (λ s, closed s = true) (sockets st) → held_only st.
Proof.
  intros Hall h s Hh Hs. rewrite Forall_lookup in Hall.
  specialize (Hall h s Hh). congruence.
Qed.

Lemma new_held : held_only (new (Callback := Callback)).
Proof. intros h s Hh. done. Qed.

(** What [establishSocketConnection] makes of a state, spelled out. *)
Lemma establishSocketConnection_unfold notebookId onMessage st :
  establishSocketConnection notebookId onMessage st =
  let closed := sockets (closeSocketConnection st) in
  if truthy notebookId && truthy PERSISTENT_USER_ID then
    {| sockets :=
         closed ++ [mkSocket (default [] notebookId)
                      (default [] PERSISTENT_USER_ID) false];
       _socket := Some (length closed);
       _messageCallback := Some onMessage |}
  else
    {| sockets := closed; _socket := None;
       _messageCallback := Some onMessage |}.
Proof.
  unfold establishSocketConnection, _createSocket.
  destruct notebookId as [[|c n]|], PERSISTENT_USER_ID as [[|d u]|]; done.
Qed.

Lemma establishSocketConnection_held notebookId onMessage st :
  held_only st → held_only (establishSocketConnection notebookId onMessage st).
Proof.
  intros Hheld. pose proof (closeSocketConnection_closed st Hheld) as Hall.
  rewrite establishSocketConnection_unfold. cbv zeta.
  destruct (truthy notebookId && truthy PERSISTENT_USER_ID).
  - intros h s. simpl. intros Hh Hs.
    apply lookup_app_Some in Hh as [Hh|[Hge Hh]].
    + rewrite Forall_lookup in Hall. specialize (Hall h s Hh). congruence.
    + apply list_lookup_singleton_Some in Hh as [Hh _]. f_equal. lia.
  - by apply closed_held.
Qed.

Lemma perform_held st (c : Call Callback) : held_only st → held_only (perform st c).
Proof.
  intros Hheld. destruct c as [notebookId onMessage|]; simpl.
  - by apply establishSocketConnection_held.
  - by apply closed_held, closeSocketConnection_closed.
Qed.

Lemma after_held (calls : list (Call Callback)) : held_only (after calls).
Proof.
  unfold after. induction calls as [|c calls IH] using rev_ind.
  - apply new_held.
  - rewrite foldl_app. simpl. by apply perform_held.
Qed.

Lemma establishSocketConnection_live notebookId onMessage st :
  held_only st →
  live (establishSocketConnection notebookId onMessage st) =
  if truthy notebookId && truthy PERSISTENT_USER_ID then
    [mkSocket (default [] notebookId) (default [] PERSISTENT_USER_ID) false]
  else [].
Proof.
  intros Hheld. pose proof (closeSocketConnection_closed st Hheld) as Hall.
  rewrite establishSocketConnection_unfold. cbv zeta. unfold live.
  destruct (truthy notebookId && truthy PERSISTENT_USER_ID); simpl.
  - rewrite filter_app, filter_open_closed by done. done.
  - by apply filter_open_closed.
Qed.

Lemma perform_live st (c : Call Callback) :
  held_only st → length (live (perform st c)) ≤ 1.
Proof.
  intros Hheld. destruct c as [notebookId onMessage|]; simpl.
  - rewrite establishSocketConnection_live by done.
    destruct (truthy notebookId && truthy PERSISTENT_USER_ID); simpl; lia.
  - rewrite closeSocketConnection_live by done. simpl. lia.
Qed.

Lemma after_live (calls : list (Call Callback)) : length (live (after calls)) ≤ 1.
Proof.
  destruct calls as [|c calls _] using rev_ind.
  - simpl. lia.
  - unfold after. rewrite foldl_app. simpl.
    apply perform_live, after_held.
Qed.

(** C6. Whatever calls were made on the manager before, at most one socket
    is live. Establishing a connection for a document and then one for
    another document leaves exactly one live socket, made for the second
    document, and the socket of the first is closed. Establishing with no
    document id or no user id closes the socket held before and makes
    none. *)
Theorem establishSocketConnection_one_live (calls : list (Call Callback)) :
  let st := after calls in
  length (live st) ≤ 1
  ∧ (∀ nb1 nb2 cb1 cb2 user,
       PERSISTENT_USER_ID = Some user → user ≠ [] → nb1 ≠ [] → nb2 ≠ [] →
       let st1 := establishSocketConnection (Some nb1) cb1 st in
       let st2 := establishSocketConnection (Some nb2) cb2 st1 in
       live st2 = [mkSocket nb2 user false]
       ∧ (∃ h, _socket st1 = Some h
               ∧ sockets st1 !! h = Some (mkSocket nb1 user false)
               ∧ sockets st2 !! h = Some (mkSocket nb1 user true))
       ∧ (∃ h, _socket st2 = Some h
               ∧ sockets st2 !! h = Some (mkSocket nb2 user false)))
  ∧ (∀ nb cb,
       truthy nb = false ∨ truthy PERSISTENT_USER_ID = false →
       let st' := establishSocketConnection nb cb st in
       live st' = [] ∧ _socket st' = None
       ∧ length (sockets st') = length (sockets st)).
Proof.
  intros st. pose proof (after_held calls) as Hheld. fold st in Hheld.
  split; [apply after_live|]. split.
  - intros nb1 nb2 cb1 cb2 user Huser Hu Hn1 Hn2 st1 st2.
    assert (held_only st1) as Hheld1
      by by apply establishSocketConnection_held.
    assert (truthy (Some nb1) && truthy PERSISTENT_USER_ID = true) as Ht1.
    { rewrite Huser. by destruct nb1, user. }
    assert (truthy (Some nb2) && truthy PERSISTENT_USER_ID = true) as Ht2.
    { rewrite Huser. by destruct nb2, user. }
    split; [|split].
    + unfold st2. rewrite establishSocketConnection_live by done.
      rewrite Ht2, Huser. done.
    + exists (length (sockets (closeSocketConnection st))).
      unfold st2. rewrite (establishSocketConnection_unfold _ _ st1).
      cbv zeta. rewrite Ht2. unfold st1.
      rewrite (establishSocketConnection_unfold _ _ st). cbv zeta.
      rewrite Ht1, Huser. simpl. split; [done|]. split.
      * by rewrite list_lookup_middle.
      * rewrite lookup_app_l.
        2:{ rewrite length_alter, length_app. simpl. lia. }
        rewrite list_lookup_alter_eq, list_lookup_middle by done. done.
    + unfold st2. rewrite (establishSocketConnection_unfold _ _ st1).
      cbv zeta. rewrite Ht2, Huser. simpl.
      eexists. split; [done|]. by rewrite list_lookup_middle.
  - intros nb cb Hmissing st'.
    assert (truthy nb && truthy PERSISTENT_USER_ID = false) as Ht.
    { destruct Hmissing as [-> | ->]; [done|]. by destruct (truthy nb). }
    split; [|split].
    + unfold st'. rewrite establishSocketConnection_live by done.
      by rewrite Ht.
    + unfold st'. rewrite establishSocketConnection_unfold. cbv zeta.
      by rewrite Ht.
    + unfold st'. rewrite establishSocketConnection_unfold. cbv zeta.
      rewrite Ht. simpl. destruct (_socket st); [|done].
      apply length_alter.
Qed.

(** *** The legacy payload *)

Lemma rePlus_notColon (q rest acc : jsstring) :
  Forall (λ c, notColon c = true) q →
  rePlus notColon (q ++ 58%N :: rest) acc reColon =
  match q with [] => None | _ => Some (acc ++ q) end.
Proof.
  intros Hq. revert acc. induction Hq as [|c q Hc _ IH]; intros acc; simpl.
  - done.
  - rewrite Hc, IH. destruct q as [|d q]; simpl.
    + done.
    + by rewrite <- app_assoc.
Qed.

(** When the pattern matches a text made of characters other than [:]
    followed by [:], the group it captures is that text without some of its
    leading white space. *)
Lemma rePlus_isSpace_group (q rest acc group : jsstring) :
  Forall (λ c, notColon c = true) q →
  rePlus isSpace (q ++ 58%N :: rest) acc
    (λ _ rest, rePlus notColon rest [] reColon) = Some group →
  group ≠ [] ∧ trim group = trim q.
Proof.
  intros Hq. revert acc. induction Hq as [|c q Hc Hq IH]; intros acc; simpl.
  - done.
  - destruct (isSpace c) eqn:Hsp; [|done].
    destruct (rePlus isSpace (q ++ 58%N :: rest) (acc ++ [c]) _) as [g|] eqn:Hg.
    + intros [= <-]. apply IH in Hg as [Hne Htrim]. split; [done|].
      rewrite Htrim. unfold trim. simpl. by rewrite Hsp.
    + rewrite rePlus_notColon by done. destruct q as [|d q]; [done|].
      intros [= <-]. split; [done|]. unfold trim. simpl. by rewrite Hsp.
Qed.

Lemma rePlus_isSpace_matches (c : N) (q rest acc : jsstring) :
  isSpace c = true → q ≠ [] → Forall (λ c, notColon c = true) q →
  is_Some (rePlus isSpace (c :: q ++ 58%N :: rest) acc
             (λ _ rest, rePlus notColon rest [] reColon)).
Proof.
  intros Hc Hne Hq. simpl. rewrite Hc.
  destruct (rePlus isSpace (q ++ 58%N :: rest) (acc ++ [c]) _) as [g|];
    [done|].
  rewrite rePlus_notColon by done. destruct q; done.
Qed.

Lemma isSpace_notColon (c : N) : isSpace c = true → notColon c = true.
Proof.
  unfold notColon. destruct (N.eqb_spec c 58) as [->|]; [|done].
  by vm_compute.
Qed.

Lemma legacySender_From (default ws peerId body : jsstring) :
  ws ≠ [] → Forall (λ c, isSpace c = true) ws →
  peerId ≠ [] → Forall (λ c, notColon c = true) peerId →
  legacySender default (lit "From" ++ ws ++ peerId ++ 58%N :: body)
  = trim peerId.
Proof.
  intros Hws Hsp Hp Hnc. unfold legacySender, matchFrom.
  change (reLit (lit "From") (lit "From" ++ ?s)) with (Some s).
  destruct ws as [|w ws]; [done|]. inversion Hsp as [|? ? Hw Hsp']; subst.
  assert (Forall (λ c, notColon c = true) (ws ++ peerId)) as Hq.
  { apply Forall_app. split; [|done].
    eapply Forall_impl; [exact Hsp'|]. apply isSpace_notColon. }
  assert (ws ++ peerId ≠ []) as Hne by by destruct ws, peerId.
  rewrite <- app_comm_cons, app_assoc.
  destruct (rePlus_isSpace_matches w (ws ++ peerId) body [] Hw Hne Hq)
    as [g Hg].
  rewrite Hg.
  pose proof (isSpace_notColon _ Hw) as Hw'.
  apply (rePlus_isSpace_group (w :: ws ++ peerId) body [] g) in Hg
    as [Hgne Htrim]; [|by constructor].
  destruct g as [|c g]; [done|]. rewrite Htrim.
  rewrite app_comm_cons. by apply trim_spaces.
Qed.

(** C7. With a message callback registered, a legacy string payload
    [From <peerId>: <body>] (white space after [From], a peer id without
    [:]) makes the 'chat' handler call the callback with the whole string as
    message, the peer id (trimmed of surrounding white space) as sender and
    sender type teacher, and the 'group_chat' handler do the same with sender
    type teammate. A string the pattern does not match is passed on all the
    same, with the default sender 'teacher', respectively 'teammate'. *)
Theorem legacy_payload_normalised st (cb : Callback) :
  _messageCallback st = Some cb →
  (∀ ws peerId body,
     ws ≠ [] → Forall (λ c, isSpace c = true) ws →
     peerId ≠ [] → Forall (λ c, notColon c = true) peerId →
     let data := lit "From" ++ ws ++ peerId ++ 58%N :: body in
     on_chat st (DataString data)
       = Some (mkInvocation cb data (trim peerId) teacher)
     ∧ on_group_chat st (DataString data)
       = Some (mkInvocation cb data (trim peerId) teammate))
  ∧ (∀ data,
       matchFrom data = None →
       on_chat st (DataString data)
         = Some (mkInvocation cb data (lit "teacher") teacher)
       ∧ on_group_chat st (DataString data)
         = Some (mkInvocation cb data (lit "teammate") teammate)).
Proof.
  intros Hcb. split.
  - intros ws peerId body Hws Hsp Hp Hnc data. unfold on_chat, on_group_chat.
    rewrite Hcb. unfold data. by rewrite !legacySender_From.
  - intros data Hno. unfold on_chat, on_group_chat, legacySender.
    by rewrite Hcb, Hno.
Qed.

End Proofs.

End ChannelProps.

(** ** The pending-update store and the merge *)

Module SyncProps.
Import NotebookSync SyncSpec.

Section Proofs.

Context {who : Identity} {env : Host}.

(** *** Lists *)

Lemma filter_filter_neg {A} (P : A → Prop) `{∀ x, Decision (P x)} (l : list A) :
  filter P (filter (λ x, ¬ P x) l) = [].
Proof.
  induction l as [|x l IH]; [done|].
  destruct (decide (P x)) as [Hx|Hx].
  - rewrite (filter_cons_False (λ x, ¬ P x)); [done|]. by intros ?.
  - rewrite (filter_cons_True (λ x, ¬ P x)) by done.
    by rewrite filter_cons_False.
Qed.

Lemma NoDup_ids_filter (P : IPendingUpdate.t → Prop) `{∀ x, Decision (P x)}
    (l : list IPendingUpdate.t) :
  NoDup (ids l) → NoDup (ids (filter P l)).
Proof.
  unfold ids. intros Hnd. eapply sublist_NoDup; [exact Hnd|].
  apply fmap_sublist, sublist_filter.
Qed.

Lemma length_filter_other (id : jsstring) (l : list IPendingUpdate.t) :
  NoDup (ids l) → id ∈ ids l →
  S (length (filter (λ u, IPendingUpdate.id u ≠ id) l)) = length l.
Proof.
  unfold ids. induction l as [|u l IH]; simpl.
  - intros _ Hin. by apply elem_of_nil in Hin.
  - rewrite NoDup_cons. intros [Hu Hnd] Hin.
    destruct (decide (IPendingUpdate.id u = id)) as [<-|Hne].
    + rewrite filter_cons_False by (intros Hc; by apply Hc).
      f_equal. clear IH Hin Hnd. induction l as [|v l IH]; [done|].
      simpl in Hu. apply not_elem_of_cons in Hu as [Hv Hl].
      rewrite filter_cons_True by done. simpl. f_equal. by apply IH.
    + rewrite filter_cons_True by done. simpl. f_equal. apply IH; [done|].
      apply elem_of_cons in Hin as [Hin|Hin]; [congruence|done].
Qed.

(** *** Logging *)

Lemma logPendingUpdateInteraction_eq action cellId sender senderType updateId w :
  logPendingUpdateInteraction action cellId sender senderType updateId w =
  ({| panel := panel w;
      log := log w ++ posted action cellId sender senderType updateId w;
      now := now w |}, Some tt).
Proof.
  unfold logPendingUpdateInteraction, posted.
  destruct (truthy PERSISTENT_USER_ID); simpl.
  - destruct (notebookId (panel w)) as [[|c n]|]; simpl;
      try done; destruct w; simpl; by rewrite app_nil_r.
  - destruct w; simpl; by rewrite app_nil_r.
Qed.

(** *** The updated cells *)

(** C10. Marking a cell whose id is already among the updated cells changes
    nothing; marking is idempotent; and a list of updated cells without
    duplicates stays without duplicates. *)
Theorem markCellAsUpdated_idempotent (p : NotebookPanel) (cellId : jsstring) :
  (cellId ∈ getUpdatedCells p → markCellAsUpdated cellId p = p)
  ∧ markCellAsUpdated cellId (markCellAsUpdated cellId p)
    = markCellAsUpdated cellId p
  ∧ (NoDup (updatedCells p) →
     NoDup (updatedCells (markCellAsUpdated cellId p))).
Proof.
  unfold markCellAsUpdated. split; [|split].
  - intros Hin. apply includes_true in Hin. by rewrite Hin.
  - destruct p as [[] ws a n pu uc]; unfold getUpdatedCells; simpl.
    + done.
    + destruct (includes uc cellId) eqn:Hinc; simpl.
      * by rewrite Hinc.
      * assert (includes (uc ++ [cellId]) cellId = true) as ->; [|done].
        apply includes_true, elem_of_app. right.
        by apply list_elem_of_singleton.
  - intros Hnd. destruct (includes (getUpdatedCells p) cellId) eqn:Hinc;
      [done|]. simpl. apply includes_false in Hinc.
    apply NoDup_app. split; [|split].
    + unfold getUpdatedCells. destruct (isDisposed p); [apply NoDup_nil_2|done].
    + intros x Hx Hx'. apply list_elem_of_singleton in Hx'. by subst.
    + apply NoDup_singleton.
Qed.

Lemma cellsRemoved_NoDup (sb : Sidebar) (oldIndex : nat) (p : NotebookPanel) :
  NoDup (updatedCells p) → NoDup (updatedCells (cellsRemoved sb oldIndex p)).
Proof.
  intros Hnd. unfold cellsRemoved.
  destruct (negb (_currentPanel sb) || isDisposed p) eqn:Hg; [done|].
  destruct (getOrigCellMapping p !! oldIndex) as [[|c b]|]; try done.
  destruct (includes _ _); [|done]. simpl. apply NoDup_filter.
  unfold getUpdatedCells. destruct (isDisposed p); [apply NoDup_nil_2|done].
Qed.

(** *** The pending-update store *)

Lemma laterButton_click_store w newContent sender senderType cellId finalUpdateId :
  let u := newUpdate (now w) newContent sender senderType cellId finalUpdateId in
  pendingUpdates
    (panel (exec (laterButton_click newContent sender senderType cellId
                    finalUpdateId) w))
  = filter (λ x, IPendingUpdate.id x ≠ IPendingUpdate.id u)
      (getPendingUpdates (panel w)) ++ [u].
Proof.
  unfold exec, laterButton_click, bind, gets, onPanel. simpl.
  by rewrite logPendingUpdateInteraction_eq.
Qed.

Lemma laterButton_click_unique w newContent sender senderType cellId
    finalUpdateId :
  NoDup (ids (pendingUpdates (panel w))) →
  NoDup (ids (pendingUpdates
                (panel (exec (laterButton_click newContent sender senderType
                                cellId finalUpdateId) w)))).
Proof.
  intros Hnd. rewrite laterButton_click_store. cbv zeta.
  unfold ids. rewrite fmap_app. apply NoDup_app. split; [|split].
  - apply NoDup_ids_filter. unfold getPendingUpdates.
    destruct (isDisposed (panel w)); [apply NoDup_nil_2|done].
  - intros x Hx Hx'. apply list_elem_of_singleton in Hx'. subst x.
    apply list_elem_of_fmap in Hx as (v & Hv & Hin).
    apply list_elem_of_filter in Hin as [Hne _]. by apply Hne.
  - apply NoDup_singleton.
Qed.

(** C4. After "Update Later" the store holds exactly one entry with the id
    of the deferred update, the cell id or else the update id: it is the
    last entry, after the entries of other ids, which are kept in their
    order, and it holds the payload, the sender and the sender type of the
    deferred update, the time of the click, the update id and the cell id.
    When the id was already in a store with unique ids, the number of
    entries does not change: the new entry replaces the old one. Ids that
    are unique in the store are unique after any number of clicks on
    "Update Later". *)
Theorem laterButton_click_upsert w newContent sender senderType cellId
    finalUpdateId :
  let id := or_default cellId finalUpdateId in
  let store := pendingUpdates (panel w) in
  let store' :=
    pendingUpdates
      (panel (exec (laterButton_click newContent sender senderType cellId
                      finalUpdateId) w)) in
  (∃ u,
     filter (λ x, IPendingUpdate.id x = id) store' = [u]
     ∧ store'
       = filter (λ x, IPendingUpdate.id x ≠ id) (getPendingUpdates (panel w))
         ++ [u]
     ∧ IPendingUpdate.id u = id
     ∧ IPendingUpdate.message u = newContent
     ∧ IPendingUpdate.sender u = sender
     ∧ IPendingUpdate.senderType u = senderType
     ∧ IPendingUpdate.timeReceived u = toISOString (now w)
     ∧ IPendingUpdate.updateId u = Some finalUpdateId
     ∧ IPendingUpdate.cellId u = cellId)
  ∧ (NoDup (ids store) →
     id ∈ ids (getPendingUpdates (panel w)) →
     length store' = length store)
  ∧ (NoDup (ids store) →
     ∀ clicks, NoDup (ids (pendingUpdates (panel (foldl defer w clicks))))).
Proof.
  intros id store store'.
  set (u := newUpdate (now w) newContent sender senderType cellId
              finalUpdateId).
  assert (store'
          = filter (λ x, IPendingUpdate.id x ≠ id)
              (getPendingUpdates (panel w)) ++ [u]) as Hstore
    by apply laterButton_click_store.
  split; [|split].
  - exists u. split; [|by repeat (split; [done|])].
    rewrite Hstore, filter_app.
    rewrite (filter_filter_neg (λ x, IPendingUpdate.id x = id)).
    by rewrite filter_cons_True.
  - intros Hnd Hin. rewrite Hstore, length_app. simpl.
    unfold getPendingUpdates in *. fold store in Hin |- *.
    destruct (isDisposed (panel w)).
    + by apply elem_of_nil in Hin.
    + rewrite <- (length_filter_other id store) by done. lia.
  - intros Hnd clicks. unfold store in Hnd. clear u id store store' Hstore.
    revert w Hnd. induction clicks as [|d clicks IH]; intros w Hnd; [done|].
    simpl. apply IH. by apply laterButton_click_unique.
Qed.

(** *** The order of the sidebar *)

Lemma positive_compareByCell m (a b : IPendingUpdate.t) :
  positive (compareByCell m a b) = true ↔ ¬ byPosition m a b.
Proof.
  unfold compareByCell, cellRank, byPosition, position.
  destruct (lastIndexOf m (IPendingUpdate.id a)) as [i|],
    (lastIndexOf m (IPendingUpdate.id b)) as [j|]; simpl.
  - rewrite Z.ltb_lt. lia.
  - split; [done|]. intros Hn. by destruct Hn.
  - split; [|done]. intros _ Hf. done.
  - split; [done|]. intros Hn. by destruct Hn.
Qed.

Lemma not_positive_compareByCell m (a b : IPendingUpdate.t) :
  positive (compareByCell m a b) = false → byPosition m a b.
Proof.
  unfold compareByCell, cellRank, byPosition, position.
  destruct (lastIndexOf m (IPendingUpdate.id a)) as [i|],
    (lastIndexOf m (IPendingUpdate.id b)) as [j|]; simpl; try done.
  rewrite Z.ltb_ge. lia.
Qed.

Lemma byPosition_total m (a b : IPendingUpdate.t) :
  byPosition m a b ∨ byPosition m b a.
Proof.
  unfold byPosition. destruct (position m a), (position m b); try lia; auto.
Qed.

Lemma byPosition_trans m (a b c : IPendingUpdate.t) :
  byPosition m a b → byPosition m b c → byPosition m a c.
Proof.
  unfold byPosition.
  destruct (position m a), (position m b), (position m c); try done; lia.
Qed.

Lemma insertSorted_perm {A} (cmp : A → A → Num) (a : A) (l : list A) :
  insertSorted cmp a l ≡ₚ a :: l.
Proof.
  induction l as [|b r IH]; simpl; [done|].
  destruct (positive (cmp a b)); [|done].
  rewrite IH. apply Permutation_swap.
Qed.

Lemma sort_perm {A} (cmp : A → A → Num) (l : list A) : sort cmp l ≡ₚ l.
Proof.
  induction l as [|a l IH]; simpl; [done|].
  unfold sort in *. simpl. by rewrite insertSorted_perm, IH.
Qed.

Lemma insertSorted_sorted m (a : IPendingUpdate.t) l :
  StronglySorted (byPosition m) l →
  StronglySorted (byPosition m) (insertSorted (compareByCell m) a l).
Proof.
  induction 1 as [|b r Hr IH Hb]; simpl.
  - repeat constructor.
  - destruct (positive (compareByCell m a b)) eqn:Hpos.
    + apply positive_compareByCell in Hpos.
      assert (byPosition m b a) as Hba
        by (destruct (byPosition_total m a b); done).
      constructor; [done|].
      rewrite insertSorted_perm. by constructor.
    + apply not_positive_compareByCell in Hpos as Hab.
      constructor; [by constructor|]. constructor; [done|].
      eapply Forall_impl; [exact Hb|]. intros c Hc.
      by eapply byPosition_trans.
Qed.

Lemma sortByCell_sorted m l : StronglySorted (byPosition m) (sortByCell m l).
Proof.
  unfold sortByCell, sort. induction l as [|a l IH]; simpl.
  - constructor.
  - by apply insertSorted_sorted.
Qed.

(** The sort is stable: updates with the same position keep their order. *)
Lemma insertSorted_stable m (k : option nat) (a : IPendingUpdate.t) l :
  filter (atPosition m k) (insertSorted (compareByCell m) a l)
  = filter (atPosition m k) (a :: l).
Proof.
  induction l as [|b r IH]; simpl; [done|].
  destruct (positive (compareByCell m a b)) eqn:Hpos; [|done].
  apply positive_compareByCell in Hpos.
  assert (position m a ≠ position m b) as Hne.
  { intros Heq. apply Hpos. unfold byPosition. rewrite Heq.
    destruct (position m b); [lia|done]. }
  rewrite (filter_cons _ b), IH, !(filter_cons _ a), (filter_cons _ b).
  unfold atPosition.
  destruct (decide (position m a = k)), (decide (position m b = k));
    try done. congruence.
Qed.

Lemma sortByCell_stable m (k : option nat) l :
  filter (atPosition m k) (sortByCell m l)
  = filter (atPosition m k) l.
Proof.
  unfold sortByCell, sort. induction l as [|a l IH]; simpl; [done|].
  rewrite insertSorted_stable, !(filter_cons _ a), IH. done.
Qed.

Lemma mapped_position m (u : IPendingUpdate.t) :
  mapped m u ↔ position m u ≠ None.
Proof.
  unfold mapped, position. rewrite lastIndexOf_None.
  split; [by intros ? ?|]. intros Hn.
  by destruct (decide (IPendingUpdate.id u ∈ m)).
Qed.

Lemma sorted_mapped_first m l :
  StronglySorted (byPosition m) l →
  l = filter (mapped m) l ++ filter (λ u, ¬ mapped m u) l.
Proof.
  induction 1 as [|a r Hr IH Ha]; [done|].
  destruct (decide (mapped m a)) as [Hm|Hm].
  - rewrite filter_cons_True by done.
    rewrite (filter_cons_False (λ u, ¬ mapped m u)) by (by intros ?).
    simpl. by f_equal.
  - rewrite filter_cons_False by done.
    rewrite (filter_cons_True (λ u, ¬ mapped m u)) by done.
    assert (Forall (λ u, ¬ mapped m u) r) as Hall.
    { eapply Forall_impl; [exact Ha|]. intros b Hab Hb.
      apply mapped_position in Hb. rewrite mapped_position in Hm.
      unfold byPosition in Hab.
      destruct (position m a); [by apply Hm|].
      by destruct (position m b). }
    assert (filter (mapped m) r = []) as ->.
    { clear -Hall. induction Hall as [|b r Hb _ IH]; [done|].
      by rewrite filter_cons_False. }
    simpl. f_equal. clear -Hall. induction Hall as [|b r Hb _ IH]; [done|].
    rewrite filter_cons_True by done. by f_equal.
Qed.

Lemma filter_unmapped_position m (l : list IPendingUpdate.t) :
  filter (λ u, ¬ mapped m u) l = filter (atPosition m None) l.
Proof.
  apply list_filter_iff. intros u. unfold atPosition.
  rewrite mapped_position.
  split; [|by intros -> ?]. intros Hn.
  by destruct (position m u); [destruct Hn|].
Qed.

(** C8. Sorting by the key 'cell' rearranges the updates in ascending order
    of the position of their id in the mapping; the updates whose id is not
    in the mapping come after all the others, in the order they had before
    the sort. (Updates with equal positions keep their order too.) *)
Theorem sortByCell_order (origMapping : list jsstring)
    (updates : list IPendingUpdate.t) :
  let sorted := sortByCell origMapping updates in
  sorted ≡ₚ updates
  ∧ StronglySorted (byPosition origMapping) sorted
  ∧ sorted = filter (mapped origMapping) sorted
             ++ filter (λ u, ¬ mapped origMapping u) updates
  ∧ ∀ k, filter (atPosition origMapping k) sorted
         = filter (atPosition origMapping k) updates.
Proof.
  intros sorted. split; [apply sort_perm|].
  split; [apply sortByCell_sorted|]. split; [|intros k; apply sortByCell_stable].
  rewrite (filter_unmapped_position _ updates).
  rewrite <- (sortByCell_stable origMapping None updates).
  rewrite <- filter_unmapped_position.
  apply sorted_mapped_first, sortByCell_sorted.
Qed.

(** *** Computations *)

Lemma bind_Some {A B} (c : M A) (k : A → M B) w w' a :
  c w = (w', Some a) → bind c k w = k a w'.
Proof. unfold bind. by intros ->. Qed.

Lemma bind_None {A B} (c : M A) (k : A → M B) w w' :
  c w = (w', None) → bind c k w = (w', None).
Proof. unfold bind. by intros ->. Qed.

(** *** Cells in the middle of a list *)

Lemma split_at {A} (l : list A) (i : nat) (x : A) :
  l !! i = Some x →
  ∃ L R, l = L ++ x :: R ∧ length L = i ∧ take i l = L
         ∧ drop i l = x :: R ∧ drop (S i) l = R.
Proof.
  intros Hl. exists (take i l), (drop (S i) l).
  pose proof (lookup_lt_Some _ _ _ Hl) as Hlt.
  split; [by rewrite take_drop_middle|]. split; [rewrite length_take; lia|].
  split; [done|]. split; [|done]. by apply drop_S.
Qed.

Lemma alter_middle {A} (f : A → A) (L R : list A) (x : A) :
  alter f (length L) (L ++ x :: R) = L ++ f x :: R.
Proof. rewrite alter_app_r_alt by lia. by rewrite Nat.sub_diag. Qed.

Lemma insert_middle {A} (L R : list A) (x y : A) :
  <[length L := y]> (L ++ x :: R) = L ++ y :: R.
Proof. rewrite insert_app_r_alt by lia. by rewrite Nat.sub_diag. Qed.

Lemma lookup_middle_next {A} (L R : list A) (x y : A) :
  (L ++ x :: y :: R) !! (length L + 1) = Some y.
Proof. rewrite lookup_app_r by lia. by replace (length L + 1 - length L) with 1 by lia. Qed.

Lemma insert_middle_next {A} (L R : list A) (x y z : A) :
  <[length L + 1 := z]> (L ++ x :: y :: R) = L ++ x :: z :: R.
Proof.
  rewrite insert_app_r_alt by lia.
  by replace (length L + 1 - length L) with 1 by lia.
Qed.

(** *** The texts and the types of the cells of an update *)

Lemma markdown_cellType (cu : ICellUpdate.t) :
  or_default (ICellUpdate.cell_type cu) (lit "code") = lit "markdown"
  ↔ ICellUpdate.cell_type cu = Some (lit "markdown").
Proof.
  destruct (ICellUpdate.cell_type cu) as [[|c r]|]; simpl.
  - split; intros Heq; discriminate Heq.
  - split; congruence.
  - split; intros Heq; discriminate Heq.
Qed.

Lemma cellUpdateSource_stamped (cu : ICellUpdate.t) (t : jsstring) :
  cellUpdateSource (or_default (ICellUpdate.cell_type cu) (lit "code")) t
    (ICellUpdate.source cu)
  = stamped t cu.
Proof.
  unfold cellUpdateSource, stamped.
  destruct (decide (or_default (ICellUpdate.cell_type cu) (lit "code")
                    = lit "markdown")) as [Hmd|Hmd].
  - apply markdown_cellType in Hmd. by rewrite decide_True.
  - rewrite decide_False; [done|]. by rewrite <- markdown_cellType.
Qed.

Lemma addedCellType_appended (cu : ICellUpdate.t) (t : jsstring) :
  Cell.mk (addedCellType (ICellUpdate.cell_type cu)) (stamped t cu)
  = appended t cu.
Proof.
  unfold appended, addedCellType. f_equal.
  destruct (ICellUpdate.cell_type cu) as [ty|].
  - destruct (decide (ty = lit "markdown")) as [->|Hmd].
    + by rewrite decide_True.
    + rewrite (decide_False (P := Some ty = Some (lit "markdown")))
        by congruence.
      destruct (decide (ty = lit "code")) as [->|Hc].
      * by rewrite decide_True.
      * by rewrite decide_False by congruence.
  - by rewrite !decide_False by done.
Qed.

Lemma yourCodePrefix_eq cellType :
  yourCodePrefix cellType = lit "# YOUR CODE" ++ [LF; LF].
Proof. unfold yourCodePrefix. by destruct (decide _). Qed.

Lemma widgets_markCellAsUpdated id p :
  widgets (markCellAsUpdated id p) = widgets p.
Proof. unfold markCellAsUpdated. by destruct (includes _ _). Qed.

Lemma isDisposed_markCellAsUpdated id p :
  isDisposed (markCellAsUpdated id p) = isDisposed p.
Proof. unfold markCellAsUpdated. by destruct (includes _ _). Qed.

Lemma markCellAsUpdated_elem_of id p :
  id ∈ updatedCells (markCellAsUpdated id p).
Proof.
  unfold markCellAsUpdated.
  destruct (includes (getUpdatedCells p) id) eqn:Hinc; simpl.
  - apply includes_true in Hinc. unfold getUpdatedCells in Hinc.
    destruct (isDisposed p); [by apply elem_of_nil in Hinc|done].
  - apply elem_of_app. right. by apply list_elem_of_singleton.
Qed.

(** *** One round of the loop *)

Lemma getSource_eq w i c :
  widgets (panel w) !! i = Some c → getSource i w = (w, Some (Cell.source c)).
Proof.
  intros Hl. unfold getSource, widgetAt, bind, gets, defined, ret. simpl.
  by rewrite Hl.
Qed.

Lemma setSource_eq w i c s :
  widgets (panel w) !! i = Some c →
  setSource i s w
  = ({| panel :=
          set_widgets (λ ws, <[i := Cell.mk (Cell.cell_type c) s]> ws)
            (panel w);
        log := log w; now := now w |}, Some tt).
Proof.
  intros Hl. unfold setSource, widgetAt, bind, gets, defined, onPanel. simpl.
  by rewrite Hl.
Qed.

Lemma setActiveCellIndex_live w i :
  isDisposed (panel w) = false →
  setActiveCellIndex i w
  = ({| panel := set_activeCellIndex i (panel w); log := log w;
        now := now w |}, Some tt).
Proof.
  intros Hlive. unfold setActiveCellIndex, bind, gets, onPanel. simpl.
  by rewrite Hlive.
Qed.

(** The cells after the steps of a first update, when the cell type of the
    update is markdown and when it is not. *)
Lemma first_update_cells L R (old : Cell.t) (cellType s1 s2 : jsstring) :
  <[length L + 1 := Cell.mk (Cell.cell_type old) s2]>
    (<[length L := Cell.mk cellType s1]>
       (alter (λ c, Cell.mk cellType (Cell.source c)) (length L)
          (L ++ Cell.mk (lit "code") [] :: old :: R)))
  = L ++ [Cell.mk cellType s1; Cell.mk (Cell.cell_type old) s2] ++ R
  ∧ <[length L + 1 := Cell.mk (Cell.cell_type old) s2]>
      (<[length L := Cell.mk (lit "code") s1]>
         (L ++ Cell.mk (lit "code") [] :: old :: R))
    = L ++ [Cell.mk (lit "code") s1; Cell.mk (Cell.cell_type old) s2] ++ R.
Proof.
  split.
  - by rewrite alter_middle, insert_middle, insert_middle_next.
  - by rewrite insert_middle, insert_middle_next.
Qed.

(** A first update of a cell of a live notebook. *)
Lemma applyCellUpdate_first w m t uc cu id i old :
  isDisposed (panel w) = false → findCell m cu = Some (id, i) →
  includes uc id = false → widgets (panel w) !! i = Some old →
  applyCellUpdate m t uc cu w =
  ({| panel :=
        set_activeCellIndex (i + 1)
          (markCellAsUpdated id
             (set_widgets (λ ws,
                take i ws ++ [kept cu old; overwritten t cu old] ++
                drop (S i) ws)
                (set_activeCellIndex i (panel w))));
      log := log w; now := now w |}, Some tt).
Proof.
  destruct w as [[d ws a n pu ucs] lg nw]. cbn [panel isDisposed widgets].
  intros -> Hf Hinc Hl.
  destruct (split_at _ _ _ Hl) as (L & R & -> & <- & HL & HR & HR').
  destruct (first_update_cells L R old (lit "markdown")
              (lit "# YOUR CODE" ++ [LF; LF] ++ Cell.source old)
              (stamped t cu)) as [Hmarkdown Hcode].
  unfold applyCellUpdate. rewrite Hf, Hinc. cbn [negb]. cbv zeta.
  rewrite cellUpdateSource_stamped, yourCodePrefix_eq.
  erewrite bind_Some; [|by apply getSource_eq].
  erewrite bind_Some; [|by apply setActiveCellIndex_live].
  unfold insertAbove at 1. erewrite bind_Some; [|reflexivity].
  unfold set_widgets, set_activeCellIndex.
  cbn [panel isDisposed widgets activeCellIndex notebookId pendingUpdates
       updatedCells log now].
  rewrite HL, HR, HR'.
  unfold kept, overwritten.
  destruct (decide (or_default (ICellUpdate.cell_type cu) (lit "code")
                    = lit "markdown")) as [Hmd|Hmd].
  - rewrite (decide_True (P := ICellUpdate.cell_type cu = Some _))
      by by apply markdown_cellType.
    rewrite Hmd. unfold changeCellType at 1.
    erewrite bind_Some; [|reflexivity].
    unfold set_widgets.
    cbn [panel isDisposed widgets activeCellIndex notebookId pendingUpdates
         updatedCells log now].
    erewrite bind_Some;
      [|apply setSource_eq; cbn [panel widgets];
        by rewrite alter_middle, list_lookup_middle].
    unfold set_widgets.
    cbn [panel isDisposed widgets activeCellIndex notebookId pendingUpdates
         updatedCells log now Cell.cell_type].
    erewrite bind_Some;
      [|apply setSource_eq; cbn [panel widgets];
        rewrite alter_middle, insert_middle; apply lookup_middle_next].
    unfold set_widgets.
    cbn [panel isDisposed widgets activeCellIndex notebookId pendingUpdates
         updatedCells log now Cell.cell_type].
    rewrite <- app_assoc, Hmarkdown.
    unfold onPanel at 1. erewrite bind_Some; [|reflexivity].
    cbn [panel log now].
    rewrite setActiveCellIndex_live; [done|]. cbn [panel].
    by rewrite isDisposed_markCellAsUpdated.
  - rewrite (decide_False (P := ICellUpdate.cell_type cu = Some _))
      by by rewrite <- markdown_cellType.
    erewrite bind_Some; [|reflexivity].
    erewrite bind_Some;
      [|apply setSource_eq; cbn [panel widgets];
        by rewrite list_lookup_middle].
    unfold set_widgets.
    cbn [panel isDisposed widgets activeCellIndex notebookId pendingUpdates
         updatedCells log now Cell.cell_type].
    erewrite bind_Some;
      [|apply setSource_eq; cbn [panel widgets];
        rewrite insert_middle; apply lookup_middle_next].
    unfold set_widgets.
    cbn [panel isDisposed widgets activeCellIndex notebookId pendingUpdates
         updatedCells log now Cell.cell_type].
    rewrite <- app_assoc, Hcode.
    unfold onPanel at 1. erewrite bind_Some; [|reflexivity].
    cbn [panel log now].
    rewrite setActiveCellIndex_live; [done|]. cbn [panel].
    by rewrite isDisposed_markCellAsUpdated.
Qed.

(** A later update of a cell of a live notebook. *)
Lemma applyCellUpdate_again w m t uc cu id i old :
  isDisposed (panel w) = false → findCell m cu = Some (id, i) →
  includes uc id = true → widgets (panel w) !! i = Some old →
  applyCellUpdate m t uc cu w =
  ({| panel :=
        set_activeCellIndex i
          (set_widgets (λ ws, <[i := overwritten t cu old]> ws) (panel w));
      log := log w; now := now w |}, Some tt).
Proof.
  intros Hlive Hf Hinc Hl.
  unfold applyCellUpdate. rewrite Hf, Hinc. cbn [negb]. cbv zeta.
  rewrite cellUpdateSource_stamped.
  erewrite bind_Some; [|by apply setSource_eq].
  by rewrite setActiveCellIndex_live.
Qed.

(** An update for no cell of the mapping. *)
Lemma applyCellUpdate_unknown w m t uc cu :
  findCell m cu = None →
  applyCellUpdate m t uc cu w =
  ({| panel :=
        if isDisposed (panel w) then panel w
        else set_widgets (λ ws, ws ++ [appended t cu]) (panel w);
      log := log w; now := now w |}, Some tt).
Proof.
  intros Hf. unfold applyCellUpdate. rewrite Hf. cbv zeta.
  rewrite cellUpdateSource_stamped. unfold addCell, onPanel.
  cbn [ICellUpdate.cell_type ICellUpdate.source].
  by rewrite addedCellType_appended.
Qed.

(** A target beyond the cells of the notebook: reading the cell throws, and
    nothing has been changed. *)
Lemma applyCellUpdate_no_widget w m t uc cu id i :
  findCell m cu = Some (id, i) → widgets (panel w) !! i = None →
  applyCellUpdate m t uc cu w = (w, None).
Proof.
  intros Hf Hl. unfold applyCellUpdate. rewrite Hf.
  destruct (includes uc id); simpl;
    unfold getSource, setSource, widgetAt, bind, gets, defined; simpl;
    by rewrite Hl.
Qed.

(** A first update on a disposed notebook: the content of the target is
    read, if there is one, and making it the active cell throws before
    anything has been changed. *)
Lemma applyCellUpdate_first_disposed w m t uc cu id i :
  findCell m cu = Some (id, i) → includes uc id = false →
  isDisposed (panel w) = true →
  applyCellUpdate m t uc cu w = (w, None).
Proof.
  intros Hf Hinc Hd. unfold applyCellUpdate. rewrite Hf, Hinc. simpl.
  unfold getSource, widgetAt, setActiveCellIndex, bind, gets, defined, ret.
  simpl. destruct (widgets (panel w) !! i); [|done]. by rewrite Hd.
Qed.

Lemma findCell_Some m cu id i :
  findCell m cu = Some (id, i) ↔
  ICellUpdate.id cu = Some id ∧ lastIndexOf m id = Some i.
Proof.
  unfold findCell. destruct (ICellUpdate.id cu) as [id'|].
  - destruct (lastIndexOf m id') as [k|] eqn:Hk.
    + split; [by intros [= <- <-]|]. intros [[= <-] Hi]. congruence.
    + split; [done|]. intros [[= <-] Hi]. congruence.
  - split; [done|]. by intros [? _].
Qed.

Lemma findCell_None m cu :
  findCell m cu = None ↔ ∀ id, ICellUpdate.id cu = Some id → id ∉ m.
Proof.
  unfold findCell. destruct (ICellUpdate.id cu) as [id'|]; [|done].
  destruct (lastIndexOf m id') as [k|] eqn:Hk.
  - split; [done|]. intros Hn. exfalso. apply (Hn id' eq_refl).
    apply lastIndexOf_Some in Hk as [Hk _]. by eapply list_elem_of_lookup_2.
  - apply lastIndexOf_None in Hk. split; [|done]. by intros _ id [= <-].
Qed.

(** *** The loop *)

Lemma forOf_app {A} (l1 l2 : list A) (body : A → M unit) w :
  forOf (l1 ++ l2) body w = (run forOf l1 body ; forOf l2 body) w.
Proof.
  revert w. induction l1 as [|x l1 IH]; intros w; [done|].
  simpl. unfold bind in *. destruct (body x w) as [w' [[]|]]; [|done].
  apply IH.
Qed.

(** Over an array without undefined entries. *)
Lemma forOf_defined {A} (l : list A) (body : A → M unit) w :
  forOf (Some <$> l) (λ x, do x <- defined x ; body x) w = forOf l body w.
Proof.
  revert w. induction l as [|x l IH]; intros w; [done|].
  simpl. unfold bind, defined in *. destruct (body x w) as [w' [[]|]]; [|done].
  apply IH.
Qed.

(** A loop that has not thrown has met no undefined entry. *)
Lemma loop_entries w l w0 w1 :
  loop w l w0 = (w1, Some tt) → ∃ cellUpdates, l = Some <$> cellUpdates.
Proof.
  revert w0. induction l as [|[cu|] l IH]; intros w0.
  - by exists [].
  - unfold loop. simpl. unfold bind, defined.
    destruct (applyCellUpdate _ _ _ cu w0) as [w' [[]|]]; [|done].
    intros Hl. destruct (IH w' Hl) as [cellUpdates ->].
    by exists (cu :: cellUpdates).
  - unfold loop. simpl. unfold bind, defined. done.
Qed.

(** The round of a cell update whose turn has come. *)
Lemma loop_round w before w1 cu after :
  turn w before w1 →
  loop w (before ++ Some cu :: after) w
  = (run applyCellUpdate (getOrigCellMapping (panel w))
           (toLocaleString (now w)) (getUpdatedCells (panel w)) cu ;
     loop w after) w1.
Proof.
  intros Hturn. unfold loop. rewrite forOf_app.
  erewrite bind_Some; [|exact Hturn]. done.
Qed.

Lemma loop_round_done w before w1 cu w2 :
  turn w before w1 →
  applyCellUpdate (getOrigCellMapping (panel w)) (toLocaleString (now w))
    (getUpdatedCells (panel w)) cu w1 = (w2, Some tt) →
  turn w (before ++ [Some cu]) w2.
Proof.
  intros Hturn Happly. unfold turn. rewrite (loop_round w before w1) by done.
  erewrite bind_Some; [|exact Happly]. done.
Qed.

Lemma loop_round_thrown w before w1 cu after w2 :
  turn w before w1 →
  applyCellUpdate (getOrigCellMapping (panel w)) (toLocaleString (now w))
    (getUpdatedCells (panel w)) cu w1 = (w2, None) →
  loop w (before ++ Some cu :: after) w = (w2, None).
Proof.
  intros Hturn Happly. rewrite (loop_round w before w1) by done.
  by erewrite bind_None.
Qed.

(** *** The whole update *)

Lemma forOf_log {A} (l : list A) action (cellId sender : A → option jsstring)
    (senderType : A → option SenderType) (updateId : A → option jsstring) w :
  ∃ posted,
    forOf l (λ x, logPendingUpdateInteraction action (cellId x) (sender x)
                    (senderType x) (updateId x)) w
    = ({| panel := panel w; log := log w ++ posted; now := now w |}, Some tt)
    ∧ Forall (λ r, Interaction.action r = action) posted.
Proof.
  revert w. induction l as [|x l IH]; intros w; simpl.
  - exists []. split; [|done]. unfold ret. destruct w; simpl.
    by rewrite app_nil_r.
  - unfold bind. rewrite logPendingUpdateInteraction_eq.
    destruct (IH {| panel := panel w;
                    log := log w ++ posted action (cellId x) (sender x)
                                      (senderType x) (updateId x) w;
                    now := now w |}) as (lg & -> & Hlg).
    simpl. eexists. rewrite <- app_assoc. split; [done|].
    apply Forall_app. split; [|done]. unfold posted.
    destruct (truthy PERSISTENT_USER_ID && truthy (notebookId (panel w)));
      by repeat constructor.
Qed.

Lemma updateNotebookContent_try_eq newContent updateId cellId sender
    senderType skipLogging w :
  updateNotebookContent_try newContent updateId cellId sender senderType
    skipLogging w =
  match Content.cells newContent with
  | None => (w, None)
  | Some cellUpdates =>
      match loop w cellUpdates w with
      | (w1, Some _) =>
          (if negb skipLogging && truthy updateId && truthy PERSISTENT_USER_ID
              && truthy (notebookId (panel w1))
           then
             forOf cellUpdates (λ cellUpdate,
               do cellUpdate <- defined cellUpdate ;
               logPendingUpdateInteraction APPLY_SINGLE
                 (or_else cellId
                    (or_else (ICellUpdate.id cellUpdate)
                       (ICellUpdate.cell_id cellUpdate)))
                 sender senderType updateId)
           else ret tt) w1
      | (w1, None) => (w1, None)
      end
  end.
Proof.
  unfold updateNotebookContent_try, loop, bind, defined, gets. simpl.
  destruct (Content.cells newContent) as [cellUpdates|]; [|done].
  by destruct (forOf cellUpdates _ w) as [w1 [[]|]].
Qed.

(** When the cells have been updated without a fault, the update as a whole
    only adds to the log. *)
Lemma updateNotebookContent_try_done newContent updateId cellId sender
    senderType skipLogging w cellUpdates w1 :
  Content.cells newContent = Some cellUpdates →
  turn w cellUpdates w1 →
  ∃ posted,
    updateNotebookContent_try newContent updateId cellId sender senderType
      skipLogging w
    = ({| panel := panel w1; log := log w1 ++ posted; now := now w1 |}, Some tt)
    ∧ Forall (λ r, Interaction.action r = APPLY_SINGLE) posted
    ∧ (skipLogging = true → posted = []).
Proof.
  intros Hcells Hloop. rewrite updateNotebookContent_try_eq, Hcells, Hloop.
  destruct (negb skipLogging && truthy updateId && truthy PERSISTENT_USER_ID
            && truthy (notebookId (panel w1))) eqn:Hcond.
  - destruct (loop_entries _ _ _ _ Hloop) as [cus ->].
    rewrite forOf_defined.
    destruct (forOf_log cus APPLY_SINGLE
                (λ cu, or_else cellId
                         (or_else (ICellUpdate.id cu) (ICellUpdate.cell_id cu)))
                (λ _, sender) (λ _, senderType) (λ _, updateId) w1)
      as (lg & Hlg & Hall).
    exists lg. split; [exact Hlg|]. split; [done|].
    intros ->. done.
  - exists []. split; [|done]. unfold ret. destruct w1; simpl.
    by rewrite app_nil_r.
Qed.

Lemma try_catch_Some (c : M unit) w w' :
  c w = (w', Some tt) → try_catch c w = (w', Some tt).
Proof. unfold try_catch. by intros ->. Qed.

Lemma try_catch_None (c : M unit) w w' :
  c w = (w', None) → try_catch c w = (w', Some tt).
Proof. unfold try_catch. by intros ->. Qed.

(** The panel after an update whose loop comes to its end. *)
Lemma updateNotebookContent_done newContent updateId cellId sender
    senderType skipLogging w cellUpdates w1 :
  Content.cells newContent = Some cellUpdates →
  turn w cellUpdates w1 →
  snd (updateNotebookContent_try newContent updateId cellId sender senderType
         skipLogging w) = Some tt
  ∧ panel (exec (updateNotebookContent newContent updateId cellId sender
                   senderType skipLogging) w) = panel w1.
Proof.
  intros Hcells Hloop.
  destruct (updateNotebookContent_try_done newContent updateId cellId sender
              senderType skipLogging w cellUpdates w1 Hcells Hloop)
    as (lg & Htry & _).
  split; [by rewrite Htry|].
  unfold exec, updateNotebookContent.
  by rewrite (try_catch_Some _ _ _ Htry).
Qed.

(** The world after an update whose loop throws: the one the loop has come
    to. Nothing is posted. *)
Lemma updateNotebookContent_thrown newContent updateId cellId sender
    senderType skipLogging w cellUpdates w1 :
  Content.cells newContent = Some cellUpdates →
  loop w cellUpdates w = (w1, None) →
  updateNotebookContent_try newContent updateId cellId sender senderType
    skipLogging w = (w1, None)
  ∧ exec (updateNotebookContent newContent updateId cellId sender
            senderType skipLogging) w = w1.
Proof.
  intros Hcells Hloop.
  assert (updateNotebookContent_try newContent updateId cellId sender
            senderType skipLogging w = (w1, None)) as Htry
    by by rewrite updateNotebookContent_try_eq, Hcells, Hloop.
  split; [done|]. unfold exec, updateNotebookContent.
  by rewrite (try_catch_None _ _ _ Htry).
Qed.

(** C2. The loop of [updateNotebookContent] has come to a cell update whose
    id is in the mapping read before the loop, at the position [i] and at no
    later one, and is not among the updated cells read before the loop. On
    a live notebook with a cell at [i], the round puts at [i] a new cell
    with the content of that cell under the line [# YOUR CODE] and an empty
    line, and in the cell itself, now at [i + 1], the source of the update
    under the line [CELL RECEIVED AT] with the time read before the loop
    (written as a comment unless the update is for a markdown cell) and an
    empty line; the cells before [i], those at earlier occurrences of the id
    among them, and the cells after the target are as they were, and an
    update that ends here leaves the notebook so. On a disposed notebook, or
    with no cell at [i], the round throws and changes nothing, and the
    update ends there. *)
Theorem updateNotebookContent_last_occurrence w before w1 cu id i :
  turn w before w1 →
  ICellUpdate.id cu = Some id →
  getOrigCellMapping (panel w) !! i = Some id →
  (∀ j, i < j → getOrigCellMapping (panel w) !! j ≠ Some id) →
  id ∉ getUpdatedCells (panel w) →
  (∀ old,
     isDisposed (panel w1) = false →
     widgets (panel w1) !! i = Some old →
     ∃ w2,
       turn w (before ++ [Some cu]) w2
       ∧ widgets (panel w2)
         = take i (widgets (panel w1))
           ++ [Cell.mk
                 (if decide (ICellUpdate.cell_type cu = Some (lit "markdown"))
                  then lit "markdown" else lit "code")
                 (lit "# YOUR CODE" ++ [LF; LF] ++ Cell.source old);
               Cell.mk (Cell.cell_type old)
                 ((if decide (ICellUpdate.cell_type cu
                              = Some (lit "markdown"))
                   then lit "CELL RECEIVED AT "
                   else lit "# CELL RECEIVED AT ")
                  ++ toLocaleString (now w) ++ [LF; LF]
                  ++ ICellUpdate.source cu)]
           ++ drop (S i) (widgets (panel w1))
       ∧ (∀ j, j < i → widgets (panel w2) !! j = widgets (panel w1) !! j)
       ∧ ∀ newContent updateId cellId sender senderType skipLogging,
           Content.cells newContent = Some (before ++ [Some cu]) →
           panel (exec (updateNotebookContent newContent updateId cellId
                          sender senderType skipLogging) w) = panel w2)
  ∧ (isDisposed (panel w1) = true ∨ widgets (panel w1) !! i = None →
     ∀ after,
       loop w (before ++ Some cu :: after) w = (w1, None)
       ∧ ∀ newContent updateId cellId sender senderType skipLogging,
           Content.cells newContent = Some (before ++ Some cu :: after) →
           exec (updateNotebookContent newContent updateId cellId sender
                   senderType skipLogging) w = w1).
Proof.
  intros Hturn Hid Hi Hlast Hfirst.
  assert (findCell (getOrigCellMapping (panel w)) cu = Some (id, i)) as Hfind.
  { apply findCell_Some. split; [done|]. by apply lastIndexOf_Some. }
  assert (includes (getUpdatedCells (panel w)) id = false) as Hinc.
  { destruct (includes _ id) eqn:Hinc; [|done].
    by apply includes_true in Hinc. }
  split.
  - intros old Hlive Hold.
    pose proof (applyCellUpdate_first w1 _ (toLocaleString (now w)) _ cu id
                  i old Hlive Hfind Hinc Hold) as Happly.
    pose proof (loop_round_done w before w1 cu _ Hturn Happly) as Hdone.
    eexists. split; [exact Hdone|].
    cbn [panel set_activeCellIndex widgets].
    rewrite widgets_markCellAsUpdated.
    cbn [set_widgets set_activeCellIndex widgets].
    split; [done|]. split.
    + intros j Hj. rewrite lookup_app_l.
      * by rewrite lookup_take_lt.
      * rewrite length_take. apply lookup_lt_Some in Hold. lia.
    + intros newContent updateId cellId sender senderType skipLogging Hcells.
      by destruct (updateNotebookContent_done newContent updateId cellId
                     sender senderType skipLogging w _ _ Hcells Hdone).
  - intros Hnone after.
    assert (applyCellUpdate (getOrigCellMapping (panel w))
              (toLocaleString (now w)) (getUpdatedCells (panel w)) cu w1
            = (w1, None)) as Happly.
    { destruct Hnone as [Hd|Hnone].
      - by eapply applyCellUpdate_first_disposed.
      - by eapply applyCellUpdate_no_widget. }
    pose proof (loop_round_thrown w before w1 cu after _ Hturn Happly)
      as Hthrown.
    split; [done|].
    intros newContent updateId cellId sender senderType skipLogging Hcells.
    by destruct (updateNotebookContent_thrown newContent updateId cellId
                   sender senderType skipLogging w _ _ Hcells Hthrown).
Qed.

(** C5. The loop of [updateNotebookContent] has come to a cell update whose
    id is not in the mapping read before the loop (or which has no id). The
    round does not throw. On a live notebook it adds one cell at the end: a
    markdown cell or a code cell when the update says so, a raw cell
    otherwise, holding the source of the update under the line
    [CELL RECEIVED AT] with the time read before the loop (written as a
    comment unless the update is for a markdown cell) and an empty line. On
    a disposed notebook it adds nothing. The cells that were there, and all
    else, are as they were; an update that ends here does not throw and
    leaves the notebook so. *)
Theorem updateNotebookContent_unknown_cell w before w1 cu :
  turn w before w1 →
  (∀ id, ICellUpdate.id cu = Some id → id ∉ getOrigCellMapping (panel w)) →
  let new :=
    Cell.mk
      (if decide (ICellUpdate.cell_type cu = Some (lit "markdown"))
       then lit "markdown"
       else if decide (ICellUpdate.cell_type cu = Some (lit "code"))
       then lit "code" else lit "raw")
      ((if decide (ICellUpdate.cell_type cu = Some (lit "markdown"))
        then lit "CELL RECEIVED AT " else lit "# CELL RECEIVED AT ")
       ++ toLocaleString (now w) ++ [LF; LF] ++ ICellUpdate.source cu) in
  let w2 :=
    {| panel :=
         if isDisposed (panel w1) then panel w1
         else set_widgets (λ ws, ws ++ [new]) (panel w1);
       log := log w1; now := now w1 |} in
  turn w (before ++ [Some cu]) w2
  ∧ (isDisposed (panel w1) = false →
     widgets (panel w2) = widgets (panel w1) ++ [new]
     ∧ length (widgets (panel w2)) = S (length (widgets (panel w1))))
  ∧ (isDisposed (panel w1) = true → w2 = w1)
  ∧ (∀ j, j < length (widgets (panel w1)) →
          widgets (panel w2) !! j = widgets (panel w1) !! j)
  ∧ ∀ newContent updateId cellId sender senderType skipLogging,
      Content.cells newContent = Some (before ++ [Some cu]) →
      snd (updateNotebookContent_try newContent updateId cellId sender
             senderType skipLogging w) = Some tt
      ∧ panel (exec (updateNotebookContent newContent updateId cellId sender
                       senderType skipLogging) w) = panel w2.
Proof.
  intros Hturn Hunknown new w2.
  apply findCell_None in Hunknown.
  pose proof (applyCellUpdate_unknown w1 _ (toLocaleString (now w))
                (getUpdatedCells (panel w)) cu Hunknown) as Happly.
  pose proof (loop_round_done w before w1 cu _ Hturn Happly) as Hdone.
  split; [exact Hdone|]. subst w2. cbn [panel].
  split; [|split; [|split]].
  - intros ->. cbn [set_widgets widgets]. split; [done|].
    rewrite length_app. simpl. lia.
  - intros ->. by destruct w1.
  - intros j Hj. destruct (isDisposed (panel w1)); [done|].
    cbn [set_widgets widgets]. by apply lookup_app_l.
  - intros newContent updateId cellId sender senderType skipLogging Hcells.
    exact (updateNotebookContent_done newContent updateId cellId sender
             senderType skipLogging w _ _ Hcells Hdone).
Qed.

(** *** What a computation leaves alone *)

Lemma keeps_ret {A B} (f : World → B) (a : A) : keeps f (ret a).
Proof. by intros w. Qed.

Lemma keeps_gets {A B} (f : World → B) (g : World → A) : keeps f (gets g).
Proof. by intros w. Qed.

Lemma keeps_defined {A B} (f : World → B) (v : option A) : keeps f (defined v).
Proof. by intros w. Qed.

Lemma keeps_bind {A B C} (f : World → C) (c : M A) (k : A → M B) :
  keeps f c → (∀ a, keeps f (k a)) → keeps f (bind c k).
Proof.
  intros Hc Hk w. specialize (Hc w). unfold exec, bind in *.
  destruct (c w) as [w' [a|]]; simpl in *; [|done].
  by rewrite <- Hc, <- (Hk a w').
Qed.

Lemma keeps_try_catch {B} (f : World → B) (c : M unit) :
  keeps f c → keeps f (try_catch c).
Proof.
  intros Hc w. specialize (Hc w). unfold exec, try_catch in *.
  by destruct (c w) as [w' [a|]].
Qed.

Lemma keeps_forOf {A B} (f : World → B) (l : list A) (body : A → M unit) :
  (∀ x, keeps f (body x)) → keeps f (forOf l body).
Proof.
  intros Hb. induction l as [|x l IH]; simpl.
  - apply keeps_ret.
  - apply keeps_bind; [apply Hb|]. by intros _.
Qed.

Lemma keeps_onPanel {B} (f : World → B) (g : NotebookPanel → NotebookPanel) :
  (∀ p lg nw, f (mkWorld (g p) lg nw) = f (mkWorld p lg nw)) →
  keeps f (onPanel g).
Proof. intros Hg [p lg nw]. apply Hg. Qed.

Lemma keeps_log_onPanel (g : NotebookPanel → NotebookPanel) :
  keeps log (onPanel g).
Proof. by intros w. Qed.

Lemma keeps_around_log action cellId sender senderType updateId :
  keeps around
    (logPendingUpdateInteraction action cellId sender senderType updateId).
Proof. intros w. unfold exec. by rewrite logPendingUpdateInteraction_eq. Qed.

Lemma keeps_widgetAt {B} (f : World → B) (i : nat) : keeps f (widgetAt i).
Proof. by intros w. Qed.

Lemma keeps_setActiveCellIndex {B} (f : World → B) (i : nat) :
  (∀ p lg nw,
     f (mkWorld (set_activeCellIndex i p) lg nw) = f (mkWorld p lg nw)) →
  keeps f (setActiveCellIndex i).
Proof.
  intros Hf [p lg nw]. unfold exec, setActiveCellIndex, bind, gets. simpl.
  destruct (isDisposed p); [done|]. apply Hf.
Qed.

Ltac keeps_steps :=
  repeat first
    [ apply keeps_ret | apply keeps_gets | apply keeps_defined
    | apply keeps_widgetAt
    | apply keeps_setActiveCellIndex; intros [[] ? ? ? ? ?] ? ?; done
    | apply keeps_log_onPanel | apply keeps_around_log
    | apply keeps_forOf; intros ?
    | apply keeps_try_catch
    | apply keeps_bind; [|intros ?]
    | apply keeps_onPanel; intros [[] ? ? ? ? ?] ? ?; done ].

Lemma keeps_around_markCellAsUpdated id :
  keeps around (onPanel (markCellAsUpdated id)).
Proof.
  apply keeps_onPanel. intros p lg nw. unfold markCellAsUpdated, around.
  simpl. by destruct (includes _ _).
Qed.

Lemma keeps_around_applyCellUpdate m t uc cu :
  keeps around (applyCellUpdate m t uc cu).
Proof.
  unfold applyCellUpdate. destruct (findCell m cu) as [[id i]|].
  - destruct (negb (includes uc id)).
    + unfold getSource, setSource, insertAbove, changeCellType.
      destruct (decide _); keeps_steps; apply keeps_around_markCellAsUpdated.
    + unfold setSource. keeps_steps.
  - unfold addCell. keeps_steps.
Qed.

Lemma keeps_log_applyCellUpdate m t uc cu :
  keeps log (applyCellUpdate m t uc cu).
Proof.
  unfold applyCellUpdate. destruct (findCell m cu) as [[id i]|].
  - destruct (negb (includes uc id)).
    + unfold getSource, setSource, insertAbove, changeCellType.
      destruct (decide _); keeps_steps.
    + unfold setSource. keeps_steps.
  - unfold addCell. keeps_steps.
Qed.

Lemma keeps_log_loop w cellUpdates : keeps log (loop w cellUpdates).
Proof.
  apply keeps_forOf. intros cu. apply keeps_bind; [apply keeps_defined|].
  intros ?. apply keeps_log_applyCellUpdate.
Qed.

Lemma keeps_around_loop w cellUpdates : keeps around (loop w cellUpdates).
Proof.
  apply keeps_forOf. intros cu. apply keeps_bind; [apply keeps_defined|].
  intros ?. apply keeps_around_applyCellUpdate.
Qed.

Lemma keeps_around_updateNotebookContent newContent updateId cellId sender
    senderType skipLogging :
  keeps around
    (updateNotebookContent newContent updateId cellId sender senderType
       skipLogging).
Proof.
  unfold updateNotebookContent, updateNotebookContent_try.
  apply keeps_try_catch.
  apply keeps_bind; [apply keeps_defined|]. intros cellUpdates.
  apply keeps_bind; [apply keeps_gets|]. intros m.
  apply keeps_bind; [apply keeps_gets|]. intros t.
  apply keeps_bind; [apply keeps_gets|]. intros uc.
  apply keeps_bind.
  { apply keeps_forOf. intros cu. apply keeps_bind; [apply keeps_defined|].
    intros ?. apply keeps_around_applyCellUpdate. }
  intros _. apply keeps_bind; [apply keeps_gets|]. intros n.
  destruct (_ && _); keeps_steps.
Qed.

Lemma keeps_log_updateNotebookContent newContent updateId cellId sender
    senderType :
  keeps log
    (updateNotebookContent newContent updateId cellId sender senderType true).
Proof.
  unfold updateNotebookContent, updateNotebookContent_try.
  apply keeps_try_catch.
  apply keeps_bind; [apply keeps_defined|]. intros cellUpdates.
  apply keeps_bind; [apply keeps_gets|]. intros m.
  apply keeps_bind; [apply keeps_gets|]. intros t.
  apply keeps_bind; [apply keeps_gets|]. intros uc.
  apply keeps_bind.
  { apply keeps_forOf. intros cu. apply keeps_bind; [apply keeps_defined|].
    intros ?. apply keeps_log_applyCellUpdate. }
  intros _. apply keeps_bind; [apply keeps_gets|]. intros n.
  simpl. apply keeps_ret.
Qed.

Lemma total_try_catch (c : M unit) w : snd (try_catch c w) = Some tt.
Proof. unfold try_catch. by destruct (c w) as [w' [a|]]. Qed.

Lemma updateNotebookContent_total newContent updateId cellId sender
    senderType skipLogging w :
  snd (updateNotebookContent newContent updateId cellId sender senderType
         skipLogging w) = Some tt.
Proof. apply total_try_catch. Qed.

(** *** Applying a pending update *)

(** Whatever becomes of the update of the notebook, the pending update is
    taken out of the store of a live panel; on a disposed panel the store is
    not touched. *)
Lemma applyPendingUpdate_store pending skipLogging w :
  pendingUpdates (panel (exec (applyPendingUpdate pending skipLogging) w)) =
  if isDisposed (panel w) then pendingUpdates (panel w)
  else filter (λ u, IPendingUpdate.id u ≠ IPendingUpdate.id pending)
         (pendingUpdates (panel w)).
Proof.
  unfold applyPendingUpdate, exec. unfold try_catch at 1. unfold bind at 1.
  destruct (updateNotebookContent _ _ _ _ _ _ w) as [w1 r] eqn:Hupd.
  pose proof (keeps_around_updateNotebookContent
                (IPendingUpdate.message pending) (pendingUpdateId pending)
                (pendingCellId pending) (Some (IPendingUpdate.sender pending))
                (Some (IPendingUpdate.senderType pending)) skipLogging w)
    as Hkeeps.
  pose proof (updateNotebookContent_total
                (IPendingUpdate.message pending) (pendingUpdateId pending)
                (pendingCellId pending) (Some (IPendingUpdate.sender pending))
                (Some (IPendingUpdate.senderType pending)) skipLogging w)
    as Htotal.
  unfold exec in Hkeeps. rewrite Hupd in Hkeeps, Htotal. simpl in *.
  subst r. unfold around in Hkeeps. injection Hkeeps as Hd Hn Hp.
  unfold removePendingUpdate, bind, gets, onPanel, getPendingUpdates. simpl.
  rewrite <- Hd, <- Hp. by destruct (isDisposed (panel w1)).
Qed.

(** Applying a pending update from "Apply All" posts nothing. *)
Lemma applyPendingUpdate_log pending w :
  log (exec (applyPendingUpdate pending true) w) = log w.
Proof.
  revert w. change (keeps log (applyPendingUpdate pending true)).
  unfold applyPendingUpdate. apply keeps_try_catch.
  apply keeps_bind; [apply keeps_log_updateNotebookContent|]. intros _.
  unfold removePendingUpdate.
  apply keeps_bind; [apply keeps_gets|]. intros p.
  destruct (isDisposed p); [apply keeps_ret|].
  apply keeps_bind; [apply keeps_ret|]. intros _. apply keeps_log_onPanel.
Qed.

Lemma applyPendingUpdate_isDisposed pending skipLogging w :
  isDisposed (panel (exec (applyPendingUpdate pending skipLogging) w))
  = isDisposed (panel w).
Proof.
  revert w.
  change (keeps (λ w, isDisposed (panel w))
            (applyPendingUpdate pending skipLogging)).
  unfold applyPendingUpdate. apply keeps_try_catch. apply keeps_bind.
  { intros w.
    pose proof (keeps_around_updateNotebookContent
                  (IPendingUpdate.message pending) (pendingUpdateId pending)
                  (pendingCellId pending)
                  (Some (IPendingUpdate.sender pending))
                  (Some (IPendingUpdate.senderType pending)) skipLogging w)
      as Hkeeps.
    unfold around in Hkeeps. by injection Hkeeps. }
  intros _. unfold removePendingUpdate.
  apply keeps_bind; [apply keeps_gets|]. intros p.
  destruct (isDisposed p); [apply keeps_ret|].
  apply keeps_bind; [apply keeps_ret|]. intros _.
  apply keeps_onPanel. by intros [] lg nw.
Qed.

Lemma exec_forOf_total {A} (l : list A) (body : A → M unit) w :
  (∀ x w, snd (body x w) = Some tt) →
  forOf l body w = (foldl (λ w x, exec (body x) w) w l, Some tt).
Proof.
  intros Htotal. revert w. induction l as [|x l IH]; intros w; simpl.
  - done.
  - unfold bind, exec. specialize (Htotal x w).
    destruct (body x w) as [w' r]. simpl in *. subst r. apply IH.
Qed.

(** *** Apply All *)

Lemma applyAll_log (l : list IPendingUpdate.t) w :
  log (foldl (λ w u, exec (applyPendingUpdate u true) w) w l) = log w.
Proof.
  revert w. induction l as [|u l IH]; intros w; simpl; [done|].
  by rewrite IH, applyPendingUpdate_log.
Qed.

Lemma applyAll_store (l : list IPendingUpdate.t) skipLogging w :
  isDisposed (panel w) = false →
  pendingUpdates
    (panel (foldl (λ w u, exec (applyPendingUpdate u skipLogging) w) w l))
  = filter (λ u, IPendingUpdate.id u ∉ ids l) (pendingUpdates (panel w)).
Proof.
  revert w. induction l as [|x l IH]; intros w Hlive; simpl.
  - induction (pendingUpdates (panel w)) as [|u store IHs]; [done|].
    rewrite filter_cons_True by apply not_elem_of_nil. by f_equal.
  - rewrite IH by (by rewrite applyPendingUpdate_isDisposed).
    rewrite applyPendingUpdate_store, Hlive, list_filter_filter.
    apply list_filter_iff. intros u. rewrite not_elem_of_cons. tauto.
Qed.

Lemma applyAllBtn_onclick_eq sb w first rest :
  _currentPanel sb = true → isDisposed (panel w) = false →
  getFilteredUpdates sb (panel w) = first :: rest →
  applyAllBtn_onclick sb w =
  (foldl (λ w u, exec (applyPendingUpdate u true) w)
     {| panel := panel w;
        log := log w ++
               (if truthy (IPendingUpdate.updateId first) then
                  posted UPDATE_ALL None (Some (IPendingUpdate.sender first))
                    (Some (IPendingUpdate.senderType first))
                    (IPendingUpdate.updateId first) w
                else []);
        now := now w |}
     (first :: rest), Some tt).
Proof.
  intros Hbound Hlive Hview. unfold applyAllBtn_onclick.
  unfold bind at 1. unfold gets. simpl.
  rewrite Hbound, Hlive, Hview. simpl. unfold bind at 1.
  destruct (truthy (IPendingUpdate.updateId first)).
  - rewrite logPendingUpdateInteraction_eq.
    apply (exec_forOf_total (first :: rest)
             (λ u, applyPendingUpdate u true)). intros u w'.
    apply total_try_catch.
  - unfold ret. rewrite app_nil_r.
    replace {| panel := panel w; log := log w; now := now w |} with w
      by by destruct w.
    apply (exec_forOf_total (first :: rest)
             (λ u, applyPendingUpdate u true)). intros u w'.
    apply total_try_catch.
Qed.

(** C9, as the code has it. "Apply All" on a live notebook with a non-empty
    filtered view applies the updates of the view, in the order of the view,
    and no other; it takes them, and nothing else, out of the store. It posts
    at most one record, an UPDATE_ALL record, and no APPLY_SINGLE record: the
    UPDATE_ALL record is posted when the first update of the view has an
    update id and the user id and the notebook id are set, and otherwise
    nothing is posted. *)
Theorem applyAllBtn_onclick_view sb w first rest :
  _currentPanel sb = true → isDisposed (panel w) = false →
  getFilteredUpdates sb (panel w) = first :: rest →
  let view := first :: rest in
  let w' := exec (applyAllBtn_onclick sb) w in
  let logged :=
    if truthy (IPendingUpdate.updateId first) then
      posted UPDATE_ALL None (Some (IPendingUpdate.sender first))
        (Some (IPendingUpdate.senderType first))
        (IPendingUpdate.updateId first) w
    else [] in
  w' = foldl (λ w u, exec (applyPendingUpdate u true) w)
         {| panel := panel w; log := log w ++ logged; now := now w |} view
  ∧ log w' = log w ++ logged
  ∧ (logged = [] ∨ ∃ r, logged = [r] ∧ Interaction.action r = UPDATE_ALL)
  ∧ (truthy (IPendingUpdate.updateId first) = true →
     truthy PERSISTENT_USER_ID = true →
     truthy (notebookId (panel w)) = true →
     ∃ r, logged = [r] ∧ Interaction.action r = UPDATE_ALL
          ∧ Interaction.update_id r = IPendingUpdate.updateId first)
  ∧ withAction APPLY_SINGLE (log w') = withAction APPLY_SINGLE (log w)
  ∧ pendingUpdates (panel w')
    = filter (λ u, IPendingUpdate.id u ∉ ids view) (pendingUpdates (panel w)).
Proof.
  intros Hbound Hlive Hview view w' logged.
  assert (w' = foldl (λ w u, exec (applyPendingUpdate u true) w)
                 {| panel := panel w; log := log w ++ logged; now := now w |}
                 view) as Hw'.
  { unfold w', exec.
    by rewrite (applyAllBtn_onclick_eq sb w first rest Hbound Hlive Hview). }
  assert (logged = [] ∨ ∃ r, logged = [r] ∧ Interaction.action r = UPDATE_ALL)
    as Hlogged.
  { unfold logged, posted.
    destruct (truthy (IPendingUpdate.updateId first)); [|by left].
    destruct (truthy PERSISTENT_USER_ID && truthy (notebookId (panel w)));
      [|by left].
    right. by eexists. }
  split; [done|]. split; [by rewrite Hw', applyAll_log|].
  split; [done|]. split; [|split].
  - intros Hu Huser Hnb. unfold logged, posted. rewrite Hu, Huser, Hnb. simpl.
    by eexists.
  - rewrite Hw', applyAll_log. simpl. unfold withAction.
    rewrite filter_app.
    destruct Hlogged as [->|(r & -> & Hr)]; [by rewrite app_nil_r|].
    rewrite (filter_cons_False _ r) by (rewrite Hr; done).
    by rewrite app_nil_r.
  - rewrite Hw'. by rewrite applyAll_store.
Qed.

End Proofs.

End SyncProps.

(** ** The properties on concrete notebooks and messages *)

Module Scenarios.
Import WebsocketManager Channel ChannelProps NotebookSync SyncSpec SyncProps.
Import Examples.

(** C2 does not hold: with two cells of original id [o1], the update leaves
    the cell at the first occurrence as it is and is applied at the second. *)
Lemma first_occurrence_not_updated :
  let p' :=
    panel (exec (updateNotebookContent (who := user) (env := host [o1; o1])
                   payload None None None None false) twoCells) in
  indexOf [o1; o1] o1 = Some 0
  ∧ widgets p' !! 0 = Some (code "a = 1")
  ∧ widgets p' = [code "a = 1"; yours "b = 2"; received "print(2)"]
  ∧ widgets p' ≠ [yours "a = 1"; received "print(2)"; code "b = 2"].
Proof.
  split; [reflexivity|]. split; [reflexivity|]. split; [reflexivity|].
  intros Heq. discriminate Heq.
Qed.

(** The push of the example on the notebook of two cells of original id
    [o1]; and the second round of an update of the whole notebook, which
    takes its position from the mapping read before the first round. *)
Lemma updateNotebookContent_last_occurrence_witness :
  (let w2 :=
     exec (loop (env := host [o1; o1]) twoCells [Some push])
       twoCells in
   widgets (panel w2) = [code "a = 1"; yours "b = 2"; received "print(2)"]
   ∧ widgets (panel w2) !! 0 = Some (code "a = 1")
   ∧ panel (exec (updateNotebookContent (who := user) (env := host [o1; o1])
                    payload None None None None false) twoCells)
     = panel w2)
  ∧ (let w2 :=
       exec (loop (env := following) twoCells
               [Some forFirst; Some forSecond]) twoCells in
     widgets (panel w2)
     = [yours "a = 1";
        Cell.mk (lit "code")
          (lit "# YOUR CODE" ++ [LF; LF] ++ Cell.source (received "a = 10"));
        received "b = 20";
        code "b = 2"]).
Proof.
  split.
  - intros w2.
    assert (∀ j, 1 < j → [o1; o1] !! j ≠ Some o1) as Hlast.
    { intros [|[|j]] Hj; [lia|lia|]. intros Hj'. discriminate Hj'. }
    destruct (updateNotebookContent_last_occurrence (who := user)
                (env := host [o1; o1]) twoCells [] twoCells push o1 1
                eq_refl eq_refl eq_refl Hlast (not_elem_of_nil o1))
      as [Hfound _].
    destruct (Hfound (code "b = 2") eq_refl eq_refl)
      as (w2' & Hturn & Hwidgets & Hbefore & Hupdate).
    assert (w2 = w2') as -> by (unfold w2, exec; by rewrite Hturn).
    split; [exact Hwidgets|]. split; [exact (Hbefore 0 (le_n 1))|].
    exact (Hupdate payload None None None None false eq_refl).
  - intros w2.
    assert (∀ j, 1 < j → [o1; o2] !! j ≠ Some o2) as Hlast.
    { intros [|[|j]] Hj; [lia|lia|]. intros Hj'. discriminate Hj'. }
    destruct (updateNotebookContent_last_occurrence (who := user)
                (env := following) twoCells [Some forFirst]
                (exec (loop (env := following) twoCells
                         [Some forFirst]) twoCells)
                forSecond o2 1 eq_refl eq_refl eq_refl Hlast
                (not_elem_of_nil o2))
      as [Hfound _].
    destruct (Hfound (received "a = 10") eq_refl eq_refl)
      as (w2' & Hturn & Hwidgets & _).
    assert (w2 = w2') as -> by (unfold w2, exec; by rewrite Hturn).
    exact Hwidgets.
Defined.

(** C1 fails on the code. An "update_notebook" push with an update for [o1]
    and one for [o2], on the notebook of two cells with these original ids.
    When the turn of the second update comes, the first round has put a
    cell above the first cell: the cell of [o2] is the third cell now, [o2]
    is in the mapping of the notebook as it is now, at the third position
    and nowhere else, and is not among the updated cells. The round takes
    the position of [o2] from the mapping read before the loop, the second
    position, where the cell of [o1] is now with the update it has just
    received. That cell is copied under [# YOUR CODE] as if it held the
    user's code, the update for [o2] is written over the update for [o1],
    and the cell of [o2], the fourth cell now, keeps its content, of which
    no copy is kept. *)
Theorem updateNotebookContent_stale_mapping :
  let w := twoCells in
  let w1 :=
    exec (loop (env := following) w [Some forFirst]) w in
  let w2 :=
    exec (updateNotebookContent (who := user) (env := following)
            wholeNotebook None None None None false) w in
  @getOrigCellMapping following (panel w) = [o1; o2]
  ∧ turn (env := following) w [Some forFirst] w1
  ∧ widgets (panel w1) = [yours "a = 1"; received "a = 10"; code "b = 2"]
  ∧ @getOrigCellMapping following (panel w1) = [o1; o1; o2]
  ∧ lastIndexOf (@getOrigCellMapping following (panel w1)) o2 = Some 2
  ∧ widgets (panel w1) !! 2 = Some (code "b = 2")
  ∧ (o2 ∉ getUpdatedCells (panel w1))
  ∧ widgets (panel w2)
    = [yours "a = 1";
       Cell.mk (lit "code")
         (lit "# YOUR CODE" ++ [LF; LF] ++ Cell.source (received "a = 10"));
       received "b = 20";
       code "b = 2"]
  ∧ widgets (panel w2) !! 3 = Some (code "b = 2")
  ∧ (yours "b = 2" ∉ widgets (panel w2))
  ∧ (received "a = 10" ∉ widgets (panel w2))
  ∧ getUpdatedCells (panel w2) = [o1; o2].
Proof.
  intros w w1 w2.
  split; [reflexivity|]. split; [reflexivity|]. split; [reflexivity|].
  split; [reflexivity|]. split; [reflexivity|]. split; [reflexivity|].
  split.
  { intros Hin. apply elem_of_cons in Hin as [Hin|Hin]; [discriminate Hin|].
    by apply elem_of_nil in Hin. }
  split; [reflexivity|]. split; [reflexivity|].
  assert (widgets (panel w2)
          = [yours "a = 1";
             Cell.mk (lit "code")
               (lit "# YOUR CODE" ++ [LF; LF]
                ++ Cell.source (received "a = 10"));
             received "b = 20";
             code "b = 2"]) as -> by reflexivity.
  split; [|split; [|reflexivity]].
  - intros Hin.
    repeat (apply elem_of_cons in Hin as [Hin|Hin]; [discriminate Hin|]).
    by apply elem_of_nil in Hin.
  - intros Hin.
    repeat (apply elem_of_cons in Hin as [Hin|Hin]; [discriminate Hin|]).
    by apply elem_of_nil in Hin.
Qed.

(** C3 fails on the code. First input: the store of a live notebook holds a
    pending update whose payload has no [cells] array; applying it throws
    before any cell is touched, and the pending update is removed from the
    store all the same. Second input: the mapping places [o1] at a position
    where the notebook has no cell; reading the cell throws, and again the
    pending update is removed. *)
Theorem applyPendingUpdate_removes_failed_update :
  (let pending := pendingFor "u1" emptyPayload (Some (lit "u1")) in
   let w := notebook [code "print(1)"] (Some (lit "nb-1")) [pending] in
   updateNotebookContent_try (who := user) (env := host [o1])
     (IPendingUpdate.message pending) (Some (lit "u1")) None
     (Some (lit "teacher")) (Some teacher) false w = (w, None)
   ∧ pendingUpdates (panel w) = [pending]
   ∧ exec (applyPendingUpdate (who := user) (env := host [o1]) pending false) w
     = notebook [code "print(1)"] (Some (lit "nb-1")) [])
  ∧ (let pending := pendingFor "o1" payload (Some (lit "u2")) in
     let w := notebook [code "print(1)"] (Some (lit "nb-1")) [pending] in
     updateNotebookContent_try (who := user) (env := host [lit "o0"; o1])
       (IPendingUpdate.message pending) (Some (lit "u2")) (Some o1)
       (Some (lit "teacher")) (Some teacher) false w = (w, None)
     ∧ pendingUpdates (panel w) = [pending]
     ∧ exec (applyPendingUpdate (who := user) (env := host [lit "o0"; o1])
               pending false) w
       = notebook [code "print(1)"] (Some (lit "nb-1")) []).
Proof. repeat split. Qed.

(** "Update Later" for [o1] while the store already holds an update for
    [o1]. *)
Lemma laterButton_click_upsert_witness :
  let stored := pendingFor "o1" emptyPayload (Some (lit "u0")) in
  let w := notebook [code "print(1)"] (Some (lit "nb-1")) [stored] in
  let click := mkDeferral payload (lit "teacher") teacher (Some o1) (lit "u1") in
  let store' :=
    pendingUpdates
      (panel (exec (laterButton_click (who := user) (env := host [o1])
                      payload (lit "teacher") teacher (Some o1) (lit "u1"))
                w)) in
  store'
  = [IPendingUpdate.mk o1 payload (lit "2026-11-02T10:00:00.000Z")
       (lit "teacher") teacher (Some (lit "u1")) (Some o1)]
  ∧ length store' = 1
  ∧ NoDup (ids (pendingUpdates
                  (panel (foldl (defer (who := user) (env := host [o1])) w
                            [click; click])))).
Proof.
  intros stored w click store'.
  destruct (laterButton_click_upsert (who := user) (env := host [o1]) w
              payload (lit "teacher") teacher (Some o1) (lit "u1"))
    as (Hone & Hlength & Hunique).
  split; [reflexivity|]. split.
  - apply Hlength; [apply NoDup_singleton|]. apply list_elem_of_here.
  - apply Hunique. apply NoDup_singleton.
Defined.

(** The push of the example applied to a notebook in whose mapping [o1] does
    not occur. *)
Lemma updateNotebookContent_unknown_cell_witness :
  let p' :=
    panel (exec (updateNotebookContent (who := user) (env := host [lit "o2"])
                   payload None None None None false) oneCell) in
  snd (updateNotebookContent_try (who := user) (env := host [lit "o2"])
         payload None None None None false oneCell) = Some tt
  ∧ widgets p' = [code "print(1)"; received "print(2)"].
Proof.
  intros p'.
  assert (∀ id, ICellUpdate.id push = Some id → id ∉ [lit "o2"]) as Hunknown.
  { intros id [= <-]. apply not_elem_of_cons. split; [|apply not_elem_of_nil].
    intros Heq. discriminate Heq. }
  destruct (updateNotebookContent_unknown_cell (who := user)
              (env := host [lit "o2"]) oneCell [] oneCell push eq_refl
              Hunknown)
    as (_ & Hlive & _ & _ & Hupdate).
  destruct (Hupdate payload None None None None false eq_refl)
    as (Hok & Hpanel).
  split; [exact Hok|]. unfold p'. rewrite Hpanel.
  exact (proj1 (Hlive eq_refl)).
Defined.

(** C5 does not hold. The push of the example for a notebook in whose
    mapping [o1] does not occur, when the notebook is disposed: the update
    does not throw, and no cell is added. *)
Lemma unknown_cell_on_disposed_notebook :
  let w := disposed oneCell in
  let w' :=
    exec (updateNotebookContent (who := user) (env := host [lit "o2"])
            payload None None None None false) w in
  isDisposed (panel w) = true
  ∧ (o1 ∉ @getOrigCellMapping (host [lit "o2"]) (panel w))
  ∧ updateNotebookContent_try (who := user) (env := host [lit "o2"])
      payload None None None None false w = (w, Some tt)
  ∧ widgets (panel w') = widgets (panel w)
  ∧ length (widgets (panel w')) = 1.
Proof.
  intros w w'. split; [reflexivity|]. split.
  { intros Hin. apply elem_of_cons in Hin as [Hin|Hin]; [discriminate Hin|].
    by apply elem_of_nil in Hin. }
  split; [reflexivity|]. split; reflexivity.
Qed.

(** A connection for [nb-1], then one for [nb-2]; and then one without a
    notebook id. *)
Lemma establishSocketConnection_one_live_witness :
  let st := after (who := user) [Establish (Some (lit "nb-0")) 0] in
  let st2 :=
    establishSocketConnection (who := user) (Some (lit "nb-2")) 0
      (establishSocketConnection (who := user) (Some (lit "nb-1")) 0 st) in
  length (live st) ≤ 1
  ∧ live st2 = [mkSocket (lit "nb-2") (lit "u-42") false]
  ∧ sockets st2 !! 1 = Some (mkSocket (lit "nb-1") (lit "u-42") true)
  ∧ live (establishSocketConnection (who := user) None 0 st2) = [].
Proof.
  intros st st2.
  destruct (establishSocketConnection_one_live (who := user)
              [Establish (Some (lit "nb-0")) 0])
    as (Hone & Htwice & _).
  destruct (Htwice (lit "nb-1") (lit "nb-2") 0 0 (lit "u-42") eq_refl
              ltac:(discriminate) ltac:(discriminate) ltac:(discriminate))
    as (Hlive & _ & _).
  destruct (establishSocketConnection_one_live (who := user)
              [Establish (Some (lit "nb-0")) 0;
               Establish (Some (lit "nb-1")) 0;
               Establish (Some (lit "nb-2")) 0])
    as (_ & _ & Hmissing).
  destruct (Hmissing None 0 (or_introl eq_refl)) as (Hnone & _).
  split; [exact Hone|]. split; [exact Hlive|]. split; [reflexivity|].
  exact Hnone.
Defined.

(** The legacy message of the specification, and a string without the
    prefix. *)
Lemma legacy_payload_normalised_witness :
  on_chat listening (DataString (lit "From alice: hi"))
  = Some (mkInvocation 0 (lit "From alice: hi") (lit "alice") teacher)
  ∧ on_group_chat listening (DataString (lit "From alice: hi"))
    = Some (mkInvocation 0 (lit "From alice: hi") (lit "alice") teammate)
  ∧ on_chat listening (DataString (lit "hello"))
    = Some (mkInvocation 0 (lit "hello") (lit "teacher") teacher)
  ∧ on_group_chat listening (DataString (lit "hello"))
    = Some (mkInvocation 0 (lit "hello") (lit "teammate") teammate).
Proof.
  destruct (legacy_payload_normalised listening 0 eq_refl)
    as (Hfrom & Hdefault).
  assert (Forall (λ c, isSpace c = true) [32%N]) as Hspace
    by (repeat constructor).
  assert (Forall (λ c, notColon c = true) (lit "alice")) as Hpeer
    by (repeat constructor).
  destruct (Hfrom [32%N] (lit "alice") (lit " hi") ltac:(discriminate) Hspace
              ltac:(discriminate) Hpeer) as (Hchat & Hgroup).
  destruct (Hdefault (lit "hello") eq_refl) as (Hchat' & Hgroup').
  split; [exact Hchat|]. split; [exact Hgroup|].
  split; [exact Hchat'|exact Hgroup'].
Defined.

(** C9 does not hold. "Apply All" on a store whose one update has no update
    id, and on a notebook without a notebook id: the view is not empty, the
    update is applied and removed, and no UPDATE_ALL record is posted. *)
Lemma applyAll_without_record :
  (let pending := pendingFor "o1" payload None in
   let w := notebook [code "print(1)"] (Some (lit "nb-1")) [pending] in
   let w' :=
     exec (applyAllBtn_onclick (who := user) (env := host [o1]) allUpdates) w in
   getFilteredUpdates allUpdates (panel w) = [pending]
   ∧ widgets (panel w') = [yours "print(1)"; received "print(2)"]
   ∧ pendingUpdates (panel w') = []
   ∧ length (withAction UPDATE_ALL (log w')) = 0)
  ∧ (let pending := pendingFor "o1" payload (Some (lit "u1")) in
     let w := notebook [code "print(1)"] None [pending] in
     let w' :=
       exec (applyAllBtn_onclick (who := user) (env := host [o1]) allUpdates)
         w in
     getFilteredUpdates allUpdates (panel w) = [pending]
     ∧ widgets (panel w') = [yours "print(1)"; received "print(2)"]
     ∧ pendingUpdates (panel w') = []
     ∧ length (withAction UPDATE_ALL (log w')) = 0).
Proof. repeat split. Qed.

(** "Apply All" on a store with one update that has an update id. *)
Lemma applyAllBtn_onclick_view_witness :
  let pending := pendingFor "o1" payload (Some (lit "u1")) in
  let w := notebook [code "print(1)"] (Some (lit "nb-1")) [pending] in
  let w' :=
    exec (applyAllBtn_onclick (who := user) (env := host [o1]) allUpdates) w in
  length (withAction UPDATE_ALL (log w')) = 1
  ∧ withAction APPLY_SINGLE (log w') = []
  ∧ pendingUpdates (panel w') = [].
Proof.
  intros pending w w'.
  destruct (applyAllBtn_onclick_view (who := user) (env := host [o1])
              allUpdates w pending [] eq_refl eq_refl eq_refl)
    as (_ & Hlog & _ & Hrecord & Hsingle & Hstore).
  destruct (Hrecord eq_refl eq_refl eq_refl) as (r & Hr & Haction & _).
  fold w' in Hlog, Hsingle, Hstore.
  split; [|split; [exact Hsingle|exact Hstore]].
  rewrite Hlog, Hr. simpl. unfold withAction.
  rewrite filter_cons_True by exact Haction. reflexivity.
Defined.

(** Marking [o1] in a notebook where it is marked already. *)
Lemma markCellAsUpdated_idempotent_witness :
  let p := panel (updated oneCell) in
  markCellAsUpdated o1 p = p
  ∧ markCellAsUpdated o1 (markCellAsUpdated o1 p) = markCellAsUpdated o1 p
  ∧ NoDup (updatedCells (markCellAsUpdated o1 p)).
Proof.
  intros p.
  destruct (markCellAsUpdated_idempotent p o1) as (Hsame & Hidem & Hunique).
  split; [|split; [exact Hidem|]].
  - apply Hsame. apply list_elem_of_here.
  - apply Hunique. apply NoDup_singleton.
Defined.

End Scenarios.

(** ** More on the realtime channel *)

Module ChannelMore.
Import WebsocketManager Channel ChannelProps WebsocketSend.

Section Proofs.

Context {Callback : Type} {who : Identity}.
Implicit Types st : State Callback.

(** X1. A payload that is an object is handed to the callback in the same
    way whether it arrives as 'chat' or as 'group_chat': with its message
    and its sender as they are, and as a teacher's exactly when its
    [sender_type] is the string "teacher" (a payload without [sender_type]
    is a teammate's). Without a callback neither event calls anything. *)
Theorem object_payload_normalised st message sender sender_type :
  on_chat st (DataObject message sender sender_type)
  = on_group_chat st (DataObject message sender sender_type)
  ∧ (∀ cb, _messageCallback st = Some cb →
       ∃ senderType,
         on_chat st (DataObject message sender sender_type)
         = Some (mkInvocation cb message sender senderType)
         ∧ (senderType = teacher ↔ sender_type = Some (lit "teacher")))
  ∧ (_messageCallback st = None →
     ∀ data, on_chat st data = None ∧ on_group_chat st data = None).
Proof.
  split; [done|]. split.
  - intros cb Hcb. unfold on_chat. rewrite Hcb. eexists. split; [done|].
    unfold objectSenderType. destruct (decide _); split; done.
  - intros Hcb data. unfold on_chat, on_group_chat. by rewrite Hcb.
Qed.

(** The regular expression, read backwards *)

Lemma reLit_Some (p s rest : jsstring) :
  reLit p s = Some rest → s = p ++ rest.
Proof.
  revert s. induction p as [|a p IH]; intros s; simpl.
  - by intros [= ->].
  - destruct s as [|b s]; [done|]. destruct (decide (a = b)) as [->|]; [|done].
    intros Hs. by rewrite (IH s Hs).
Qed.

Lemma rePlus_Some {A} (cls : N → bool) (s acc : jsstring)
    (k : jsstring → jsstring → option A) (r : A) :
  rePlus cls s acc k = Some r →
  ∃ taken rest, s = taken ++ rest ∧ taken ≠ []
                ∧ Forall (λ c, cls c = true) taken
                ∧ k (acc ++ taken) rest = Some r.
Proof.
  revert acc. induction s as [|c s IH]; intros acc; simpl; [done|].
  destruct (cls c) eqn:Hc; [|done].
  destruct (rePlus cls s (acc ++ [c]) k) as [r'|] eqn:Hrec.
  - intros [= ->]. destruct (IH _ Hrec) as (taken & rest & -> & _ & Hall & Hk).
    exists (c :: taken), rest. split; [done|]. split; [done|].
    split; [by constructor|]. by rewrite <- app_assoc in Hk.
  - intros Hk. exists [c], s. split; [done|]. split; [done|].
    split; [by repeat constructor|done].
Qed.

Lemma matchFrom_Some (data group : jsstring) :
  matchFrom data = Some group →
  ∃ ws rest,
    data = lit "From" ++ ws ++ group ++ 58%N :: rest
    ∧ ws ≠ [] ∧ Forall (λ c, isSpace c = true) ws
    ∧ group ≠ [] ∧ Forall (λ c, notColon c = true) group.
Proof.
  unfold matchFrom. destruct (reLit (lit "From") data) as [s|] eqn:Hlit;
    [|done].
  apply reLit_Some in Hlit as ->. intros Hm.
  apply rePlus_Some in Hm as (ws & s1 & -> & Hws & Hsp & Hm).
  apply rePlus_Some in Hm as (g & s2 & -> & Hg & Hnc & Hm).
  unfold reColon in Hm. destruct s2 as [|c s2]; [done|].
  destruct (N.eqb_spec c 58) as [->|]; [|done]. injection Hm as <-.
  exists ws, s2. by rewrite <- ?app_assoc.
Qed.

Lemma trimStart_suffix (s : jsstring) : ∃ ws, s = ws ++ trimStart s.
Proof.
  induction s as [|c s [ws IH]]; simpl; [by exists []|].
  destruct (isSpace c); [|by exists []].
  exists (c :: ws). simpl. by f_equal.
Qed.

Lemma Forall_trim (P : N → Prop) (s : jsstring) :
  Forall P s → Forall P (trim s).
Proof.
  intros Hs. unfold trim, trimEnd.
  assert (∀ t, Forall P t → Forall P (trimStart t)) as Hstart.
  { intros t Ht. destruct (trimStart_suffix t) as [ws Hws].
    rewrite Hws in Ht. by apply Forall_app in Ht as [_ Ht]. }
  apply Forall_rev, Hstart, Forall_rev, Hstart, Hs.
Qed.

(** X2. The pattern that reads the sender of a legacy payload matches
    exactly the texts that begin with "From", white space, a peer id
    without a colon and a colon; the sender it gives is the captured text
    without the white space around it and contains no colon; and a payload
    the pattern does not match has the default sender. *)
Theorem matchFrom_shape (default data : jsstring) :
  (is_Some (matchFrom data) ↔
   ∃ ws peerId rest,
     data = lit "From" ++ ws ++ peerId ++ 58%N :: rest
     ∧ ws ≠ [] ∧ Forall (λ c, isSpace c = true) ws
     ∧ peerId ≠ [] ∧ Forall (λ c, notColon c = true) peerId)
  ∧ (matchFrom data = None → legacySender default data = default)
  ∧ (∀ group, matchFrom data = Some group →
       legacySender default data = trim group
       ∧ Forall (λ c, notColon c = true) (legacySender default data)).
Proof.
  split; [split|split].
  - intros [g Hg]. apply matchFrom_Some in Hg as (ws & rest & Hd & H1 & H2 & H3 & H4).
    by exists ws, g, rest.
  - intros (ws & p & rest & -> & Hws & Hsp & Hp & Hnc).
    unfold matchFrom.
    change (reLit (lit "From") (lit "From" ++ ?s)) with (Some s).
    destruct ws as [|w ws]; [done|]. inversion Hsp as [|? ? Hw Hsp']; subst.
    rewrite <- app_comm_cons, app_assoc.
    apply rePlus_isSpace_matches; [done|by destruct ws, p|].
    apply Forall_app. split; [|done].
    eapply Forall_impl; [exact Hsp'|]. apply isSpace_notColon.
  - intros Hno. unfold legacySender. by rewrite Hno.
  - intros g Hg. unfold legacySender. rewrite Hg.
    apply matchFrom_Some in Hg as (ws & rest & _ & _ & _ & Hne & Hnc).
    destruct g as [|c g]; [done|]. split; [done|]. by apply Forall_trim.
Qed.

(** Sending *)

Lemma new_holds_open : holds_open (new (Callback := Callback)).
Proof. by intros h. Qed.

Lemma perform_holds_open st (c : Call Callback) :
  holds_open (perform st c).
Proof.
  destruct c as [notebookId onMessage|]; simpl; [|by intros h].
  rewrite establishSocketConnection_unfold. cbv zeta.
  destruct (truthy notebookId && truthy PERSISTENT_USER_ID); [|by intros h].
  intros h [= <-]. simpl. eexists. split; [by apply list_lookup_middle|done].
Qed.

Lemma after_holds_open (calls : list (Call Callback)) :
  holds_open (after calls).
Proof.
  destruct calls as [|c calls _] using rev_ind; [apply new_holds_open|].
  unfold after. rewrite foldl_app. simpl. apply perform_holds_open.
Qed.

Lemma live_held st h s :
  held_only st → _socket st = Some h → sockets st !! h = Some s →
  closed s = false → live st = [s].
Proof.
  intros Hheld Hh Hs Hcl. unfold live.
  assert (∀ j s', sockets st !! j = Some s' → closed s' = false → j = h)
    as Honly.
  { intros j s' Hj Hs'. specialize (Hheld j s' Hj Hs'). congruence. }
  clear Hheld Hh. revert Hs Honly. generalize (sockets st).
  intros l. revert h. induction l as [|x l IH]; intros h Hs Honly; [done|].
  destruct h as [|h]; simpl in Hs.
  - injection Hs as ->. rewrite filter_cons_True by done. f_equal.
    apply filter_open_closed. apply Forall_lookup. intros j y Hj.
    destruct (closed y) eqn:Hy; [done|].
    by specialize (Honly (S j) y Hj Hy).
  - rewrite filter_cons_False.
    2:{ intros Hx. by specialize (Honly 0 x eq_refl Hx). }
    apply (IH h Hs). intros j s' Hj Hs'.
    specialize (Honly (S j) s' Hj Hs'). lia.
Qed.

Lemma live_none st : held_only st → _socket st = None → live st = [].
Proof.
  intros Hheld Hnone. unfold live. apply filter_open_closed.
  apply Forall_lookup. intros j y Hj. destruct (closed y) eqn:Hy; [done|].
  specialize (Hheld j y Hj Hy). congruence.
Qed.

(** X3. Whatever calls have been made on the manager, a message for the
    teammates and a location update are emitted on the same socket, the one
    socket that is open, each as the event of its name with the arguments
    of the call; and nothing is emitted exactly when no socket is open:
    after [closeSocketConnection], or after [establishSocketConnection]
    without a notebook id or a user id. *)
Theorem emit_on_open_socket (calls : list (Call Callback))
    (userId message cellId : jsstring) (cellIndex : option nat) :
  let st := after calls in
  match sendMessageToTeammates userId message st with
  | Some (h, e) =>
      e = group_message userId message
      ∧ sendLocationUpdate cellId cellIndex st
        = Some (h, update_location cellId cellIndex)
      ∧ ∃ s, sockets st !! h = Some s ∧ closed s = false ∧ live st = [s]
  | None =>
      sendLocationUpdate cellId cellIndex st = None ∧ live st = []
  end.
Proof.
  intros st. pose proof (after_held calls) as Hheld.
  pose proof (after_holds_open calls) as Hopen. fold st in Hheld, Hopen.
  unfold sendMessageToTeammates, sendLocationUpdate.
  destruct (_socket st) as [h|] eqn:Hh.
  - split; [done|]. split; [done|].
    destruct (Hopen h Hh) as (s & Hs & Hcl). exists s.
    split; [done|]. split; [done|]. by eapply live_held.
  - split; [done|]. by apply live_none.
Qed.

End Proofs.

End ChannelMore.

(** ** The [Map] of JavaScript *)

Module JsMapProps.

Section Proofs.

Context {K V : Type} `{EqDecision K}.
Implicit Types m : list (K * V).

Lemma keys_set k v m :
  JsMap.keys (JsMap.set k v m)
  = if decide (k ∈ JsMap.keys m) then JsMap.keys m else JsMap.keys m ++ [k].
Proof.
  unfold JsMap.keys. induction m as [|[k' v'] m IH]; csimpl.
  - destruct (decide (k ∈ [])) as [Hin|]; [by apply elem_of_nil in Hin|done].
  - destruct (decide (k' = k)) as [->|Hne]; csimpl.
    + rewrite decide_True by apply list_elem_of_here. done.
    + rewrite IH. destruct (decide (k ∈ fst <$> m)) as [Hin|Hout].
      * rewrite decide_True by by apply list_elem_of_further. done.
      * rewrite decide_False; [done|].
        rewrite elem_of_cons. intros [->|]; done.
Qed.

Lemma keys_delete k m :
  NoDup (JsMap.keys m) →
  JsMap.keys (JsMap.delete k m) = filter (λ k', k' ≠ k) (JsMap.keys m).
Proof.
  unfold JsMap.keys. induction m as [|[k' v'] m IH]; csimpl; [done|].
  intros [Hk' Hnd]%NoDup_cons. destruct (decide (k' = k)) as [->|Hne].
  - rewrite filter_cons_False by (intros Hx; by apply Hx).
    clear IH. induction (fst <$> m) as [|x l IHl]; [done|].
    apply not_elem_of_cons in Hk' as [Hx Hl]. apply NoDup_cons in Hnd as [_ Hnd].
    rewrite filter_cons_True by done. f_equal. by apply IHl.
  - rewrite filter_cons_True by done. simpl. f_equal. by apply IH.
Qed.

Lemma get_Some k v m :
  NoDup (JsMap.keys m) → JsMap.get k m = Some v ↔ (k, v) ∈ m.
Proof.
  unfold JsMap.keys. induction m as [|[k' v'] m IH]; csimpl.
  - intros _. split; [done|]. by intros ?%elem_of_nil.
  - intros [Hk' Hnd]%NoDup_cons. rewrite elem_of_cons.
    destruct (decide (k' = k)) as [->|Hne].
    + split; [intros [= ->]; by left|]. intros [[= ->]|Hin]; [done|].
      exfalso. apply Hk'. apply list_elem_of_fmap. by exists (k, v).
    + rewrite (IH Hnd). split; [by right|]. intros [[= -> ->]|Hin]; done.
Qed.

Lemma get_None k m : JsMap.get k m = None ↔ k ∉ JsMap.keys m.
Proof.
  unfold JsMap.keys. induction m as [|[k' v'] m IH]; csimpl.
  - split; [intros _; apply not_elem_of_nil|done].
  - rewrite not_elem_of_cons. destruct (decide (k' = k)) as [->|Hne].
    + split; [done|]. by intros [? _].
    + rewrite IH. split; [by split|by intros [_ ?]].
Qed.

Lemma get_set k k' v m :
  JsMap.get k' (JsMap.set k v m)
  = if decide (k' = k) then Some v else JsMap.get k' m.
Proof.
  induction m as [|[k0 v0] m IH]; csimpl.
  - destruct (decide (k = k')) as [->|]; [by rewrite decide_True|].
    by rewrite decide_False by done.
  - destruct (decide (k0 = k)) as [->|Hne]; csimpl.
    + destruct (decide (k = k')) as [->|]; [by rewrite decide_True|].
      by rewrite decide_False by done.
    + destruct (decide (k0 = k')) as [->|]; [by rewrite decide_False|].
      apply IH.
Qed.

Lemma get_delete k k' m :
  NoDup (JsMap.keys m) →
  JsMap.get k' (JsMap.delete k m)
  = if decide (k' = k) then None else JsMap.get k' m.
Proof.
  unfold JsMap.keys. induction m as [|[k0 v0] m IH]; csimpl.
  - by destruct (decide (k' = k)).
  - intros [Hk0 Hnd]%NoDup_cons. destruct (decide (k0 = k)) as [->|Hne]; csimpl.
    + destruct (decide (k = k')) as [->|Hkk].
      * rewrite decide_True by done. by apply get_None.
      * by rewrite decide_False by done.
    + destruct (decide (k0 = k')) as [->|].
      * by rewrite decide_False by done.
      * by apply IH.
Qed.

Lemma delete_set_fresh k v m :
  k ∉ JsMap.keys m → JsMap.delete k (JsMap.set k v m) = m.
Proof.
  unfold JsMap.keys. induction m as [|[k0 v0] m IH]; csimpl.
  - intros _. by rewrite decide_True.
  - intros [Hk Hm]%not_elem_of_cons. rewrite decide_False by done. csimpl.
    rewrite decide_False by done. f_equal. by apply IH.
Qed.

End Proofs.

End JsMapProps.

(** ** teammateLocationTracker.ts: the locations of the teammates *)

Module TrackerProps.
Import LocationTracker TrackerSpec JsMapProps.

Lemma keyed_set (location : ITeammateLocation.t) m :
  keyed m → keyed (JsMap.set (ITeammateLocation.userId location) location m).
Proof.
  unfold keyed. induction 1 as [|[k v] m Hk Hm IH]; simpl.
  - by repeat constructor.
  - destruct (decide (k = _)); constructor; done.
Qed.

Lemma keyed_delete (userId : jsstring) m :
  keyed m → keyed (JsMap.delete userId m).
Proof.
  unfold keyed. induction 1 as [|[k v] m Hk Hm IH]; simpl; [done|].
  destruct (decide (k = userId)); [done|]. by constructor.
Qed.

Lemma filter_ne_fresh (userId : jsstring) (l : list jsstring) :
  userId ∉ l → filter (λ id, id ≠ userId) l = l.
Proof.
  induction l as [|x l IH]; [done|].
  intros [Hx Hl]%not_elem_of_cons. rewrite filter_cons_True by done.
  f_equal. by apply IH.
Qed.

Lemma unbound_consistent : consistent unbound.
Proof.
  repeat split; simpl; try constructor. by intros x ?%elem_of_nil.
Qed.

Lemma updateTeammateLocation_consistent location tr :
  consistent tr → consistent (updateTeammateLocation location tr).
Proof.
  intros (Hloc & Hkey & Hcon & Hsub).
  unfold consistent, located, updateTeammateLocation in *. simpl.
  set (u := ITeammateLocation.userId location).
  rewrite keys_set. split; [|split; [by apply keyed_set|split]].
  - destruct (decide (u ∈ _)) as [|Hout]; [done|].
    apply NoDup_app. split; [done|]. split; [|apply NoDup_singleton].
    intros x Hx ->%list_elem_of_singleton. done.
  - destruct (includes _ u) eqn:Hinc; [done|].
    apply includes_false in Hinc.
    apply NoDup_app. split; [done|]. split; [|apply NoDup_singleton].
    intros x Hx ->%list_elem_of_singleton. done.
  - intros x Hx.
    assert (x ∈ JsMap.keys (_teammateLocations tr) ∨ x = u) as [Hin| ->].
    { destruct (decide (u ∈ _)); [by left|].
      apply elem_of_app in Hx as [?| ->%list_elem_of_singleton]; [by left|by right]. }
    + specialize (Hsub x Hin).
      destruct (includes _ u); [done|]. apply elem_of_app. by left.
    + destruct (includes _ u) eqn:Hinc.
      * by apply includes_true in Hinc.
      * apply elem_of_app. right. by apply list_elem_of_singleton.
Qed.

Lemma removeTeammateLocation_consistent userId tr :
  consistent tr → consistent (removeTeammateLocation userId tr).
Proof.
  intros (Hloc & Hkey & Hcon & Hsub).
  unfold consistent, located, removeTeammateLocation in *. simpl.
  rewrite keys_delete by done.
  split; [by apply NoDup_filter|]. split; [by apply keyed_delete|].
  split; [by apply NoDup_filter|].
  intros x [Hx Hin]%list_elem_of_filter. apply list_elem_of_filter.
  split; [done|]. by apply Hsub.
Qed.

Lemma handle_consistent tr e : consistent tr → consistent (handle tr e).
Proof.
  destruct e; simpl;
    [apply updateTeammateLocation_consistent
    |apply removeTeammateLocation_consistent].
Qed.

Lemma handle_headings tr e : _headings (handle tr e) = _headings tr.
Proof. by destruct e. Qed.

(** X4. Whatever location events arrive, in whatever order, the tracker
    keeps one location per teammate, stored under the id of that teammate;
    the list of connected teammates has no teammate twice and contains
    every teammate with a location, so that the number of teammates shown
    online is never below the number of teammates with a dot. The headings
    are not touched. *)
Theorem location_events_consistent (tr : Tracker)
    (events : list LocationEvent) :
  consistent tr →
  let tr' := foldl handle tr events in
  consistent tr'
  ∧ length (located tr') ≤ length (_connectedTeammates tr')
  ∧ _headings tr' = _headings tr.
Proof.
  intros Htr tr'.
  assert (consistent tr' ∧ _headings tr' = _headings tr) as [Hcons Hh].
  { subst tr'. induction events as [|e events IH] using rev_ind; [done|].
    rewrite foldl_app. simpl. destruct IH as [IH1 IH2].
    split; [by apply handle_consistent|]. by rewrite handle_headings. }
  split; [done|]. split; [|done].
  destruct Hcons as (Hnd & _ & _ & Hsub).
  apply submseteq_length. by apply NoDup_submseteq.
Qed.

(** The last heading for the original cell of a heading of the outline. *)
Lemma sameOrigin_last tr heading :
  heading ∈ _headings tr →
  ∃ lastHeading,
    last (sameOrigin tr heading) = Some lastHeading
    ∧ lastHeading ∈ _headings tr
    ∧ IHeading.origCellId lastHeading = IHeading.origCellId heading.
Proof.
  intros Hin.
  assert (heading ∈ sameOrigin tr heading) as Hsame
    by by apply list_elem_of_filter.
  destruct (last (sameOrigin tr heading)) as [lastHeading|] eqn:Hlast.
  - exists lastHeading. split; [done|].
    apply last_Some_elem_of in Hlast. by apply list_elem_of_filter in Hlast as [? ?].
  - apply last_None in Hlast. rewrite Hlast in Hsame.
    by apply elem_of_nil in Hsame.
Qed.

Lemma sameOrigin_eq tr (h1 h2 : IHeading.t) :
  IHeading.origCellId h1 = IHeading.origCellId h2 →
  sameOrigin tr h1 = sameOrigin tr h2.
Proof. unfold sameOrigin. by intros ->. Qed.

Lemma _getTeammatesAtCell_eq tr heading :
  _getTeammatesAtCell tr heading =
  match last (sameOrigin tr heading) with
  | None => None
  | Some lastHeading =>
      if decide (IHeading.cellId heading ≠ IHeading.cellId lastHeading)
      then Some []
      else
        Some (fst <$>
                filter (λ e, ITeammateLocation.cellId e.2
                             = IHeading.origCellId heading)
                  (_teammateLocations tr))
  end.
Proof. done. Qed.

Lemma _getTeammatesAtCell_elem_of tr heading teammates (userId : jsstring) :
  _getTeammatesAtCell tr heading = Some teammates →
  userId ∈ teammates ↔
  marked tr heading
  ∧ ∃ location, (userId, location) ∈ _teammateLocations tr
                ∧ ITeammateLocation.cellId location
                  = IHeading.origCellId heading.
Proof.
  rewrite _getTeammatesAtCell_eq. unfold marked.
  destruct (last (sameOrigin tr heading)) as [lastHeading|]; [|done].
  destruct (decide (_ ≠ _)) as [Hne|Heq%dec_stable]; intros [= <-].
  - split; [by intros ?%elem_of_nil|].
    intros [(l & [= <-] & Hl) _]. done.
  - rewrite list_elem_of_fmap. split.
    + intros ([u loc] & -> & [Hloc Hin]%list_elem_of_filter).
      split; [by exists lastHeading|]. by exists loc.
    + intros [_ (loc & Hin & Hloc)]. exists (userId, loc).
      split; [done|]. by apply list_elem_of_filter.
Qed.

Lemma _getTeammatesAtCell_returns tr heading :
  heading ∈ _headings tr →
  ∃ teammates, _getTeammatesAtCell tr heading = Some teammates.
Proof.
  intros Hin. destruct (sameOrigin_last tr heading Hin)
    as (lastHeading & Hlast & _).
  rewrite _getTeammatesAtCell_eq, Hlast. destruct (decide (_ ≠ _)); eauto.
Qed.

(** X5. For a heading of the outline, [_getTeammatesAtCell] returns (it
    reads no property of an undefined value). A teammate is in its result
    exactly when the heading has the cell id of the last heading of the
    outline for the same original cell and the teammate's location is that
    original cell; every original cell of the outline has such a heading, so
    the dot of a teammate on a cell of the outline is shown; and no teammate
    is listed twice when the map has one entry per teammate. *)
Theorem _getTeammatesAtCell_of_outline (tr : Tracker) (heading : IHeading.t) :
  heading ∈ _headings tr →
  ∃ teammates lastHeading,
    _getTeammatesAtCell tr heading = Some teammates
    ∧ (∀ userId,
         userId ∈ teammates ↔
         marked tr heading
         ∧ ∃ location, (userId, location) ∈ _teammateLocations tr
                       ∧ ITeammateLocation.cellId location
                         = IHeading.origCellId heading)
    ∧ lastHeading ∈ _headings tr
    ∧ IHeading.origCellId lastHeading = IHeading.origCellId heading
    ∧ marked tr lastHeading
    ∧ (NoDup (located tr) → NoDup teammates).
Proof.
  intros Hin. destruct (sameOrigin_last tr heading Hin)
    as (lastHeading & Hlast & Hlin & Horig).
  destruct (_getTeammatesAtCell tr heading) as [teammates|] eqn:Hget.
  2:{ rewrite _getTeammatesAtCell_eq, Hlast in Hget.
      by destruct (decide (_ ≠ _)). }
  exists teammates, lastHeading. split; [done|].
  split; [intros u; by apply _getTeammatesAtCell_elem_of|].
  split; [done|]. split; [done|]. split.
  - exists lastHeading. by rewrite (sameOrigin_eq tr _ _ Horig).
  - intros Hnd. rewrite _getTeammatesAtCell_eq, Hlast in Hget.
    destruct (decide (_ ≠ _)); injection Hget as <-; [constructor|].
    eapply sublist_NoDup; [exact Hnd|]. apply fmap_sublist, sublist_filter.
Qed.

Lemma elem_of_set_keyed (userId : jsstring) (loc location : ITeammateLocation.t) m :
  NoDup (JsMap.keys m) →
  (userId, loc) ∈ JsMap.set (ITeammateLocation.userId location) location m ↔
  if decide (userId = ITeammateLocation.userId location) then loc = location
  else (userId, loc) ∈ m.
Proof.
  intros Hnd.
  assert (NoDup (JsMap.keys
                   (JsMap.set (ITeammateLocation.userId location) location m)))
    as Hnd'.
  { rewrite keys_set. destruct (decide (_ ∈ _)); [done|].
    apply NoDup_app. split; [done|]. split; [|apply NoDup_singleton].
    intros x Hx ->%list_elem_of_singleton. done. }
  rewrite <- (get_Some _ _ _ Hnd'), get_set.
  destruct (decide (userId = _)); [|by apply get_Some].
  split; [by intros [= ->]|by intros ->].
Qed.

(** X6. After the event that a teammate is at a cell, the outline shows the
    teammate at a heading exactly when that heading is for the reported cell
    (and is the one the dots of that cell go to): wherever the teammate was
    shown before, they are shown there no longer. After the event that the
    location of a teammate is cleared, no heading shows the teammate. *)
Theorem teammate_shown_where_last_reported (tr : Tracker)
    (heading : IHeading.t) (location : ITeammateLocation.t) :
  NoDup (located tr) →
  heading ∈ _headings tr →
  let userId := ITeammateLocation.userId location in
  (∃ teammates,
     _getTeammatesAtCell (updateTeammateLocation location tr) heading
     = Some teammates
     ∧ (userId ∈ teammates ↔
        marked tr heading
        ∧ ITeammateLocation.cellId location = IHeading.origCellId heading))
  ∧ (∃ teammates,
       _getTeammatesAtCell (removeTeammateLocation userId tr) heading
       = Some teammates
       ∧ userId ∉ teammates).
Proof.
  intros Hnd Hin userId. split.
  - destruct (_getTeammatesAtCell_returns
                (updateTeammateLocation location tr) heading Hin)
      as (teammates & Hget).
    exists teammates. split; [done|].
    rewrite (_getTeammatesAtCell_elem_of _ _ _ _ Hget).
    change (marked (updateTeammateLocation location tr) heading)
      with (marked tr heading).
    split.
    + intros [Hm (loc & Hloc & Hcell)]. split; [done|].
      simpl in Hloc. apply elem_of_set_keyed in Hloc; [|done].
      rewrite decide_True in Hloc by done. by subst loc.
    + intros [Hm Hcell]. split; [done|]. exists location. split; [|done].
      simpl. apply elem_of_set_keyed; [done|]. by rewrite decide_True.
  - destruct (_getTeammatesAtCell_returns
                (removeTeammateLocation userId tr) heading Hin)
      as (teammates & Hget).
    exists teammates. split; [done|].
    rewrite (_getTeammatesAtCell_elem_of _ _ _ _ Hget).
    intros [_ (loc & Hloc & _)]. simpl in Hloc.
    assert (NoDup (JsMap.keys (JsMap.delete userId (_teammateLocations tr))))
      as Hnd'.
    { rewrite keys_delete by done. by apply NoDup_filter. }
    apply (get_Some _ _ _ Hnd') in Hloc.
    rewrite get_delete, decide_True in Hloc by done. done.
Qed.

(** X7. A location event for a teammate the tracker did not know, followed
    by the event that clears the location of that teammate, leaves the
    tracker as it was. *)
Theorem removeTeammateLocation_undoes_update (tr : Tracker)
    (location : ITeammateLocation.t) :
  let userId := ITeammateLocation.userId location in
  userId ∉ located tr →
  userId ∉ _connectedTeammates tr →
  removeTeammateLocation userId (updateTeammateLocation location tr) = tr.
Proof.
  intros userId Hloc Hcon. destruct tr as [panel locs connected headings].
  unfold removeTeammateLocation, updateTeammateLocation, located in *.
  simpl in *. fold userId.
  rewrite delete_set_fresh by done.
  apply includes_false in Hcon as Hinc. rewrite Hinc.
  rewrite filter_app, filter_ne_fresh by done.
  rewrite filter_cons_False by (intros Hx; by apply Hx).
  by rewrite filter_nil, app_nil_r.
Qed.

Lemma storeLocations_snoc (locations : list ITeammateLocation.t)
    (location : ITeammateLocation.t) tr :
  _teammateLocations (storeLocations (locations ++ [location]) tr)
  = JsMap.set (ITeammateLocation.userId location) location
      (_teammateLocations (storeLocations locations tr)).
Proof. simpl. by rewrite foldl_app. Qed.

(** X8. The locations fetched from the backend replace the map: afterwards
    it has one entry per teammate of the fetched array, under the id of
    that teammate, and for a teammate that the array reports more than once
    the last report is the one kept. *)
Theorem storeLocations_last_report (locations : list ITeammateLocation.t)
    (tr : Tracker) :
  let tr' := storeLocations locations tr in
  NoDup (located tr')
  ∧ keyed (_teammateLocations tr')
  ∧ (∀ userId,
       userId ∈ located tr' ↔ userId ∈ ITeammateLocation.userId <$> locations)
  ∧ (∀ userId,
       JsMap.get userId (_teammateLocations tr')
       = last (filter (λ location, ITeammateLocation.userId location = userId)
                 locations)).
Proof.
  induction locations as [|location locations IH] using rev_ind.
  - simpl. split; [constructor|]. split; [constructor|]. split; [done|done].
  - cbv zeta in *. destruct IH as (Hnd & Hkey & Hdom & Hget).
    unfold located in *. rewrite storeLocations_snoc, keys_set.
    set (u := ITeammateLocation.userId location). split; [|split; [|split]].
    + destruct (decide (u ∈ _)); [done|].
      apply NoDup_app. split; [done|]. split; [|apply NoDup_singleton].
      intros x Hx ->%list_elem_of_singleton. done.
    + by apply keyed_set.
    + intros x. rewrite fmap_app, elem_of_app. simpl.
      rewrite list_elem_of_singleton, <- Hdom. fold u.
      destruct (decide (u ∈ _)) as [Hu|Hu].
      * split; [by left|]. intros [?| ->]; done.
      * by rewrite elem_of_app, list_elem_of_singleton.
    + intros x. rewrite get_set, filter_app, Hget. fold u.
      destruct (decide (x = u)) as [->|Hne].
      * rewrite filter_cons_True by done. by rewrite filter_nil, last_snoc.
      * rewrite filter_cons_False by (intros Hx; by apply Hne).
        by rewrite filter_nil, app_nil_r.
Qed.

(** *** The colour of a teammate *)

Lemma toInt32_range (z : Z) : (- 2 ^ 31 ≤ toInt32 z < 2 ^ 31)%Z.
Proof.
  unfold toInt32.
  pose proof (Z.mod_pos_bound (z + 2 ^ 31) (2 ^ 32) eq_refl). lia.
Qed.

Lemma hashStep_bound (hash : Z) (c : N) :
  (c < 65536)%N →
  (Z.abs (shl5 hash - hash) ≤ Z.abs hash + 2 ^ 31
   ∧ Z.abs (hashStep hash c) ≤ Z.abs hash + (2 ^ 31 + 2 ^ 16))%Z.
Proof.
  intros Hc. unfold hashStep, shl5.
  pose proof (toInt32_range (toInt32 hash * 32)). lia.
Qed.

Lemma userHash_snoc (userId : jsstring) (c : N) :
  userHash (userId ++ [c]) = hashStep (userHash userId) c.
Proof. unfold userHash. by rewrite foldl_app. Qed.

Lemma userHash_bound (userId : jsstring) :
  Forall (λ c, (c < 65536)%N) userId →
  (Z.abs (userHash userId) ≤ hashBound (length userId))%Z.
Proof.
  unfold hashBound.
  induction userId as [|c userId IH] using rev_ind; intros Hall; [done|].
  apply Forall_app in Hall as [Hall Hc]. inversion_clear Hc as [|? ? Hc' _].
  rewrite userHash_snoc, length_app. simpl.
  pose proof (hashStep_bound (userHash userId) c Hc') as [_ Hstep].
  specialize (IH Hall). lia.
Qed.

Lemma decimal_degrees (n : nat) :
  n < 360 → degrees (JsNumber.decimal n) = true.
Proof.
  intros Hn.
  assert (forallb (λ n, degrees (JsNumber.decimal n)) (seq 0 360) = true)
    as Hall by (vm_compute; reflexivity).
  rewrite forallb_forall in Hall. apply Hall, in_seq. lia.
Qed.

(** X9. For a user id of UTF-16 code units that is short enough (up to
    4194175 code units), every value the hash of [_getUserColor] takes
    while the loop runs, and the difference [(hash << 5) - hash] computed
    in each round, stays below 2^53 in absolute value, so that the
    arithmetic of the loop is exact; the hue is a whole number of degrees
    from 0 to 359, and the colour is [hsl(] followed by the one to three
    decimal digits of the hue and by [, 70%, 50%)]. *)
Theorem _getUserColor_hue (userId : jsstring) :
  Forall (λ c, (c < 65536)%N) userId →
  (hashBound (S (length userId)) < MAX_SAFE)%Z →
  (∀ n, let hash := userHash (take n userId) in
        (Z.abs hash < MAX_SAFE ∧ Z.abs (shl5 hash - hash) < MAX_SAFE)%Z)
  ∧ (0 ≤ userHue userId < 360)%Z
  ∧ ∃ digits,
      _getUserColor userId = lit "hsl(" ++ digits ++ lit ", 70%, 50%)"
      ∧ degrees digits = true.
Proof.
  intros Hall Hlen.
  assert (0 ≤ userHue userId < 360)%Z as Hhue.
  { unfold userHue. apply Z.mod_pos_bound. lia. }
  split; [|split; [done|]].
  2:{ eexists. split; [done|]. apply decimal_degrees. lia. }
  intros n hash.
  assert (Z.abs hash ≤ hashBound (length userId))%Z as Hh.
  { etransitivity; [apply userHash_bound, Forall_take, Hall|].
    unfold hashBound. rewrite length_take. lia. }
  pose proof (toInt32_range (toInt32 hash * 32)) as Hshl.
  fold (shl5 hash) in Hshl. unfold hashBound, MAX_SAFE in *. lia.
Qed.

(** *** The outline *)

Lemma reAtMost_Some {A} (n : nat) (cls : N → bool) (s acc : jsstring)
    (k : jsstring → jsstring → option A) (r : A) :
  reAtMost n cls s acc k = Some r →
  ∃ taken rest, s = taken ++ rest ∧ length taken ≤ n
                ∧ k (acc ++ taken) rest = Some r.
Proof.
  revert s acc. induction n as [|n IH]; intros s acc; simpl.
  - intros Hk. exists [], s. rewrite (app_nil_r acc).
    split; [done|]. split; [simpl; lia|done].
  - destruct s as [|c s].
    + intros Hk. exists [], []. rewrite (app_nil_r acc).
      split; [done|]. split; [simpl; lia|done].
    + assert (k acc (c :: s) = Some r →
              ∃ taken rest, c :: s = taken ++ rest ∧ length taken ≤ S n
                            ∧ k (acc ++ taken) rest = Some r) as Hstop.
      { intros Hk. exists [], (c :: s). rewrite (app_nil_r acc).
        split; [done|]. split; [simpl; lia|done]. }
      destruct (cls c); [|done].
      destruct (reAtMost n cls s (acc ++ [c]) k) as [r'|] eqn:Hrec; [|done].
      intros [= ->]. apply IH in Hrec as (taken & rest & -> & Hlen & Hk).
      exists (c :: taken), rest. rewrite <- app_assoc in Hk.
      split; [done|]. split; [simpl; lia|done].
Qed.

Lemma matchHeader_Some (line hashes text : jsstring) :
  matchHeader line = Some (hashes, text) → 1 ≤ length hashes ≤ 6.
Proof.
  unfold matchHeader. destruct line as [|c s]; [done|].
  destruct (isHash c); [|done]. intros Hm.
  apply reAtMost_Some in Hm as (taken & rest & -> & Hlen & Hm).
  apply ChannelMore.rePlus_Some in Hm as (ws & rest1 & -> & _ & _ & Hm).
  apply ChannelMore.rePlus_Some in Hm as (t & rest2 & -> & _ & _ & Hm).
  injection Hm as <- <-. simpl. lia.
Qed.

Lemma firstHeader_Some lines level text :
  firstHeader lines = Some (level, text) → 1 ≤ level ≤ 6.
Proof.
  induction lines as [|line lines IH]; simpl; [done|].
  destruct (matchHeader line) as [[hashes t]|] eqn:Hm; [|done].
  intros [= <- _]. by eapply matchHeader_Some.
Qed.

Lemma trim_length (source : jsstring) :
  (0 <? length (trim source)) = true ↔ trim source ≠ [].
Proof.
  destruct (trim source); simpl; [by split|]. by split.
Qed.

(** One round of the loop adds no heading, or one heading for the cell. *)
Lemma headingsOfCell_spec m hs i cell all :
  all !! i = Some cell →
  headingsOfCell m hs i cell = hs
  ∨ ∃ h, headingsOfCell m hs i cell = hs ++ [h]
         ∧ IHeading.cellIndex h = i ∧ headingOf m all h.
Proof.
  intros Hcell. unfold headingsOfCell. cbv zeta.
  fold (origCellIdAt m i cell).
  destruct (decide (CellModel.type cell = lit "markdown")) as [Hmd|Hnmd].
  - destruct (firstHeader (split (CellModel.source cell)))
      as [[level text]|] eqn:Hfirst.
    + right.
      assert (existsb (λ h, bool_decide (IHeading.cellId h = CellModel.id cell))
                (hs ++ [IHeading.mk text level (CellModel.id cell)
                          (origCellIdAt m i cell) i header]) = true) as ->.
      { rewrite existsb_app. simpl. rewrite bool_decide_eq_true_2 by done.
        by rewrite orb_true_r. }
      simpl. eexists. split; [done|]. split; [done|].
      exists cell. simpl. repeat (split; [done|]).
      by apply firstHeader_Some in Hfirst.
    + destruct (existsb _ hs); simpl; [by left|].
      destruct (0 <? length (trim (CellModel.source cell))) eqn:Hlen;
        [|by left].
      right. eexists. split; [done|]. split; [done|].
      exists cell. simpl. repeat (split; [done|]).
      split; [by apply trim_length|done].
  - destruct (decide (CellModel.type cell = lit "code")) as [Hcode|];
      [|by left].
    destruct (0 <? length (trim (CellModel.source cell))) eqn:Hlen;
      [|by left].
    right. eexists. split; [done|]. split; [done|].
    exists cell. simpl. repeat (split; [done|]). by apply trim_length.
Qed.

Lemma headingsFrom_spec m all cells :
  ∀ i hs,
    (∀ j cell, cells !! j = Some cell → all !! (i + j) = Some cell) →
    ∃ new,
      headingsFrom m i cells hs = hs ++ new
      ∧ Forall (λ h, i ≤ IHeading.cellIndex h) new
      ∧ StronglySorted lt (IHeading.cellIndex <$> new)
      ∧ Forall (headingOf m all) new.
Proof.
  induction cells as [|cell cells IH]; intros i hs Hall; simpl.
  - exists []. rewrite app_nil_r. repeat split; constructor.
  - assert (all !! i = Some cell) as Hcell.
    { rewrite <- (Nat.add_0_r i). by apply Hall. }
    destruct (IH (S i) (headingsOfCell m hs i cell)) as (new & -> & Hge & Hs & Hof).
    { intros j c Hj. replace (S i + j) with (i + S j) by lia. by apply Hall. }
    destruct (headingsOfCell_spec m hs i cell all Hcell)
      as [->|(h & -> & Hi & Hh)].
    + exists new. split; [done|]. split; [|done].
      eapply Forall_impl; [exact Hge|]. simpl. lia.
    + exists (h :: new). rewrite <- app_assoc. split; [done|].
      split; [|split].
      * constructor; [lia|]. eapply Forall_impl; [exact Hge|]. simpl. lia.
      * rewrite fmap_cons. constructor; [done|].
        apply Forall_fmap. eapply Forall_impl; [exact Hge|]. simpl. lia.
      * by constructor.
Qed.

(** X10. The outline [_generateHeadings] makes has at most one heading per
    cell, in the order of the cells (the cell indices of the headings
    increase strictly); every heading stands for a cell of the notebook,
    with the id of that cell, the original id the mapping has at the index
    of the cell (the id of the cell when the mapping has none) and the type
    of the cell: a header of level 1 to 6 or the first line, at level 7, of a
    markdown cell that is not blank and has no header, or the first line, at
    level 7, of a code cell that is not blank. Without a panel the outline is
    empty. *)
Theorem _generateHeadings_outline (origCellMapping : list jsstring)
    (cells : list CellModel.t) (tr : Tracker) :
  let headings := _headings (_generateHeadings origCellMapping cells tr) in
  StronglySorted lt (IHeading.cellIndex <$> headings)
  ∧ Forall (headingOf origCellMapping cells) headings
  ∧ (if _notebookPanel tr then True else headings = []).
Proof.
  simpl. destruct (_notebookPanel tr); [|by repeat constructor].
  destruct (headingsFrom_spec origCellMapping cells cells 0 [])
    as (new & -> & _ & Hs & Hof); [done|]. done.
Qed.

Lemma headingsFrom_complete m all cells :
  NoDup (CellModel.id <$> all) →
  ∀ i hs,
    (∀ j cell, cells !! j = Some cell → all !! (i + j) = Some cell) →
    Forall (λ h, IHeading.cellIndex h < i ∧ headingOf m all h) hs →
    ∀ j cell,
      cells !! j = Some cell → shown cell →
      ∃ h, h ∈ headingsFrom m i cells hs ∧ IHeading.cellIndex h = i + j.
Proof.
  intros Hnd. induction cells as [|c cells IH]; intros i hs Hall Hhs j cell;
    [done|].
  assert (all !! i = Some c) as Hc.
  { rewrite <- (Nat.add_0_r i). by apply Hall. }
  assert (∀ j cell, cells !! j = Some cell → all !! (S i + j) = Some cell)
    as Hall'.
  { intros k d Hk. replace (S i + k) with (i + S k) by lia. by apply Hall. }
  assert (Forall (λ h, IHeading.cellIndex h < S i ∧ headingOf m all h)
            (headingsOfCell m hs i c)) as Hhs'.
  { destruct (headingsOfCell_spec m hs i c all Hc) as [->|(h & -> & Hi & Hh)].
    - eapply Forall_impl; [exact Hhs|]. simpl. intros h [? ?]. split; [lia|done].
    - apply Forall_app. split.
      + eapply Forall_impl; [exact Hhs|]. simpl. intros ? [? ?].
        split; [lia|done].
      + constructor; [split; [lia|done]|constructor]. }
  destruct j as [|j]; simpl.
  - intros [= ->] [Htype Hsrc]. rewrite Nat.add_0_r.
    assert (∃ h, headingsOfCell m hs i cell = hs ++ [h]
                 ∧ IHeading.cellIndex h = i) as (h & Hadd & Hi).
    { apply trim_length in Hsrc. unfold headingsOfCell. cbv zeta.
      destruct (decide (CellModel.type cell = lit "markdown")) as [Hmd|Hnmd].
      - destruct (firstHeader _) as [[level text]|].
        + rewrite existsb_app. simpl. rewrite bool_decide_eq_true_2 by done.
          rewrite orb_true_r. simpl. by eexists.
        + assert (existsb (λ h, bool_decide
                                  (IHeading.cellId h = CellModel.id cell)) hs
                  = false) as ->.
          { apply not_true_is_false. intros Hex.
            apply existsb_exists in Hex as (h & Hh & Hid).
            apply bool_decide_eq_true in Hid.
            apply list_elem_of_In in Hh.
            rewrite Forall_forall in Hhs.
            destruct (Hhs h Hh) as [Hlt (c' & Hc' & Hid' & _)].
            assert (IHeading.cellIndex h = i); [|lia].
            apply (NoDup_lookup _ _ _ (CellModel.id cell) Hnd);
              rewrite list_lookup_fmap; [rewrite Hc'|rewrite Hc];
              simpl; congruence. }
          rewrite Hsrc. simpl. by eexists.
      - destruct Htype as [?|Hcode]; [done|].
        rewrite decide_True by done. rewrite Hsrc. by eexists. }
    rewrite Hadd.
    destruct (headingsFrom_spec m all cells (S i) (hs ++ [h]) Hall')
      as (new & -> & _).
    exists h. split; [|done]. rewrite !elem_of_app.
    left. right. by apply list_elem_of_singleton.
  - intros Hj Hshown.
    destruct (IH (S i) (headingsOfCell m hs i c) Hall' Hhs' j cell Hj Hshown)
      as (h & Hin & Hi).
    exists h. split; [done|]. lia.
Qed.

(** X11. In a notebook whose cells have distinct ids, every markdown or
    code cell whose source is not blank has a heading in the outline. *)
Theorem _generateHeadings_complete (origCellMapping : list jsstring)
    (cells : list CellModel.t) (tr : Tracker) (i : nat) (cell : CellModel.t) :
  _notebookPanel tr = true →
  NoDup (CellModel.id <$> cells) →
  cells !! i = Some cell →
  shown cell →
  ∃ h, h ∈ _headings (_generateHeadings origCellMapping cells tr)
       ∧ IHeading.cellIndex h = i
       ∧ IHeading.cellId h = CellModel.id cell.
Proof.
  intros Hpanel Hnd Hcell Hshown. simpl. rewrite Hpanel.
  destruct (headingsFrom_complete origCellMapping cells cells Hnd 0 [])
    with (j := i) (cell := cell) as (h & Hin & Hi); try done.
  exists h. split; [done|]. split; [done|].
  destruct (headingsFrom_spec origCellMapping cells cells 0 [])
    as (new & Hnew & _ & _ & Hof); [done|].
  rewrite Hnew in Hin. simpl in Hin. rewrite Forall_forall in Hof.
  destruct (Hof h Hin) as (c & Hc & Hid & _).
  simpl in Hi. rewrite Hi, Hcell in Hc. by injection Hc as <-.
Qed.

End TrackerProps.

(** ** notebookSync.ts: the pending updates *)

Module MoreSyncProps.
Import NotebookSync SyncSpec SyncMore MoreSpec SyncProps JsMapProps.

Section Proofs.

Context {who : Identity} {env : Host} {dates : Dates} {json : Json}.

Lemma filter_all {A} (P : A → Prop) `{∀ x, Decision (P x)} (l : list A) :
  Forall P l → filter P l = l.
Proof.
  induction 1 as [|x l Hx _ IH]; [done|].
  rewrite filter_cons_True by done. by f_equal.
Qed.

Lemma filter_idemp {A} (P : A → Prop) `{∀ x, Decision (P x)} (l : list A) :
  filter P (filter P l) = filter P l.
Proof.
  apply filter_all, Forall_forall. by intros x [? _]%list_elem_of_filter.
Qed.

Lemma filter_iff_elem_of {A} (P Q : A → Prop) `{∀ x, Decision (P x)}
    `{∀ x, Decision (Q x)} (l : list A) :
  (∀ x, x ∈ l → P x ↔ Q x) → filter P l = filter Q l.
Proof.
  induction l as [|x l IH]; intros HPQ; [done|].
  assert (filter P l = filter Q l) as Hl.
  { apply IH. intros y Hy. apply HPQ. by apply list_elem_of_further. }
  destruct (decide (P x)) as [HP|HP].
  - rewrite !filter_cons_True; [by f_equal|by apply HPQ; [left|]|done].
  - rewrite !filter_cons_False; [done| |done].
    intros HQ. apply HP, HPQ; [left|done].
Qed.

Lemma find_None_filter (cellId : jsstring) (l : list IPendingUpdate.t) :
  List.find (λ u, bool_decide (IPendingUpdate.id u = cellId))
    (filter (λ u, IPendingUpdate.id u ≠ cellId) l) = None.
Proof.
  induction l as [|u l IH]; [done|].
  destruct (decide (IPendingUpdate.id u = cellId)) as [Heq|Hne].
  - rewrite filter_cons_False by (intros Hx; by apply Hx). done.
  - rewrite filter_cons_True by done. simpl.
    by rewrite bool_decide_eq_false_2.
Qed.

Lemma find_None_fresh (cellId : jsstring) (l : list IPendingUpdate.t) :
  cellId ∉ ids l →
  List.find (λ u, bool_decide (IPendingUpdate.id u = cellId)) l = None.
Proof.
  induction l as [|u l IH]; [done|]. unfold ids. rewrite fmap_cons.
  intros [Hu Hl]%not_elem_of_cons. simpl.
  rewrite bool_decide_eq_false_2 by done. by apply IH.
Qed.

Lemma filter_ids_fresh (cellId : jsstring) (l : list IPendingUpdate.t) :
  cellId ∉ ids l → filter (λ u, IPendingUpdate.id u ≠ cellId) l = l.
Proof.
  intros Hfresh. apply filter_all, Forall_forall. intros u Hu Heq.
  apply Hfresh. unfold ids. apply list_elem_of_fmap. by exists u.
Qed.

Lemma not_elem_of_ids_filter (cellId : jsstring) (l : list IPendingUpdate.t) :
  cellId ∉ ids (filter (λ u, IPendingUpdate.id u ≠ cellId) l).
Proof.
  unfold ids. intros (u & -> & [Hne _]%list_elem_of_filter)%list_elem_of_fmap.
  done.
Qed.

(** The world after [removePendingUpdate] on a live panel. *)
Lemma removePendingUpdate_eq cellId logInteraction sender senderType updateId w :
  isDisposed (panel w) = false →
  removePendingUpdate cellId logInteraction sender senderType updateId w =
  ({| panel :=
        setPendingUpdates
          (filter (λ u, IPendingUpdate.id u ≠ cellId) (pendingUpdates (panel w)))
          (panel w);
      log :=
        log w ++
        match logInteraction,
              List.find (λ u, bool_decide (IPendingUpdate.id u = cellId))
                (pendingUpdates (panel w)) with
        | true, Some u =>
            posted REMOVE_SINGLE (Some cellId)
              (Some (or_default sender (IPendingUpdate.sender u)))
              (Some (default (IPendingUpdate.senderType u) senderType))
              (or_else updateId (IPendingUpdate.updateId u)) w
        | _, _ => []
        end;
      now := now w |}, Some tt).
Proof.
  intros Hlive. unfold removePendingUpdate, bind, gets, getPendingUpdates.
  rewrite Hlive. cbv zeta.
  destruct (List.find (λ u, bool_decide (IPendingUpdate.id u = cellId))
              (pendingUpdates (panel w))) as [u|];
    destruct logInteraction;
    rewrite ?logPendingUpdateInteraction_eq; unfold ret, onPanel; simpl;
    rewrite ?Hlive, ?app_nil_r; done.
Qed.

Lemma removePendingUpdate_disposed cellId logInteraction sender senderType
    updateId w :
  isDisposed (panel w) = true →
  removePendingUpdate cellId logInteraction sender senderType updateId w
  = (w, Some tt).
Proof.
  intros Hd. unfold removePendingUpdate, bind, gets. by rewrite Hd.
Qed.

(** X12. Removing the pending update of a cell a second time changes
    nothing and posts no record, whatever the arguments of the two calls;
    after a removal no pending update has the id; a removal for an id that
    no pending update has leaves the world as it is; and a removal posts at
    most one record. *)
Theorem removePendingUpdate_once (cellId : jsstring) (log1 log2 : bool)
    (sender1 sender2 : option jsstring) (type1 type2 : option SenderType)
    (updateId1 updateId2 : option jsstring) (w : World) :
  let once :=
    exec (removePendingUpdate cellId log1 sender1 type1 updateId1) w in
  let twice :=
    exec (removePendingUpdate cellId log2 sender2 type2 updateId2) once in
  twice = once
  ∧ (cellId ∉ ids (getPendingUpdates (panel once)))
  ∧ (cellId ∉ ids (getPendingUpdates (panel w)) → once = w)
  ∧ length (log once) ≤ S (length (log w)).
Proof.
  intros once twice. subst once twice. unfold exec.
  destruct (isDisposed (panel w)) eqn:Hd.
  - rewrite (removePendingUpdate_disposed _ _ _ _ _ w) by done. simpl.
    rewrite removePendingUpdate_disposed by done.
    unfold getPendingUpdates. rewrite Hd. simpl.
    split; [done|]. split; [by intros ?%elem_of_nil|]. split; [done|lia].
  - rewrite (removePendingUpdate_eq _ _ _ _ _ w) by done. simpl.
    rewrite removePendingUpdate_eq by done. simpl.
    unfold getPendingUpdates. simpl. rewrite Hd.
    split; [|split; [apply not_elem_of_ids_filter|split]].
    + rewrite find_None_filter, filter_idemp.
      destruct log2; by rewrite app_nil_r.
    + intros Hfresh. rewrite find_None_fresh, filter_ids_fresh by done.
      destruct w as [[d ws a n pu uc] lg nw]. simpl in *.
      destruct log1; by rewrite app_nil_r.
    + rewrite length_app.
      match goal with
      | |- context [List.find ?f ?l] => destruct (List.find f l)
      end; destruct log1; simpl; try lia.
      unfold posted. destruct (_ && _); simpl; lia.
Qed.

(** X13. On a live panel, "Update Later" followed by the removal of the
    update it stored leaves the store without any update of that id: the
    other updates stay as they were, in their order, and when no update had
    the id before the click the panel is as before the click. *)
Theorem laterButton_click_then_remove newContent sender senderType cellId
    finalUpdateId (w : World) :
  isDisposed (panel w) = false →
  let u := newUpdate (now w) newContent sender senderType cellId finalUpdateId in
  let w' :=
    exec (removePendingUpdate (IPendingUpdate.id u) false None None None)
      (exec (laterButton_click newContent sender senderType cellId
               finalUpdateId) w) in
  pendingUpdates (panel w')
  = filter (λ x, IPendingUpdate.id x ≠ IPendingUpdate.id u)
      (pendingUpdates (panel w))
  ∧ (IPendingUpdate.id u ∉ ids (pendingUpdates (panel w)) →
     panel w' = panel w).
Proof.
  intros Hlive u w'.
  assert (pendingUpdates (panel w')
          = filter (λ x, IPendingUpdate.id x ≠ IPendingUpdate.id u)
              (pendingUpdates (panel w))) as Hstore.
  { subst w'. unfold exec at 1.
    set (w1 := exec (laterButton_click _ _ _ _ _) w).
    assert (isDisposed (panel w1) = false) as Hlive1.
    { subst w1. unfold exec, laterButton_click, bind, gets, onPanel.
      rewrite logPendingUpdateInteraction_eq. done. }
    rewrite removePendingUpdate_eq by done. simpl.
    subst w1. rewrite laterButton_click_store. fold u.
    unfold getPendingUpdates. rewrite Hlive.
    rewrite filter_app, filter_idemp.
    rewrite filter_cons_False by (intros Hx; by apply Hx).
    by rewrite filter_nil, app_nil_r. }
  split; [done|]. intros Hfresh.
  rewrite filter_ids_fresh in Hstore by done.
  subst w'. unfold exec in *.
  set (w1 := (laterButton_click _ _ _ _ _ w).1) in *.
  assert (panel w1 = setPendingUpdates (pendingUpdates (panel w1)) (panel w))
    as Hw1.
  { subst w1. unfold laterButton_click, bind, gets, onPanel.
    rewrite logPendingUpdateInteraction_eq. done. }
  assert (isDisposed (panel w1) = false) as Hlive1 by by rewrite Hw1.
  rewrite removePendingUpdate_eq in Hstore |- * by done. simpl in *.
  rewrite Hstore, Hw1. by destruct (panel w) as [d ws a n pu uc].
Qed.

(** *** The sidebar *)

Lemma senderType_teammate (u : IPendingUpdate.t) :
  IPendingUpdate.senderType u = teammate ↔ IPendingUpdate.senderType u ≠ teacher.
Proof. by destruct (IPendingUpdate.senderType u). Qed.

(** X14. The filter modes of the sidebar: the teacher's updates and the
    teammates' updates together are all the pending updates, and no update
    is in both; the updates of the selected teammates are teammates'
    updates, those whose sender is selected, in the order of the store; an
    update of the teacher is never among them, whoever is selected; and the
    sidebar shows nothing when it has no panel or the panel is disposed. *)
Theorem getFilteredUpdates_modes (sb : Sidebar) (p : NotebookPanel) :
  view sb teacher_only p ++ view sb teammates p ≡ₚ view sb all p
  ∧ (∀ u, u ∈ view sb teacher_only p → u ∉ view sb teammates p)
  ∧ view sb selected p
    = filter (λ u, IPendingUpdate.sender u ∈ _selectedTeammateFilters sb)
        (view sb teammates p)
  ∧ (∀ u, u ∈ view sb teacher_only p → u ∉ view sb selected p)
  ∧ view sb teammates p `sublist_of` view sb all p
  ∧ view sb all p
    = (if _currentPanel sb then getPendingUpdates p else [])
  ∧ getFilteredUpdates sb p = view sb (_filterMode sb) p.
Proof.
  unfold view, getFilteredUpdates, getPendingUpdates. simpl.
  destruct (_currentPanel sb), (isDisposed p); simpl;
    try (repeat split; try done; by intros ? ?%elem_of_nil).
  split; [|split; [|split; [|split; [|split; [|done]]]]].
  - rewrite <- (filter_app_complement
                  (λ u, IPendingUpdate.senderType u = teacher)
                  (pendingUpdates p)) at 3.
    apply Permutation_app; [done|].
    erewrite list_filter_iff; [done|]. intros u. apply senderType_teammate.
  - intros u [Ht _]%list_elem_of_filter [Hm _]%list_elem_of_filter.
    congruence.
  - rewrite list_filter_filter. apply list_filter_iff. intros u. tauto.
  - intros u [Ht _]%list_elem_of_filter [[Hm _] _]%list_elem_of_filter.
    congruence.
  - apply sublist_filter.
Qed.

Lemma filter_not_elem_of_nil (l : list IPendingUpdate.t) :
  filter (λ u, IPendingUpdate.id u ∉ (∅ : gset jsstring)) l = l.
Proof. apply filter_all, Forall_forall. intros u _. set_solver. Qed.

Lemma filter_list_to_set (l store : list IPendingUpdate.t) :
  filter (λ u, IPendingUpdate.id u
               ∉ (list_to_set (IPendingUpdate.id <$> l) : gset jsstring)) store
  = filter (λ u, IPendingUpdate.id u ∉ ids l) store.
Proof.
  apply list_filter_iff. intros u. unfold ids.
  apply not_iff_compat, elem_of_list_to_set.
Qed.

(** The world after a click on "Delete All". *)
Lemma deleteAllBtn_onclick_eq (sb : Sidebar) (w : World) :
  deleteAllBtn_onclick sb w =
  ({| panel :=
        match getFilteredUpdates sb (panel w) with
        | [] => panel w
        | _ :: _ =>
            setPendingUpdates
              (filter (λ u, IPendingUpdate.id u
                            ∉ ids (getFilteredUpdates sb (panel w)))
                 (pendingUpdates (panel w)))
              (panel w)
        end;
      log :=
        log w ++
        match getFilteredUpdates sb (panel w) with
        | first :: _ =>
            if truthy (IPendingUpdate.updateId first) then
              posted DELETE_ALL None (Some (IPendingUpdate.sender first))
                (Some (IPendingUpdate.senderType first))
                (IPendingUpdate.updateId first) w
            else []
        | [] => []
        end;
      now := now w |}, Some tt).
Proof.
  unfold deleteAllBtn_onclick, bind, gets.
  destruct (negb (_currentPanel sb) || isDisposed (panel w)) eqn:Hoff.
  { unfold getFilteredUpdates. rewrite Hoff. unfold ret.
    rewrite app_nil_r. by destruct w. }
  destruct (getFilteredUpdates sb (panel w)) as [|first rest] eqn:Hview.
  { unfold ret. rewrite app_nil_r. by destruct w. }
  apply orb_false_iff in Hoff as [_ Hlive].
  destruct (truthy (IPendingUpdate.updateId first)).
  - rewrite logPendingUpdateInteraction_eq.
    unfold onPanel, getPendingUpdates. cbn [panel log now].
    by rewrite Hlive, filter_list_to_set.
  - unfold ret, onPanel, getPendingUpdates. cbn [panel log now].
    by rewrite Hlive, filter_list_to_set, app_nil_r.
Qed.

(** X15. "Delete All" removes from the store the pending updates the
    sidebar shows in its filter mode (with every update that has the id of
    one of them): the sidebar then shows none, and when no two updates of
    the store have the same id the updates left are those that were not
    shown. The cells, the active cell and the updated cells stay as they
    are. At most one record is posted, with the action DELETE_ALL, and none
    when nothing is shown. *)
Theorem deleteAllBtn_onclick_view (sb : Sidebar) (w : World) :
  let shown := getFilteredUpdates sb (panel w) in
  let w' := exec (deleteAllBtn_onclick sb) w in
  pendingUpdates (panel w')
  = filter (λ u, IPendingUpdate.id u ∉ ids shown) (pendingUpdates (panel w))
  ∧ getFilteredUpdates sb (panel w') = []
  ∧ (NoDup (ids (pendingUpdates (panel w))) →
     pendingUpdates (panel w')
     = filter (λ u, u ∉ shown) (pendingUpdates (panel w)))
  ∧ document (panel w') = document (panel w)
  ∧ (∃ posted, log w' = log w ++ posted ∧ length posted ≤ 1
               ∧ Forall (λ r, Interaction.action r = DELETE_ALL) posted
               ∧ (shown = [] → posted = [])).
Proof.
  intros shown w'. subst w'. unfold exec.
  rewrite deleteAllBtn_onclick_eq. simpl. fold shown.
  assert (match shown with
          | [] => panel w
          | _ :: _ =>
              setPendingUpdates
                (filter (λ u, IPendingUpdate.id u ∉ ids shown)
                   (pendingUpdates (panel w))) (panel w)
          end
          = setPendingUpdates
              (filter (λ u, IPendingUpdate.id u ∉ ids shown)
                 (pendingUpdates (panel w))) (panel w)) as ->.
  { destruct shown; [|done]. rewrite filter_all.
    - by destruct (panel w).
    - apply Forall_forall. intros u _. apply not_elem_of_nil. }
  assert (∀ u, u ∈ shown → u ∈ pendingUpdates (panel w)) as Hsub.
  { intros u. subst shown. unfold getFilteredUpdates, getPendingUpdates.
    destruct (negb (_currentPanel sb) || isDisposed (panel w)) eqn:Hoff;
      [by intros ?%elem_of_nil|].
    apply orb_false_iff in Hoff as [_ ->].
    destruct (_filterMode sb); try done; by intros [_ ?]%list_elem_of_filter. }
  split; [done|]. split; [|split; [|split]].
  - subst shown. unfold getFilteredUpdates, getPendingUpdates. simpl.
    destruct (negb (_currentPanel sb) || isDisposed (panel w)) eqn:Hoff;
      [done|].
    apply orb_false_iff in Hoff as [_ ->].
    apply elem_of_nil_inv. intros u Hu.
    assert (u ∈ filter
                  (λ u, IPendingUpdate.id u
                        ∉ ids (match _filterMode sb with
                               | all => pendingUpdates (panel w)
                               | teacher_only =>
                                   filter (λ u, IPendingUpdate.senderType u
                                                = teacher)
                                     (pendingUpdates (panel w))
                               | teammates =>
                                   filter (λ u, IPendingUpdate.senderType u
                                                = teammate)
                                     (pendingUpdates (panel w))
                               | selected =>
                                   filter
                                     (λ u, IPendingUpdate.senderType u
                                           = teammate
                                           ∧ IPendingUpdate.sender u
                                             ∈ _selectedTeammateFilters sb)
                                     (pendingUpdates (panel w))
                               end))
                  (pendingUpdates (panel w))) as [Hout Hin]%list_elem_of_filter.
    { destruct (_filterMode sb); [done|..];
        by apply list_elem_of_filter in Hu as [_ ?]. }
    apply Hout. unfold ids. apply list_elem_of_fmap. exists u.
    split; [done|].
    destruct (_filterMode sb); [done|..];
      apply list_elem_of_filter in Hu as [HP _];
      by apply list_elem_of_filter.
  - intros Hnd. apply filter_iff_elem_of. intros u Hu. split.
    + intros Hout Hin. apply Hout. unfold ids. apply list_elem_of_fmap.
      by exists u.
    + intros Hout (v & Hid & Hv)%list_elem_of_fmap. apply Hout.
      assert (u = v) as ->; [|done].
      apply Hsub in Hv.
      apply list_elem_of_lookup in Hu as [i Hi].
      apply list_elem_of_lookup in Hv as [j Hj].
      assert (i = j) as ->; [|congruence].
      apply (NoDup_lookup _ _ _ (IPendingUpdate.id u) Hnd);
        unfold ids; rewrite list_lookup_fmap; [by rewrite Hi|].
      rewrite Hj. simpl. by rewrite Hid.
  - by destruct (panel w).
  - eexists. split; [done|].
    destruct shown as [|first rest];
      [|destruct (truthy _); [unfold posted; destruct (_ && _)|]]; simpl;
      (split; [lia|]); (split; [by repeat constructor|done]).
Qed.

(** X16. When a cell is removed from the notebook the sidebar is bound to,
    the id the mapping now has at the index of the removed cell leaves the
    updated cells, so that the next update of that cell counts as its
    first; every other id stays among the updated cells or out of them as it
    was, and the cells and the pending updates are not touched. Without a
    non-empty id at that index nothing changes. *)
Theorem cellsRemoved_forgets_cell_below (sb : Sidebar) (oldIndex : nat)
    (p : NotebookPanel) :
  _currentPanel sb = true →
  isDisposed p = false →
  let p' := cellsRemoved sb oldIndex p in
  widgets p' = widgets p
  ∧ pendingUpdates p' = pendingUpdates p
  ∧ match getOrigCellMapping p !! oldIndex with
    | Some (c :: b) =>
        includes (getUpdatedCells p') (c :: b) = false
        ∧ getUpdatedCells p'
          = filter (λ id, id ≠ c :: b) (getUpdatedCells p)
    | _ => p' = p
    end.
Proof.
  intros Hbound Hlive p'. subst p'. unfold cellsRemoved.
  rewrite Hbound, Hlive. simpl.
  destruct (getOrigCellMapping p !! oldIndex) as [[|c b]|]; [done| |done].
  destruct (includes (getUpdatedCells p) (c :: b)) eqn:Hinc.
  - split; [done|]. split; [done|].
    unfold getUpdatedCells. simpl. rewrite Hlive. split; [|done].
    apply includes_false. by intros [? _]%list_elem_of_filter.
  - split; [done|]. split; [done|]. split; [done|].
    apply includes_false in Hinc. symmetry. apply filter_all, Forall_forall.
    by intros x Hx ->.
Qed.

(** *** The label and the position of a pending update *)

Lemma indexOf_Some {A} `{EqDecision A} (l : list A) (x : A) (i : nat) :
  indexOf l x = Some i ↔ l !! i = Some x ∧ ∀ j, j < i → l !! j ≠ Some x.
Proof.
  revert i. induction l as [|y l IH]; intros i; simpl.
  - split; [done|]. by intros [? _].
  - destruct (decide (y = x)) as [->|Hne].
    + split.
      * intros [= <-]. split; [done|]. intros j Hj. lia.
      * intros [Hi Hfirst]. destruct i as [|i]; [done|].
        exfalso. apply (Hfirst 0); [lia|done].
    + destruct (indexOf l x) as [k|] eqn:Hk; simpl.
      * split.
        -- intros [= <-]. destruct (IH k) as [[Hl Hfirst] _]; [done|].
           split; [done|]. intros [|j] Hj; simpl; [congruence|].
           apply Hfirst. lia.
        -- intros [Hi Hfirst]. destruct i as [|i]; simpl in Hi; [congruence|].
           assert (Some k = Some i) as [= ->]; [|done].
           apply IH. split; [done|].
           intros j Hj. apply (Hfirst (S j)). lia.
      * split; [done|]. intros [Hi Hfirst].
        destruct i as [|i]; simpl in Hi; [congruence|].
        assert (None = Some i) as Hi'; [|done].
        apply IH. split; [done|].
        intros j Hj. apply (Hfirst (S j)). lia.
Qed.

Lemma indexOf_None {A} `{EqDecision A} (l : list A) (x : A) :
  indexOf l x = None ↔ x ∉ l.
Proof.
  induction l as [|y l IH]; simpl.
  - split; [intros _; apply not_elem_of_nil|done].
  - rewrite not_elem_of_cons. destruct (decide (y = x)) as [->|Hne].
    + split; [done|]. by intros [? _].
    + destruct (indexOf l x); simpl.
      * split; [done|]. intros [_ Hl]. by apply IH in Hl.
      * split; [|done]. intros _. split; [congruence|]. by apply IH.
Qed.

(** X17. The label of a pending update and the cell the update is merged
    into. The label is "Cell: unknown" exactly when the id of the update is
    empty or not in the mapping, which for an id that is not empty is when
    the merge adds a cell at the end. Otherwise the label counts from the
    first cell of the mapping with the id, the merge and the sort by cell
    go by the last: the label names the cell the update goes to exactly
    when the id is in the mapping once. *)
Theorem cellLabel_names_target (origMapping : list jsstring)
    (u : IPendingUpdate.t) :
  (cellLabel origMapping u = lit "Cell: unknown"
   ↔ IPendingUpdate.id u = [] ∨ position origMapping u = None)
  ∧ (∀ target,
       IPendingUpdate.id u ≠ [] →
       position origMapping u = Some target →
       ∃ first,
         indexOf origMapping (IPendingUpdate.id u) = Some first
         ∧ cellLabel origMapping u
           = lit "Cell " ++ JsNumber.decimal (first + 1)
         ∧ first ≤ target
         ∧ (first = target
            ↔ ∀ i, origMapping !! i = Some (IPendingUpdate.id u)
                   → i = target)).
Proof.
  unfold cellLabel, position. split.
  - destruct (IPendingUpdate.id u) as [|c s] eqn:Hid; [split; [by left|done]|].
    destruct (indexOf origMapping (c :: s)) as [pos|] eqn:Hpos.
    + split; [done|]. intros [?|Hlast]; [done|].
      apply lastIndexOf_None in Hlast. exfalso. apply Hlast.
      apply indexOf_Some in Hpos as [Hpos _].
      by eapply list_elem_of_lookup_2.
    + split; [|done]. intros _. right.
      apply lastIndexOf_None. by apply indexOf_None.
  - intros target Hne Hlast.
    destruct (IPendingUpdate.id u) as [|c s] eqn:Hid; [done|].
    apply lastIndexOf_Some in Hlast as [Htarget Hafter].
    destruct (indexOf origMapping (c :: s)) as [first|] eqn:Hfirst.
    2:{ apply indexOf_None in Hfirst. exfalso. apply Hfirst.
        by eapply list_elem_of_lookup_2. }
    exists first. split; [done|]. split; [done|].
    apply indexOf_Some in Hfirst as [Hfirst Hbefore].
    assert (first ≤ target) as Hle.
    { destruct (decide (first ≤ target)); [done|].
      exfalso. apply (Hafter first); [lia|done]. }
    split; [done|]. split.
    + intros -> i Hi.
      destruct (decide (i < target)); [by apply Hbefore in Hi|].
      destruct (decide (target < i)); [by apply Hafter in Hi|]. lia.
    + intros Honce. by apply Honce.
Qed.

(** *** The senders in the store *)

Lemma getUniqueSenders_snoc_keys (store : list IPendingUpdate.t)
    (m : list (jsstring * SenderType)) :
  let step := λ (senderMap : list (jsstring * SenderType)) u,
    match IPendingUpdate.sender u with
    | c :: s => JsMap.set (c :: s) (IPendingUpdate.senderType u) senderMap
    | [] => senderMap
    end in
  NoDup (JsMap.keys m) →
  NoDup (JsMap.keys (foldl step m store))
  ∧ (∀ s, s ∈ JsMap.keys (foldl step m store)
          ↔ s ∈ JsMap.keys m
            ∨ (s ≠ [] ∧ s ∈ IPendingUpdate.sender <$> store))
  ∧ (∀ s, JsMap.get s (foldl step m store)
          = match last (filter (sentBy s) store) with
            | Some u =>
                if decide (s = []) then JsMap.get s m
                else Some (IPendingUpdate.senderType u)
            | None => JsMap.get s m
            end).
Proof.
  intros step. induction store as [|u store IH] using rev_ind; intros Hnd.
  - simpl. split; [done|]. split; [|done].
    intros s. split; [by left|]. intros [?|[_ ?%elem_of_nil]]; done.
  - rewrite foldl_app. simpl. destruct (IH Hnd) as (Hnd' & Hdom & Hget).
    unfold step at 1 3 5.
    destruct (IPendingUpdate.sender u) as [|c r] eqn:Hu.
    + split; [done|]. split.
      * intros s. rewrite Hdom, fmap_app, elem_of_app. simpl.
        rewrite list_elem_of_singleton, Hu. split; [tauto|].
        intros [?|[Hs [?| ->]]]; tauto.
      * intros s. rewrite Hget, filter_app.
        destruct (decide (sentBy s u)) as [Hs|Hs].
        -- rewrite filter_cons_True, filter_nil, last_snoc by done.
           unfold sentBy in Hs. rewrite Hu in Hs. subst s.
           rewrite decide_True by done.
           by destruct (last _).
        -- by rewrite filter_cons_False, filter_nil, app_nil_r by done.
    + rewrite keys_set. split; [|split].
      * destruct (decide (_ ∈ _)); [done|].
        apply NoDup_app. split; [done|]. split; [|apply NoDup_singleton].
        intros x Hx ->%list_elem_of_singleton. done.
      * intros s. rewrite fmap_app, elem_of_app. simpl.
        rewrite list_elem_of_singleton, Hu.
        destruct (decide (_ ∈ _)) as [Hin|Hout].
        -- rewrite Hdom. split; [tauto|].
           intros [?|[Hs [?| ->]]]; [tauto|tauto|]. by apply Hdom.
        -- rewrite elem_of_app, list_elem_of_singleton, Hdom.
           split; [|tauto]. intros [[?|[? ?]]| ->]; [tauto|tauto|].
           right. split; [done|by right].
      * intros s. rewrite get_set, Hget, filter_app.
        destruct (decide (s = c :: r)) as [->|Hne].
        -- rewrite filter_cons_True, filter_nil, last_snoc by done.
           by rewrite decide_False.
        -- rewrite filter_cons_False, filter_nil, app_nil_r; [done|].
           unfold sentBy. by rewrite Hu.
Qed.

(** X18. The senders of the store, as the sidebar lists them for its
    filter: every sender with an id that is not empty is listed once, and
    with the type of the last pending update of that sender in the store.
    A sender gets a checkbox exactly when the filter mode is "selected" and
    that last update is a teammate's. *)
Theorem getUniqueSenders_last_type (sb : Sidebar) (p : NotebookPanel) :
  _currentPanel sb = true →
  isDisposed p = false →
  let senders := getUniqueSenders sb p in
  NoDup (senders.*1)
  ∧ (∀ s, s ∈ senders.*1
          ↔ s ≠ [] ∧ s ∈ IPendingUpdate.sender <$> pendingUpdates p)
  ∧ (∀ s type,
       (s, type) ∈ senders
       ↔ s ≠ []
         ∧ ∃ u, last (filter (sentBy s) (pendingUpdates p)) = Some u
                ∧ IPendingUpdate.senderType u = type)
  ∧ (∀ s, s ∈ filterCheckboxes sb p
          ↔ _filterMode sb = selected ∧ (s, teammate) ∈ senders).
Proof.
  intros Hbound Hlive senders.
  assert (senders
          = foldl (λ senderMap u,
                     match IPendingUpdate.sender u with
                     | c :: s =>
                         JsMap.set (c :: s) (IPendingUpdate.senderType u)
                           senderMap
                     | [] => senderMap
                     end) [] (pendingUpdates p)) as Hsenders.
  { subst senders. unfold getUniqueSenders, getPendingUpdates.
    by rewrite Hbound, Hlive. }
  assert (∀ s, s ∈ filterCheckboxes sb p
               ↔ _filterMode sb = selected ∧ (s, teammate) ∈ senders)
    as Hboxes.
  { intros s. unfold filterCheckboxes. fold senders.
    destruct (_filterMode sb);
      try (split; [by intros ?%elem_of_nil|by intros [? _]]).
    rewrite list_elem_of_fmap. split.
    - intros ([s' t] & -> & [Ht Hin]%list_elem_of_filter). simpl in *.
      by subst t.
    - intros [_ Hin]. exists (s, teammate). split; [done|].
      by apply list_elem_of_filter. }
  clearbody senders. subst senders.
  destruct (getUniqueSenders_snoc_keys (pendingUpdates p) [])
    as (Hnd & Hdom & Hget); [constructor|].
  cbv zeta in *.
  split; [done|]. split; [|split; [|done]].
  - intros s. rewrite (Hdom s). split; [|tauto].
    intros [?%elem_of_nil|?]; done.
  - intros s type. rewrite <- (get_Some _ _ _ Hnd), Hget. simpl.
    destruct (last (filter (sentBy s) (pendingUpdates p))) as [u|].
    + case_decide as Hne.
      * split; [done|]. by intros [? _].
      * split.
        -- intros [= <-]. split; [done|]. by exists u.
        -- intros [_ (v & [= <-] & <-)]. done.
    + split; [done|]. by intros [_ (? & ? & _)].
Qed.

(** *** The sort by time *)

Lemma positive_compareByTime (a b : IPendingUpdate.t) (x y : Z) :
  received a = Some x → received b = Some y →
  positive (compareByTime a b) = (x <? y)%Z.
Proof.
  unfold received, compareByTime, timeOf. intros -> ->. simpl.
  destruct (Z.ltb_spec 0 (y - x)), (Z.ltb_spec x y); done || lia.
Qed.

Lemma insertSorted_newestFirst (a : IPendingUpdate.t) l :
  Forall (λ u, is_Some (received u)) (a :: l) →
  StronglySorted newestFirst l →
  StronglySorted newestFirst (insertSorted compareByTime a l).
Proof.
  intros [[x Hx] Hl]%Forall_cons. induction 1 as [|b r Hr IH Hb]; simpl.
  - by repeat constructor.
  - apply Forall_cons in Hl as [[y Hy] Hl].
    rewrite (positive_compareByTime a b x y) by done.
    destruct (Z.ltb_spec x y) as [Hlt|Hge].
    + constructor; [by apply IH|]. rewrite insertSorted_perm.
      constructor; [|done]. unfold newestFirst. rewrite Hx, Hy. lia.
    + constructor; [by constructor|]. constructor.
      * unfold newestFirst. rewrite Hx, Hy. lia.
      * rewrite Forall_forall in Hb, Hl |- *. intros c Hc.
        specialize (Hb c Hc). destruct (Hl c Hc) as [z Hz].
        unfold newestFirst in *. rewrite Hx. rewrite Hy, Hz in Hb.
        rewrite Hz. lia.
Qed.

Lemma insertSorted_receivedAt (t : Z) (a : IPendingUpdate.t) l :
  Forall (λ u, is_Some (received u)) (a :: l) →
  filter (receivedAt t) (insertSorted compareByTime a l)
  = filter (receivedAt t) (a :: l).
Proof.
  intros [[x Hx] Hl]%Forall_cons.
  induction l as [|b r IH]; simpl; [done|].
  apply Forall_cons in Hl as [[y Hy] Hl].
  rewrite (positive_compareByTime a b x y) by done.
  destruct (Z.ltb_spec x y) as [Hlt|Hge]; [|done].
  destruct (decide (receivedAt t b)) as [Hb|Hb].
  - rewrite filter_cons_True, (IH Hl) by done.
    assert (¬ receivedAt t a) as Ha.
    { unfold receivedAt in *. rewrite Hx. rewrite Hy in Hb.
      intros [= ->]. injection Hb as ->. lia. }
    rewrite !(filter_cons_False _ a) by done.
    by rewrite filter_cons_True.
  - rewrite filter_cons_False, (IH Hl) by done.
    destruct (decide (receivedAt t a)).
    + rewrite !(filter_cons_True _ a) by done.
      by rewrite filter_cons_False.
    + rewrite !(filter_cons_False _ a) by done.
      by rewrite filter_cons_False.
Qed.

(** X19. When the time of every pending update is a date, the sort by
    time shows the same updates, the most recent first, and updates
    received at the same time in the order they have in the store. *)
Theorem sortByTime_newest_first (updates : list IPendingUpdate.t) :
  Forall (λ u, is_Some (received u)) updates →
  let sorted := sortByTime updates in
  sorted ≡ₚ updates
  ∧ StronglySorted newestFirst sorted
  ∧ ∀ t, filter (receivedAt t) sorted = filter (receivedAt t) updates.
Proof.
  intros Hvalid sorted. subst sorted. unfold sortByTime.
  split; [apply sort_perm|].
  induction updates as [|a l IH]; [by split; [constructor|]|].
  apply Forall_cons in Hvalid as [Ha Hl]. destruct (IH Hl) as [Hs Hstable].
  assert (Forall (λ u, is_Some (received u)) (a :: sort compareByTime l))
    as Hvalid'.
  { constructor; [done|]. by rewrite sort_perm. }
  split.
  - by apply insertSorted_newestFirst.
  - intros t. change (sort compareByTime (a :: l))
      with (insertSorted compareByTime a (sort compareByTime l)).
    rewrite insertSorted_receivedAt by done.
    destruct (decide (receivedAt t a)).
    + rewrite !(filter_cons_True _ a) by done. by rewrite Hstable.
    + by rewrite !(filter_cons_False _ a).
Qed.

(** *** Updates for cells the notebook does not have *)

Lemma forOf_applyCellUpdate_unknown m t uc (cellUpdates : list ICellUpdate.t) :
  Forall (λ cu, findCell m cu = None) cellUpdates →
  ∀ w, isDisposed (panel w) = false →
       forOf cellUpdates (applyCellUpdate m t uc) w
       = ({| panel :=
               set_widgets (λ ws, ws ++ (appended t <$> cellUpdates)) (panel w);
             log := log w; now := now w |}, Some tt).
Proof.
  induction 1 as [|cu l Hcu _ IH]; intros w Hlive.
  - simpl. unfold ret, set_widgets.
    destruct w as [[d ws a n pu uc'] lg nw]. simpl.
    by rewrite app_nil_r.
  - simpl. unfold bind. rewrite applyCellUpdate_unknown by done.
    rewrite Hlive, IH by done. simpl.
    destruct w as [[d ws a n pu uc'] lg nw]. simpl.
    unfold set_widgets. simpl. by rewrite <- app_assoc.
Qed.

Lemma forOf_applied (cellUpdates : list ICellUpdate.t)
    (updateId cellId sender : option jsstring)
    (senderType : option SenderType) w :
  forOf cellUpdates (λ cellUpdate,
    logPendingUpdateInteraction APPLY_SINGLE
      (or_else cellId
         (or_else (ICellUpdate.id cellUpdate) (ICellUpdate.cell_id cellUpdate)))
      sender senderType updateId) w
  = ({| panel := panel w;
        log := log w ++
               (cellUpdates ≫= applied w updateId cellId sender senderType);
        now := now w |}, Some tt).
Proof.
  revert w. induction cellUpdates as [|cu l IH]; intros w.
  - simpl. unfold ret. rewrite app_nil_r. by destruct w.
  - simpl. unfold bind. rewrite logPendingUpdateInteraction_eq, IH. simpl.
    by rewrite <- app_assoc.
Qed.

(** X20. A payload whose cell updates are all for cells the notebook does
    not have (their ids are not in the mapping, or they have none) adds one
    cell per cell update at the end of a live notebook, in the order of the
    payload: a markdown cell or a code cell when the update says so, a raw
    cell otherwise, holding the source of the update under the line
    [CELL RECEIVED AT] with the time of the update (written as a comment
    unless the update is for a markdown cell) and an empty line. The cells
    that were there, the active cell, the updated cells and the pending
    updates stay as they are. One APPLY_SINGLE record per cell update is
    posted when the update id, the user id and the notebook id are set and
    logging is not skipped, none otherwise. *)
Theorem updateNotebookContent_appends (newContent : Content.t)
    (cellUpdates : list ICellUpdate.t) (updateId cellId sender : option jsstring)
    (senderType : option SenderType) (skipLogging : bool) (w : World) :
  isDisposed (panel w) = false →
  Content.cells newContent = Some (Some <$> cellUpdates) →
  Forall (λ cu, ∀ id, ICellUpdate.id cu = Some id
                      → id ∉ getOrigCellMapping (panel w)) cellUpdates →
  let w' :=
    exec (updateNotebookContent newContent updateId cellId sender senderType
            skipLogging) w in
  panel w'
  = set_widgets
      (λ ws, ws ++ (appended (toLocaleString (now w)) <$> cellUpdates))
      (panel w)
  ∧ log w'
    = log w ++
      (if negb skipLogging && truthy updateId then
         cellUpdates ≫= applied w updateId cellId sender senderType
       else []).
Proof.
  intros Hlive Hcells Hunknown w'. subst w'.
  unfold exec, updateNotebookContent, try_catch.
  rewrite updateNotebookContent_try_eq, Hcells. unfold loop.
  rewrite forOf_defined.
  rewrite forOf_applyCellUpdate_unknown; [|by eapply Forall_impl;
    [exact Hunknown|]; intros cu; apply findCell_None|done].
  cbn [panel notebookId set_widgets].
  destruct (negb skipLogging && truthy updateId) eqn:Hlog; simpl;
    [|by rewrite app_nil_r].
  destruct (truthy PERSISTENT_USER_ID && truthy (notebookId (panel w)))
    eqn:Hids.
  - by rewrite forOf_defined, forOf_applied.
  - assert (cellUpdates ≫= applied w updateId cellId sender senderType = [])
      as ->.
    { clear -Hids. induction cellUpdates as [|cu l IH]; [done|]. simpl.
      unfold applied at 1, posted. by rewrite Hids. }
    by rewrite app_nil_r.
Qed.

(** *** "Update Now" *)

Lemma updateNotebookContent_log newContent updateId cellId sender senderType
    skipLogging w :
  ∃ posted,
    log (exec (updateNotebookContent newContent updateId cellId sender
                 senderType skipLogging) w) = log w ++ posted
    ∧ Forall (λ r, Interaction.action r = APPLY_SINGLE) posted.
Proof.
  unfold exec, updateNotebookContent, try_catch.
  rewrite updateNotebookContent_try_eq.
  destruct (Content.cells newContent) as [cellUpdates|];
    [|exists []; by rewrite app_nil_r].
  pose proof (keeps_log_loop w cellUpdates w) as Hlog.
  unfold exec in Hlog.
  destruct (loop w cellUpdates w) as [w1 [[]|]] eqn:Hloop; simpl in Hlog;
    [|exists []; by rewrite app_nil_r].
  destruct (_ && _).
  - destruct (loop_entries _ _ _ _ Hloop) as [cus ->].
    rewrite forOf_defined.
    destruct (forOf_log cus APPLY_SINGLE
                (λ cu, or_else cellId
                         (or_else (ICellUpdate.id cu) (ICellUpdate.cell_id cu)))
                (λ _, sender) (λ _, senderType) (λ _, updateId) w1)
      as (posted & -> & Hposted).
    exists posted. simpl. by rewrite Hlog.
  - exists []. simpl. by rewrite app_nil_r.
Qed.

Lemma removePendingUpdates_eq (cellIds : list jsstring) :
  ∀ w, isDisposed (panel w) = false →
       forOf cellIds (λ id,
         try_catch (removePendingUpdate id false None None None)) w
       = ({| panel :=
               setPendingUpdates
                 (filter (λ u, IPendingUpdate.id u ∉ cellIds)
                    (pendingUpdates (panel w)))
                 (panel w);
             log := log w; now := now w |}, Some tt).
Proof.
  induction cellIds as [|id l IH]; intros w Hlive.
  - simpl. unfold ret. rewrite filter_all.
    + by destruct w as [[d ws a n pu uc] lg nw].
    + apply Forall_forall. intros u _. apply not_elem_of_nil.
  - simpl. unfold bind, try_catch. rewrite removePendingUpdate_eq by done.
    rewrite IH by done. simpl. rewrite app_nil_r. f_equal.
    destruct (panel w) as [d ws a n pu uc].
    unfold setPendingUpdates, setMetadataComp_pendingUpdates. simpl.
    f_equal. f_equal. rewrite list_filter_filter. apply list_filter_iff.
    intros u. rewrite not_elem_of_cons. tauto.
Qed.

(** The world after the removals that end the handler of "Update Now". *)
Lemma cleanup_eq (newContent : Content.t) (w : World) :
  try_catch (
    do cellIds <- defined (collectCellIds newContent) ;
    do p <- gets panel ;
    if (0 <? length cellIds) && negb (isDisposed p) then
      forOf cellIds (λ id,
        try_catch (removePendingUpdate id false None None None))
    else ret tt) w
  = ({| panel :=
          if isDisposed (panel w) then panel w
          else setPendingUpdates
                 (filter (λ u, IPendingUpdate.id u ∉ appliedCellIds newContent)
                    (pendingUpdates (panel w)))
                 (panel w);
        log := log w; now := now w |}, Some tt).
Proof.
  assert (∀ p, setPendingUpdates
                 (filter (λ u, IPendingUpdate.id u ∉ ([] : list jsstring))
                    (pendingUpdates p)) p = p) as Hnone.
  { intros [d ws a n pu uc]. unfold setPendingUpdates. simpl.
    rewrite filter_all; [done|].
    apply Forall_forall. intros u _. apply not_elem_of_nil. }
  unfold appliedCellIds, try_catch, bind, gets, defined.
  destruct (collectCellIds newContent) as [cellIds|]; simpl.
  2:{ rewrite Hnone. destruct (isDisposed (panel w)); by destruct w. }
  destruct (isDisposed (panel w)) eqn:Hd.
  - rewrite andb_false_r. unfold ret. by destruct w.
  - rewrite andb_true_r.
    destruct cellIds as [|id l].
    + simpl. unfold ret. rewrite Hnone. by destruct w.
    + change (0 <? length (id :: l)) with true. cbv iota.
      by rewrite removePendingUpdates_eq.
Qed.

Lemma updateButton_click_store newContent sender senderType cellId
    finalUpdateId w :
  isDisposed (panel w) = false →
  pendingUpdates
    (panel (exec (updateButton_click newContent sender senderType cellId
                    finalUpdateId) w))
  = filter (λ u, IPendingUpdate.id u ∉ appliedCellIds newContent)
      (pendingUpdates (panel w)).
Proof.
  intros Hlive. unfold exec, updateButton_click.
  erewrite bind_Some; [|apply logPendingUpdateInteraction_eq].
  set (w0 := {| panel := panel w; log := _; now := now w |}).
  pose proof (keeps_around_updateNotebookContent newContent
                (Some finalUpdateId) cellId (Some sender) (Some senderType)
                false w0) as Hkeep.
  pose proof (updateNotebookContent_total newContent (Some finalUpdateId)
                cellId (Some sender) (Some senderType) false w0) as Htotal.
  unfold exec, around in Hkeep.
  destruct (updateNotebookContent _ _ _ _ _ _ w0) as [w1 r] eqn:Hunc.
  cbn [fst snd] in *. subst r. injection Hkeep as Hd _ Hpu.
  erewrite bind_Some; [|exact Hunc].
  subst w0. cbn [panel] in Hd, Hpu.
  rewrite cleanup_eq. cbn [fst panel]. by rewrite Hd, Hlive, Hpu.
Qed.

(** X21. After "Update Now" on a live panel, no pending update is left
    for any cell of the payload that was applied (for the id of the payload
    itself when it has no cells): the store keeps its other updates, in
    their order. The handler posts the UPDATE_NOW record first, where the
    user id and the notebook id allow it, and after it APPLY_SINGLE records
    only; a removal is never recorded. *)
Theorem updateButton_click_clears (newContent : Content.t) (sender : jsstring)
    (senderType : SenderType) (cellId : option jsstring)
    (finalUpdateId : jsstring) (w : World) :
  isDisposed (panel w) = false →
  let w' :=
    exec (updateButton_click newContent sender senderType cellId
            finalUpdateId) w in
  pendingUpdates (panel w')
  = filter (λ u, IPendingUpdate.id u ∉ appliedCellIds newContent)
      (pendingUpdates (panel w))
  ∧ (∀ id, id ∈ appliedCellIds newContent →
           id ∉ ids (getPendingUpdates (panel w')))
  ∧ ∃ applied,
      log w'
      = log w ++
        posted UPDATE_NOW cellId (Some sender) (Some senderType)
          (Some finalUpdateId) w ++ applied
      ∧ Forall (λ r, Interaction.action r = APPLY_SINGLE) applied.
Proof.
  intros Hlive w'.
  pose proof (updateButton_click_store newContent sender senderType cellId
                finalUpdateId w Hlive) as Hstore. fold w' in Hstore.
  split; [done|]. split.
  - intros id Hid. unfold getPendingUpdates. destruct (isDisposed (panel w'));
      [by intros ?%elem_of_nil|].
    rewrite Hstore. unfold ids.
    intros (u & -> & [Hu _]%list_elem_of_filter)%list_elem_of_fmap. done.
  - subst w'. unfold exec, updateButton_click.
    erewrite bind_Some; [|apply logPendingUpdateInteraction_eq].
    set (w0 := {| panel := panel w; log := _; now := now w |}).
    destruct (updateNotebookContent_log newContent (Some finalUpdateId) cellId
                (Some sender) (Some senderType) false w0)
      as (applied & Hlog & Happlied).
    pose proof (updateNotebookContent_total newContent (Some finalUpdateId)
                  cellId (Some sender) (Some senderType) false w0) as Htotal.
    unfold exec in Hlog.
    destruct (updateNotebookContent _ _ _ _ _ _ w0) as [w1 r] eqn:Hunc.
    cbn [fst snd] in *. subst r. erewrite bind_Some; [|exact Hunc].
    rewrite cleanup_eq. cbn [fst log].
    exists applied. rewrite Hlog. subst w0. cbn [log].
    by rewrite <- app_assoc.
Qed.

(** *** A round for a cell of the notebook *)

(** X27. The round of a cell update whose id is in the mapping read before
    the loop, on a live notebook with a cell at the last position [i] of the
    id in that mapping. When the id is not among the updated cells read
    before the loop, the notebook has one cell more: the content of the cell
    at [i] is kept at [i] under the line [# YOUR CODE] and an empty line,
    the cell itself is at [i + 1] with the source of the update under the
    line of the reception, and is the active cell, the cells before [i] are
    where they were, the cells after it have moved down by one, and the id
    is among the updated cells. When the id is among them already, the cell
    at [i] gets the text of the update where it is, and is the active cell;
    no cell is added and the updated cells stay as they are. Either way the
    pending updates, the notebook id and the log are untouched. *)
Theorem applyCellUpdate_known_cell w before w1 cu id i old :
  turn w before w1 →
  ICellUpdate.id cu = Some id →
  lastIndexOf (getOrigCellMapping (panel w)) id = Some i →
  isDisposed (panel w1) = false →
  widgets (panel w1) !! i = Some old →
  let text :=
    (if decide (ICellUpdate.cell_type cu = Some (lit "markdown"))
     then lit "CELL RECEIVED AT " else lit "# CELL RECEIVED AT ")
    ++ toLocaleString (now w) ++ [LF; LF] ++ ICellUpdate.source cu in
  ∃ w2,
    turn w (before ++ [Some cu]) w2
    ∧ (id ∉ getUpdatedCells (panel w) →
       length (widgets (panel w2)) = S (length (widgets (panel w1)))
       ∧ widgets (panel w2) !! i
         = Some (Cell.mk
                   (if decide (ICellUpdate.cell_type cu
                               = Some (lit "markdown"))
                    then lit "markdown" else lit "code")
                   (lit "# YOUR CODE" ++ [LF; LF] ++ Cell.source old))
       ∧ widgets (panel w2) !! S i = Some (Cell.mk (Cell.cell_type old) text)
       ∧ (∀ j, j < i → widgets (panel w2) !! j = widgets (panel w1) !! j)
       ∧ (∀ j, i < j → widgets (panel w2) !! S j = widgets (panel w1) !! j)
       ∧ activeCellIndex (panel w2) = S i
       ∧ id ∈ getUpdatedCells (panel w2))
    ∧ (id ∈ getUpdatedCells (panel w) →
       widgets (panel w2)
       = <[i := Cell.mk (Cell.cell_type old) text]> (widgets (panel w1))
       ∧ length (widgets (panel w2)) = length (widgets (panel w1))
       ∧ activeCellIndex (panel w2) = i
       ∧ updatedCells (panel w2) = updatedCells (panel w1))
    ∧ around w2 = around w1
    ∧ log w2 = log w1.
Proof.
  intros Hturn Hid Hi Hlive Hold text.
  assert (findCell (getOrigCellMapping (panel w)) cu = Some (id, i)) as Hfind
    by by apply findCell_Some.
  pose proof (keeps_around_applyCellUpdate (getOrigCellMapping (panel w))
                (toLocaleString (now w)) (getUpdatedCells (panel w)) cu w1)
    as Haround.
  pose proof (keeps_log_applyCellUpdate (getOrigCellMapping (panel w))
                (toLocaleString (now w)) (getUpdatedCells (panel w)) cu w1)
    as Hlog.
  unfold exec in Haround, Hlog.
  destruct (includes (getUpdatedCells (panel w)) id) eqn:Hinc.
  - pose proof (applyCellUpdate_again w1 _ (toLocaleString (now w)) _ cu id
                  i old Hlive Hfind Hinc Hold) as Happly.
    rewrite Happly in Haround, Hlog.
    eexists. split; [exact (loop_round_done w before w1 cu _ Hturn Happly)|].
    split; [|split; [|split; [exact Haround|exact Hlog]]].
    + intros Hnew. exfalso. apply Hnew. by apply includes_true.
    + intros _. cbn [panel set_activeCellIndex set_widgets widgets
                      activeCellIndex updatedCells].
      split; [done|]. split; [by rewrite length_insert|done].
  - pose proof (applyCellUpdate_first w1 _ (toLocaleString (now w)) _ cu id
                  i old Hlive Hfind Hinc Hold) as Happly.
    rewrite Happly in Haround, Hlog.
    eexists. split; [exact (loop_round_done w before w1 cu _ Hturn Happly)|].
    split; [|split; [|split; [exact Haround|exact Hlog]]].
    2:{ intros Hin. apply includes_true in Hin. congruence. }
    intros _. cbn [panel set_activeCellIndex widgets activeCellIndex].
    rewrite widgets_markCellAsUpdated.
    cbn [set_widgets set_activeCellIndex widgets].
    destruct (split_at _ _ _ Hold) as (L & R & HLR & HL & Htake & _ & Hdrop).
    rewrite Htake, Hdrop, HLR. subst i. cbn [app].
    split; [rewrite !length_app; simpl; lia|].
    split; [by rewrite list_lookup_middle|].
    split; [by rewrite <- Nat.add_1_r, lookup_middle_next|].
    split; [|split; [|split]].
    + intros j Hj. by rewrite !lookup_app_l by done.
    + intros j Hj. rewrite !lookup_app_r by lia.
      replace (S j - length L) with (S (j - length L)) by lia.
      destruct (j - length L) as [|m] eqn:Hm; [lia|done].
    + lia.
    + unfold getUpdatedCells. cbn [isDisposed set_activeCellIndex].
      rewrite isDisposed_markCellAsUpdated. cbn [isDisposed set_widgets
        set_activeCellIndex]. rewrite Hlive.
      cbn [updatedCells set_activeCellIndex]. apply markCellAsUpdated_elem_of.
Qed.

(** *** The document, whatever the store and the log *)


Lemma sameDocument_refl w : sameDocument w w.
Proof. done. Qed.





Lemma alike_gets {A} (f : World → A) :
  (∀ w1 w2, sameDocument w1 w2 → f w1 = f w2) → alike (gets f) (gets f).
Proof.
  intros Hf w1 w2 Hw. split; [done|]. simpl. f_equal. by apply Hf.
Qed.



Lemma alike_try_catch (c1 c2 : M unit) :
  alike c1 c2 → alike (try_catch c1) (try_catch c2).
Proof.
  intros Hc w1 w2 Hw. destruct (Hc w1 w2 Hw) as [Hw' _].
  unfold exec, try_catch in *.
  by destruct (c1 w1) as [w1' [[]|]], (c2 w2) as [w2' [[]|]].
Qed.


(** Two computations that post records and do nothing else. *)
Lemma alike_posting (c1 c2 : M unit) :
  (∀ w, ∃ posted,
          c1 w = ({| panel := panel w; log := log w ++ posted;
                     now := now w |}, Some tt)) →
  (∀ w, ∃ posted,
          c2 w = ({| panel := panel w; log := log w ++ posted;
                     now := now w |}, Some tt)) →
  alike c1 c2.
Proof.
  intros H1 H2 w1 w2 Hw. destruct (H1 w1) as [l1 E1], (H2 w2) as [l2 E2].
  unfold exec. by rewrite E1, E2.
Qed.






Lemma posting_log action cellId sender senderType updateId w :
  ∃ posted,
    logPendingUpdateInteraction action cellId sender senderType updateId w
    = ({| panel := panel w; log := log w ++ posted; now := now w |}, Some tt).
Proof. eexists. apply logPendingUpdateInteraction_eq. Qed.

Lemma posting_ret w :
  ∃ posted,
    ret tt w
    = ({| panel := panel w; log := log w ++ posted; now := now w |}, Some tt).
Proof. exists []. unfold ret. rewrite app_nil_r. by destruct w. Qed.

Section Mapping.

(** The mapping is read from the cells: it does not depend on the pending
    updates. *)
Hypothesis mapping_of_document :
  ∀ p updates,
    getOrigCellMapping (setPendingUpdates updates p) = getOrigCellMapping p.









End Mapping.

(** *** From the message to the store *)

Lemma fromBrace_prefix (prefix message : jsstring) :
  Forall (λ c, c ≠ 123%N) prefix →
  fromBrace (prefix ++ message) = fromBrace message.
Proof.
  induction 1 as [|c prefix Hc _ IH]; [done|]. simpl.
  by destruct (N.eqb_spec c 123).
Qed.

(** X23. [handleSyncMessage] reads a message from its first brace on:
    whatever precedes it (the "From ...:" of a legacy payload) changes
    nothing, and a message without a brace asks for no notification. A
    notification is asked for the two known actions only, with the update
    id of the message. For "update_cell" the content handed on is an array
    of one entry: a cell with the id, the cell id, the type and the source
    of the content of the message (the text [undefined] for a content
    without source), or an undefined entry when the message has no content.
    For "update_notebook" it is the content of the message itself. *)
Theorem handleSyncMessage_from_brace (prefix message : jsstring) :
  Forall (λ c, c ≠ 123%N) prefix →
  handleSyncMessage (prefix ++ message) = handleSyncMessage message
  ∧ handleSyncMessage prefix = None
  ∧ ∀ shown,
      handleSyncMessage message = Some shown →
      ∃ jsonStr jsonParsed,
        fromBrace message = Some jsonStr
        ∧ JSON_parse jsonStr = Some jsonParsed
        ∧ Shown.updateId shown = Parsed.update_id jsonParsed
        ∧ ((Parsed.action jsonParsed = Some (lit "update_cell")
            ∧ Shown.action shown = lit "update_cell"
            ∧ Shown.newContent shown
              = Content.mk None None None
                  (Some [match Parsed.content jsonParsed with
                         | Some content =>
                             Some (ICellUpdate.mk (PushContent.id content)
                                     (PushContent.cell_id content)
                                     (PushContent.cell_type content)
                                     (default (lit "undefined")
                                        (PushContent.source content)))
                         | None => None
                         end]))
           ∨ (Parsed.action jsonParsed = Some (lit "update_notebook")
              ∧ Shown.action shown = lit "update_notebook"
              ∧ ∀ content,
                  Parsed.content jsonParsed = Some content →
                  Shown.newContent shown
                  = Content.mk (PushContent.update_id content)
                      (PushContent.id content) (PushContent.cell_id content)
                      (PushContent.cells content))).
Proof.
  intros Hprefix. split; [|split].
  - unfold handleSyncMessage. by rewrite fromBrace_prefix.
  - unfold handleSyncMessage.
    rewrite <- (app_nil_r prefix), fromBrace_prefix by done. done.
  - intros shown. unfold handleSyncMessage.
    destruct (fromBrace message) as [jsonStr|] eqn:Hbrace; [|done].
    destruct (JSON_parse jsonStr) as [jsonParsed|] eqn:Hparse; [|done].
    cbv zeta.
    destruct (contentCellId (Parsed.content jsonParsed)) as [cellId|];
      [|done].
    destruct (decide (Parsed.action jsonParsed = Some (lit "update_cell")))
      as [Hcell|Hcell].
    + intros [= <-]. exists jsonStr, jsonParsed.
      split; [done|]. split; [done|]. split; [done|]. left.
      split; [done|]. split; [done|]. cbn [Shown.newContent].
      unfold cellContent. by destruct (Parsed.content jsonParsed).
    + destruct (decide (Parsed.action jsonParsed
                        = Some (lit "update_notebook"))) as [Hnb|Hnb];
        [|done].
      intros [= <-]. exists jsonStr, jsonParsed.
      split; [done|]. split; [done|]. split; [done|]. right.
      split; [done|]. split; [done|]. intros content Hcontent.
      cbn [Shown.newContent]. by rewrite Hcontent.
Qed.

(** X24. A push of a cell whose content has an id: "Update Later" stores it
    under that id, after the other pending updates and in the place of any
    update stored under the id before; "Update Now", on a live panel, leaves
    no pending update under the id. Either way an older pending update of
    the same cell does not outlive the push. *)
Theorem update_cell_push_supersedes (message jsonStr : jsstring)
    (jsonParsed : Parsed.t) (content : PushContent.t) (id : jsstring)
    (random sender : jsstring) (senderType : SenderType) (w : World) :
  fromBrace message = Some jsonStr →
  JSON_parse jsonStr = Some jsonParsed →
  Parsed.action jsonParsed = Some (lit "update_cell") →
  Parsed.content jsonParsed = Some content →
  PushContent.id content = Some id →
  id ≠ [] →
  isDisposed (panel w) = false →
  ∃ shown,
    handleSyncMessage message = Some shown
    ∧ shownCellId shown = Some id
    ∧ (∃ u,
         pendingUpdates (panel (exec (later random sender senderType shown) w))
         = filter (λ x, IPendingUpdate.id x ≠ id) (pendingUpdates (panel w))
           ++ [u]
         ∧ IPendingUpdate.id u = id
         ∧ IPendingUpdate.message u = Shown.newContent shown
         ∧ IPendingUpdate.sender u = sender)
    ∧ pendingUpdates
        (panel (exec (updateButton_click (Shown.newContent shown) sender
                        senderType (shownCellId shown)
                        (shownUpdateId random shown)) w))
      = filter (λ x, IPendingUpdate.id x ≠ id) (pendingUpdates (panel w)).
Proof.
  intros Hbrace Hparse Haction Hcontent Hid Hne Hlive.
  destruct id as [|c r]; [done|].
  assert (contentCellId (Parsed.content jsonParsed) = Some (Some (c :: r)))
    as Hcell.
  { unfold contentCellId. by rewrite Hcontent, Hid. }
  eexists. split.
  { unfold handleSyncMessage. rewrite Hbrace, Hparse. cbv zeta.
    rewrite Hcell. by rewrite decide_True. }
  assert (shownCellId
            (Shown.mk (cellContent (Parsed.content jsonParsed))
               (lit "update_cell") (Parsed.update_id jsonParsed)
               (Some (c :: r)))
          = Some (c :: r)) as Hshown by done.
  split; [done|]. split.
  - eexists. unfold later. rewrite laterButton_click_store.
    unfold getPendingUpdates. rewrite Hlive, Hshown. simpl.
    split; [done|]. done.
  - rewrite updateButton_click_store by done.
    apply list_filter_iff. intros x. simpl. rewrite Hcontent.
    unfold appliedCellIds, collectCellIds, cellContent, pushedCell. simpl.
    rewrite Hid. simpl.
    by rewrite list_elem_of_singleton.
Qed.

(** *** The buttons of a row *)

Lemma applied_records w updateId cellId sender senderType
    (cellUpdates : list ICellUpdate.t) :
  Forall (λ r, Interaction.action r = APPLY_SINGLE
               ∧ Interaction.update_id r = updateId
               ∧ Interaction.sender r = sender
               ∧ Interaction.sender_type r = senderType)
    (cellUpdates ≫= applied w updateId cellId sender senderType)
  ∧ length (cellUpdates ≫= applied w updateId cellId sender senderType)
    ≤ length cellUpdates.
Proof.
  induction cellUpdates as [|cu l [IH1 IH2]];
    [split; [constructor|simpl; lia]|].
  rewrite bind_cons, length_app. unfold applied at 1 3, posted.
  destruct (_ && _); cbn [app length].
  - split; [by constructor|lia].
  - split; [done|lia].
Qed.

Lemma updateNotebookContent_records newContent updateId cellId sender
    senderType skipLogging w :
  ∃ posted,
    log (exec (updateNotebookContent newContent updateId cellId sender
                 senderType skipLogging) w) = log w ++ posted
    ∧ Forall (λ r, Interaction.action r = APPLY_SINGLE
                   ∧ Interaction.update_id r = updateId
                   ∧ Interaction.sender r = sender
                   ∧ Interaction.sender_type r = senderType) posted
    ∧ (skipLogging = true ∨ truthy updateId = false → posted = [])
    ∧ length posted ≤ length (default [] (Content.cells newContent)).
Proof.
  assert (∀ l : list Interaction.t, log w = l → ∃ posted,
            l = log w ++ posted
            ∧ Forall (λ r, Interaction.action r = APPLY_SINGLE
                           ∧ Interaction.update_id r = updateId
                           ∧ Interaction.sender r = sender
                           ∧ Interaction.sender_type r = senderType) posted
            ∧ (skipLogging = true ∨ truthy updateId = false → posted = [])
            ∧ length posted
              ≤ length (default [] (Content.cells newContent))) as Hnone.
  { intros l <-. exists []. rewrite app_nil_r.
    split; [done|]. split; [done|]. split; [done|simpl; lia]. }
  unfold exec, updateNotebookContent, try_catch.
  rewrite updateNotebookContent_try_eq.
  destruct (Content.cells newContent) as [cellUpdates|]; [|by apply Hnone].
  pose proof (keeps_log_loop w cellUpdates w) as Hlog.
  unfold exec in Hlog.
  destruct (loop w cellUpdates w) as [w1 [[]|]] eqn:Hloop; simpl in Hlog;
    [|by apply Hnone].
  destruct (negb skipLogging && truthy updateId && truthy PERSISTENT_USER_ID
            && truthy (notebookId (panel w1))) eqn:Hguard.
  - destruct (loop_entries _ _ _ _ Hloop) as [cus ->].
    rewrite forOf_defined, forOf_applied. simpl. rewrite Hlog.
    eexists. split; [done|].
    destruct (applied_records w1 updateId cellId sender senderType cus)
      as [Hall Hlen].
    rewrite length_fmap.
    split; [exact Hall|]. split; [|exact Hlen].
    apply andb_true_iff in Hguard as [Hguard _].
    apply andb_true_iff in Hguard as [Hguard _].
    apply andb_true_iff in Hguard as [Hskip Hid].
    intros [->| Hno]; [done|congruence].
  - simpl. by apply Hnone.
Qed.

(** X25. Applying a pending update posts APPLY_SINGLE records only, at
    most one per cell of its message, each with the sender and the sender
    type of the pending update and with its update id (the [update_id] of
    the message when the pending update has none); it posts none when
    logging is skipped or there is no update id. The removal of the pending
    update that follows is not recorded. *)
Theorem applyPendingUpdate_records (pending : IPendingUpdate.t)
    (skipLogging : bool) (w : World) :
  ∃ posted,
    log (exec (applyPendingUpdate pending skipLogging) w) = log w ++ posted
    ∧ Forall (appliedFrom pending) posted
    ∧ (skipLogging = true ∨ truthy (pendingUpdateId pending) = false
       → posted = [])
    ∧ length posted
      ≤ length (default [] (Content.cells (IPendingUpdate.message pending))).
Proof.
  destruct (updateNotebookContent_records (IPendingUpdate.message pending)
              (pendingUpdateId pending) (pendingCellId pending)
              (Some (IPendingUpdate.sender pending))
              (Some (IPendingUpdate.senderType pending)) skipLogging w)
    as (posted & Hlog & Hall & Hnone & Hlen).
  exists posted. split; [|done].
  unfold exec, applyPendingUpdate, try_catch in *.
  pose proof (updateNotebookContent_total (IPendingUpdate.message pending)
                (pendingUpdateId pending) (pendingCellId pending)
                (Some (IPendingUpdate.sender pending))
                (Some (IPendingUpdate.senderType pending)) skipLogging w)
    as Htotal.
  destruct (updateNotebookContent _ _ _ _ _ _ w) as [w1 r] eqn:Hunc.
  cbn [fst snd] in *. subst r. erewrite bind_Some; [|exact Hunc].
  destruct (isDisposed (panel w1)) eqn:Hd.
  - by rewrite removePendingUpdate_disposed.
  - rewrite removePendingUpdate_eq by done. simpl. by rewrite app_nil_r.
Qed.

Lemma find_id (u : IPendingUpdate.t) (l : list IPendingUpdate.t) :
  NoDup (ids l) → u ∈ l →
  List.find (λ x, bool_decide (IPendingUpdate.id x = IPendingUpdate.id u)) l
  = Some u.
Proof.
  induction l as [|x l IH]; [by intros _ ?%elem_of_nil|].
  unfold ids. rewrite fmap_cons. intros [Hx Hnd]%NoDup_cons Hin. simpl.
  apply elem_of_cons in Hin as [->|Hin].
  - by rewrite bool_decide_eq_true_2.
  - rewrite bool_decide_eq_false_2; [by apply IH|].
    intros Heq. apply Hx. rewrite Heq. apply list_elem_of_fmap. by exists u.
Qed.

Lemma filter_id (u : IPendingUpdate.t) (l : list IPendingUpdate.t) :
  NoDup (ids l) → u ∈ l →
  filter (λ x, IPendingUpdate.id x ≠ IPendingUpdate.id u) l
  = filter (λ x, x ≠ u) l.
Proof.
  intros Hnd Hu. apply filter_iff_elem_of. intros x Hx. split.
  - intros Hne ->. done.
  - intros Hne Heq. apply Hne.
    apply list_elem_of_lookup in Hu as [i Hi].
    apply list_elem_of_lookup in Hx as [j Hj].
    assert (j = i) as ->; [|congruence].
    apply (NoDup_lookup _ _ _ (IPendingUpdate.id u) Hnd);
      unfold ids; rewrite list_lookup_fmap; [rewrite Hj|rewrite Hi];
      simpl; congruence.
Qed.

(** X26. The "Delete" button of a row, on a live panel whose pending
    updates have distinct ids: the update of the row, and no other, leaves
    the store; one REMOVE_SINGLE record is posted (where the user id and the
    notebook id allow it), with the id, the sender, the sender type and the
    update id of that update; the cells, the active cell and the updated
    cells stay as they are. *)
Theorem removeBtn_onclick_row (sb : Sidebar) (u : IPendingUpdate.t) (w : World) :
  _currentPanel sb = true →
  isDisposed (panel w) = false →
  NoDup (ids (pendingUpdates (panel w))) →
  u ∈ pendingUpdates (panel w) →
  let w' := exec (removeBtn_onclick sb u) w in
  pendingUpdates (panel w') = filter (λ x, x ≠ u) (pendingUpdates (panel w))
  ∧ log w'
    = log w ++
      posted REMOVE_SINGLE (Some (IPendingUpdate.id u))
        (Some (IPendingUpdate.sender u)) (Some (IPendingUpdate.senderType u))
        (IPendingUpdate.updateId u) w
  ∧ document (panel w') = document (panel w).
Proof.
  intros Hbound Hlive Hnd Hu w'. subst w'.
  unfold exec, removeBtn_onclick. rewrite Hbound.
  rewrite removePendingUpdate_eq by done. simpl.
  rewrite find_id, filter_id by done. split; [done|]. split.
  - f_equal. f_equal.
    + f_equal. by destruct (IPendingUpdate.sender u).
    + unfold or_else. by destruct (truthy _).
  - by destruct (panel w).
Qed.

End Proofs.

End MoreSyncProps.

(** ** More computations on the examples *)

Module MoreScenarios.
Import WebsocketManager Channel ChannelProps WebsocketSend ChannelMore.
Import NotebookSync SyncSpec SyncProps SyncMore MoreSpec MoreSyncProps.
Import LocationTracker TrackerSpec TrackerProps.
Import Examples MoreExamples.

(** A structured payload of the teacher arriving as 'group_chat'. *)
Lemma object_payload_normalised_witness :
  on_group_chat listening
    (DataObject (lit "{}") (lit "t-1") (Some (lit "teacher")))
  = Some (mkInvocation 0 (lit "{}") (lit "t-1") teacher).
Proof.
  destruct (object_payload_normalised listening (lit "{}") (lit "t-1")
              (Some (lit "teacher"))) as (Hsame & Hcall & _).
  destruct (Hcall 0 eq_refl) as (senderType & Hchat & Htype).
  rewrite <- Hsame, Hchat. f_equal. f_equal. by apply Htype.
Defined.

(** The sender of the legacy payload "From  u-7 : hello". *)
Lemma matchFrom_shape_witness :
  legacySender (lit "teacher") (lit "From  u-7 : hello") = lit "u-7".
Proof.
  destruct (matchFrom_shape (lit "teacher") (lit "From  u-7 : hello"))
    as (_ & _ & Hsender).
  destruct (Hsender (lit "u-7 ") eq_refl) as [Heq _]. exact Heq.
Defined.

(** Two location events for teammates at [o1], then one of them leaves. *)
Lemma location_events_consistent_witness :
  let tr' :=
    foldl handle unbound
      [teammate_location_update (teammateAt "alice" "o1");
       teammate_location_update (teammateAt "bob" "o1");
       teammate_location_cleared (lit "alice")] in
  consistent unbound
  ∧ located tr' = [lit "bob"]
  ∧ length (located tr') ≤ length (_connectedTeammates tr').
Proof.
  intros tr'.
  assert (consistent unbound) as Hunbound.
  { split; [constructor|]. split; [constructor|]. split; [constructor|].
    intros x Hx. exact Hx. }
  split; [exact Hunbound|]. split; [reflexivity|].
  destruct (location_events_consistent unbound
              [teammate_location_update (teammateAt "alice" "o1");
               teammate_location_update (teammateAt "bob" "o1");
               teammate_location_cleared (lit "alice")] Hunbound)
    as (_ & Hlength & _).
  exact Hlength.
Defined.

(** The teammates at the heading of the code cell, the last heading for
    [o1]. *)
Lemma _getTeammatesAtCell_of_outline_witness :
  let tr := outline [teammateAt "alice" "o1"] in
  assignmentHeading ∈ _headings tr
  ∧ ∃ teammates,
      _getTeammatesAtCell tr assignmentHeading = Some teammates
      ∧ NoDup teammates.
Proof.
  intros tr.
  assert (assignmentHeading ∈ _headings tr) as Hin.
  { apply list_elem_of_further, list_elem_of_here. }
  split; [exact Hin|].
  destruct (_getTeammatesAtCell_of_outline tr assignmentHeading Hin)
    as (teammates & lastHeading & Hget & _ & _ & _ & _ & Hnd).
  exists teammates. split; [exact Hget|]. apply Hnd. apply NoDup_singleton.
Defined.

(** Alice moves to [o1]: she is shown at the heading of the code cell. *)
Lemma teammate_shown_where_last_reported_witness :
  let tr := outline [teammateAt "alice" "o2"] in
  ∃ teammates,
    _getTeammatesAtCell (updateTeammateLocation (teammateAt "alice" "o1") tr)
      assignmentHeading = Some teammates
    ∧ lit "alice" ∈ teammates.
Proof.
  intros tr.
  destruct (teammate_shown_where_last_reported tr assignmentHeading
              (teammateAt "alice" "o1") (NoDup_singleton (lit "alice"))
              (list_elem_of_further _ _ _ (list_elem_of_here _ _)))
    as [(teammates & Hget & Hshown) _].
  exists teammates. split; [exact Hget|]. apply Hshown.
  split; [|reflexivity]. exists assignmentHeading. split; reflexivity.
Defined.

(** A teammate the tracker did not know comes and goes. *)
Lemma removeTeammateLocation_undoes_update_witness :
  removeTeammateLocation (lit "alice")
    (updateTeammateLocation (teammateAt "alice" "o1") unbound) = unbound.
Proof.
  exact (removeTeammateLocation_undoes_update unbound
           (teammateAt "alice" "o1") (not_elem_of_nil (lit "alice"))
           (not_elem_of_nil (lit "alice"))).
Defined.

(** The hue of the user [u-42]. *)
Lemma _getUserColor_hue_witness :
  (hashBound (S (length (lit "u-42"))) < MAX_SAFE)%Z
  ∧ (0 ≤ userHue (lit "u-42") < 360)%Z.
Proof.
  assert (Forall (λ c, (c < 65536)%N) (lit "u-42")) as Hunits.
  { repeat (constructor; [reflexivity|]). constructor. }
  split; [reflexivity|].
  destruct (_getUserColor_hue (lit "u-42") Hunits eq_refl) as (_ & Hhue & _).
  exact Hhue.
Defined.

(** The code cell of the example notebook is in the outline. *)
Lemma _generateHeadings_complete_witness :
  ∃ h, h ∈ _headings (_generateHeadings [] [intro; assignment]
                        (outline []))
       ∧ IHeading.cellIndex h = 1
       ∧ IHeading.cellId h = lit "c2".
Proof.
  apply (_generateHeadings_complete [] [intro; assignment] (outline []) 1
           assignment eq_refl).
  - apply NoDup_cons. split; [|apply NoDup_singleton].
    intros Hin. apply list_elem_of_singleton in Hin. discriminate Hin.
  - reflexivity.
  - split; [right; reflexivity|]. intros Hblank. discriminate Hblank.
Defined.

(** The pending update for [o1] is removed; the removal for [o2], which no
    update has, changes nothing. *)
Lemma removePendingUpdate_once_witness :
  let once :=
    exec (removePendingUpdate (who := user) (env := host [o1]) o1 true None
            None None) withPending in
  (o1 ∉ ids (getPendingUpdates (panel once)))
  ∧ length (log once) ≤ 1
  ∧ exec (removePendingUpdate (who := user) (env := host [o1]) o2 true None
            None None) oneCell = oneCell.
Proof.
  intros once.
  destruct (removePendingUpdate_once (who := user) (env := host [o1]) o1 true
              false None None None None None None withPending)
    as (_ & Hgone & _ & Hlength).
  destruct (removePendingUpdate_once (who := user) (env := host [o1]) o2 true
              false None None None None None None oneCell)
    as (_ & _ & Hfresh & _).
  split; [exact Hgone|]. split; [exact Hlength|].
  exact (Hfresh (not_elem_of_nil o2)).
Defined.

(** The sidebar on the notebook with the teacher's update pending. *)
Lemma getFilteredUpdates_modes_witness :
  pendingFor "o1" emptyPayload (Some (lit "u0"))
  ∉ view allUpdates teammates (panel withPending).
Proof.
  destruct (getFilteredUpdates_modes allUpdates (panel withPending))
    as (_ & Hapart & _).
  apply Hapart. apply list_elem_of_here.
Defined.

(** "Delete All" on the notebook with one pending update. *)
Lemma deleteAllBtn_onclick_view_witness :
  let w' :=
    exec (deleteAllBtn_onclick (who := user) (env := host [o1]) allUpdates)
      withPending in
  pendingUpdates (panel w')
  = filter (λ u, u ∉ getFilteredUpdates allUpdates (panel withPending))
      (pendingUpdates (panel withPending))
  ∧ getFilteredUpdates allUpdates (panel w') = [].
Proof.
  intros w'.
  destruct (deleteAllBtn_onclick_view (who := user) (env := host [o1])
              allUpdates withPending) as (_ & Hnone & Hleft & _).
  split; [|exact Hnone]. apply Hleft. apply NoDup_singleton.
Defined.

(** An update for [o1] when two cells have the original id [o1]: the label
    counts from the first, the update goes to the second. *)
Lemma cellLabel_names_target_witness :
  ∃ first,
    indexOf [o1; o1] o1 = Some first
    ∧ cellLabel [o1; o1] (pendingAt "100")
      = lit "Cell " ++ JsNumber.decimal (first + 1)
    ∧ first ≤ 1.
Proof.
  destruct (cellLabel_names_target [o1; o1] (pendingAt "100")) as [_ Htarget].
  destruct (Htarget 1 (λ H, eq_ind o1
                              (λ l, match l with [] => False | _ => True end)
                              I [] H) eq_refl)
    as (first & Hfirst & Hlabel & Hle & _).
  exists first. split; [exact Hfirst|]. split; [exact Hlabel|exact Hle].
Defined.

(** "Update Later" on the notebook with an empty store, then the removal
    of the update. *)
Lemma laterButton_click_then_remove_witness :
  panel
    (exec (removePendingUpdate (who := user) (env := host [o1]) o1 false None
             None None)
       (exec (laterButton_click (who := user) (env := host [o1]) payload
                (lit "teacher") teacher (Some o1) (lit "u1")) oneCell))
  = panel oneCell.
Proof.
  destruct (laterButton_click_then_remove (who := user) (env := host [o1])
              payload (lit "teacher") teacher (Some o1) (lit "u1") oneCell
              eq_refl) as [_ Hback].
  exact (Hback (not_elem_of_nil o1)).
Defined.

(** The cell above the updated cell [o1] is removed. *)
Lemma cellsRemoved_forgets_cell_below_witness :
  let p := panel (updated oneCell) in
  let p' := cellsRemoved (env := host [o1]) allUpdates 0 p in
  getUpdatedCells p = [o1]
  ∧ widgets p' = widgets p
  ∧ pendingUpdates p' = pendingUpdates p
  ∧ includes (getUpdatedCells p') o1 = false
  ∧ getUpdatedCells p' = filter (λ id, id ≠ o1) (getUpdatedCells p).
Proof.
  intros p p'. split; [reflexivity|].
  exact (cellsRemoved_forgets_cell_below (env := host [o1]) allUpdates 0 p
           eq_refl eq_refl).
Defined.

(** The senders of a store with one update of the teacher. *)
Lemma getUniqueSenders_last_type_witness :
  let p :=
    panel (notebook [Examples.code "print(1)"] (Some (lit "nb-1"))
             [pendingFor "o1" emptyPayload (Some (lit "u0"));
              fromTeammate "o2" "t-1"]) in
  NoDup ((getUniqueSenders selectedTeammates p).*1)
  ∧ (lit "teacher", teacher) ∈ getUniqueSenders selectedTeammates p
  ∧ lit "t-1" ∈ filterCheckboxes selectedTeammates p
  ∧ filterCheckboxes selectedTeammates p = [lit "t-1"]
  ∧ filterCheckboxes allUpdates p = [].
Proof.
  intros p.
  destruct (getUniqueSenders_last_type selectedTeammates p eq_refl eq_refl)
    as (Hnd & _ & Htype & Hboxes).
  split; [exact Hnd|]. split; [|split; [|split; reflexivity]].
  - apply Htype. split; [discriminate|]. eexists. split; reflexivity.
  - apply Hboxes. split; [reflexivity|]. apply Htype.
    split; [discriminate|]. eexists. split; reflexivity.
Defined.

(** Three updates received at 100, 300 and 200. *)
Lemma sortByTime_newest_first_witness :
  let updates := [pendingAt "100"; pendingAt "300"; pendingAt "200"] in
  let sorted := sortByTime (dates := millis) updates in
  sorted = [pendingAt "300"; pendingAt "200"; pendingAt "100"]
  ∧ StronglySorted (newestFirst (dates := millis)) sorted.
Proof.
  intros updates sorted. split; [reflexivity|].
  assert (Forall (λ u, is_Some (MoreSpec.received (dates := millis) u)) updates)
    as Hvalid.
  { repeat (constructor; [eexists; reflexivity|]). constructor. }
  destruct (sortByTime_newest_first (dates := millis) updates Hvalid)
    as (_ & Hsorted & _).
  exact Hsorted.
Defined.

(** The push of the example on a notebook in whose mapping [o1] is not. *)
Lemma updateNotebookContent_appends_witness :
  let w' :=
    exec (updateNotebookContent (who := user) (env := host [o2]) payload
            (Some (lit "u1")) None (Some (lit "teacher")) (Some teacher)
            false) oneCell in
  widgets (panel w') = [Examples.code "print(1)"; Examples.received "print(2)"]
  ∧ length (log w') = 1.
Proof.
  intros w'.
  assert (Forall (λ cu, ∀ id, ICellUpdate.id cu = Some id
                              → id ∉ getOrigCellMapping (Host := host [o2])
                                       (panel oneCell)) [push]) as Hunknown.
  { constructor; [|constructor]. intros id Hid. injection Hid as <-.
    intros Hin. apply list_elem_of_singleton in Hin. discriminate Hin. }
  destruct (updateNotebookContent_appends (who := user) (env := host [o2])
              payload [push] (Some (lit "u1")) None (Some (lit "teacher"))
              (Some teacher) false oneCell eq_refl eq_refl Hunknown)
    as [Hpanel Hlog].
  fold w' in Hpanel, Hlog. rewrite Hpanel, Hlog. split; reflexivity.
Defined.

(** "Update Now" for the push of the example while an update for [o1] is
    pending. *)
Lemma updateButton_click_clears_witness :
  pendingUpdates (panel withPending)
  = [pendingFor "o1" emptyPayload (Some (lit "u0"))]
  ∧ pendingUpdates
      (panel (exec (updateButton_click (who := user) (env := host [o1])
                      payload (lit "teacher") teacher (Some o1) (lit "u1"))
                withPending)) = [].
Proof.
  split; [reflexivity|].
  destruct (updateButton_click_clears (who := user) (env := host [o1])
              payload (lit "teacher") teacher (Some o1) (lit "u1")
              withPending eq_refl) as [Hstore _].
  rewrite Hstore. reflexivity.
Defined.

(** A second update of the cell of [o1], in the notebook of one cell. *)
Lemma applyCellUpdate_known_cell_witness :
  let w := updated oneCell in
  let w2 := exec (loop (env := host [o1]) w [Some push]) w in
  widgets (panel w2) = [Examples.received "print(2)"]
  ∧ activeCellIndex (panel w2) = 0
  ∧ updatedCells (panel w2) = [o1].
Proof.
  intros w w2.
  destruct (applyCellUpdate_known_cell (env := host [o1]) w [] w push o1 0
              (Examples.code "print(1)") eq_refl eq_refl eq_refl eq_refl
              eq_refl)
    as (w2' & Hturn & _ & Hagain & _).
  assert (w2 = w2') as -> by (unfold w2, exec; by rewrite Hturn).
  destruct (Hagain (list_elem_of_here o1 []))
    as (Hwidgets & _ & Hactive & Hupdated).
  split; [exact Hwidgets|]. split; [exact Hactive|exact Hupdated].
Defined.


(** The push of the example behind the prefix of a legacy payload. *)
Lemma handleSyncMessage_from_brace_witness :
  handleSyncMessage (json := parser) (lit "From teacher: " ++ pushText)
  = handleSyncMessage (json := parser) pushText
  ∧ handleSyncMessage (json := parser) (lit "From teacher: ") = None
  ∧ handleSyncMessage (json := parser) pushText
    = Some (Shown.mk payload (lit "update_cell") None (Some o1)).
Proof.
  assert (Forall (λ c, c ≠ 123%N) (lit "From teacher: ")) as Hprefix.
  { repeat (constructor; [discriminate|]). constructor. }
  destruct (handleSyncMessage_from_brace (json := parser)
              (lit "From teacher: ") pushText Hprefix) as (Hsame & Hnone & _).
  split; [exact Hsame|]. split; [exact Hnone|reflexivity].
Defined.

(** The push of the example while an update for [o1] is pending. *)
Lemma update_cell_push_supersedes_witness :
  ∃ shown,
    handleSyncMessage (json := parser) pushText = Some shown
    ∧ ids (pendingUpdates
             (panel (exec (later (who := user) (env := host [o1])
                             (lit "r4nd0m") (lit "teacher") teacher shown)
                       withPending))) = [o1]
    ∧ pendingUpdates
        (panel (exec (updateButton_click (who := user) (env := host [o1])
                        (Shown.newContent shown) (lit "teacher") teacher
                        (shownCellId shown)
                        (shownUpdateId (lit "r4nd0m") shown)) withPending))
      = [].
Proof.
  destruct (update_cell_push_supersedes (who := user) (env := host [o1])
              (json := parser) pushText pushText pushParsed
              {| PushContent.id := Some o1; PushContent.cell_id := None;
                 PushContent.update_id := None;
                 PushContent.cell_type := Some (lit "code");
                 PushContent.source := Some (lit "print(2)");
                 PushContent.cells := None |}
              o1 (lit "r4nd0m") (lit "teacher") teacher withPending
              eq_refl eq_refl eq_refl eq_refl eq_refl
              (λ H, eq_ind o1 (λ l, match l with [] => False | _ => True end)
                      I [] H)
              eq_refl)
    as (shown & Hshown & _ & (u & Hlater & Hid & _) & Hnow).
  exists shown. split; [exact Hshown|]. split.
  - rewrite Hlater. unfold ids. rewrite fmap_app. simpl. rewrite Hid.
    reflexivity.
  - rewrite Hnow. reflexivity.
Defined.

(** The pending update of the example applied from "Apply All", which
    skips the records. *)
Lemma applyPendingUpdate_records_witness :
  log (exec (applyPendingUpdate (who := user) (env := host [o1])
               (pendingFor "o1" payload (Some (lit "u0"))) true) withPending)
  = [].
Proof.
  destruct (applyPendingUpdate_records (who := user) (env := host [o1])
              (pendingFor "o1" payload (Some (lit "u0"))) true withPending)
    as (posted & Hlog & _ & Hnone & _).
  rewrite Hlog, (Hnone (or_introl eq_refl)). reflexivity.
Defined.

(** "Delete" on the row of the pending update of the example. *)
Lemma removeBtn_onclick_row_witness :
  let u := pendingFor "o1" emptyPayload (Some (lit "u0")) in
  let w' :=
    exec (removeBtn_onclick (who := user) (env := host [o1]) allUpdates u)
      withPending in
  pendingUpdates (panel w') = [] ∧ length (log w') = 1.
Proof.
  intros u w'.
  destruct (removeBtn_onclick_row (who := user) (env := host [o1]) allUpdates
              u withPending eq_refl eq_refl (NoDup_singleton o1)
              (list_elem_of_here u [])) as (Hstore & Hlog & _).
  fold w' in Hstore, Hlog. rewrite Hstore, Hlog. split; reflexivity.
Defined.

End MoreScenarios.
